(** * pyqtdeploy: the dependency resolution engine

    A shallow embedding of the parts of pyqtdeploy that decide which build
    units ("parts") a deployed application needs:

    - [version_number.py]  : [VersionNumber], its comparison operators,
                             [parse_version_number] and [__str__];
    - [platforms.py]       : the platform/architecture registry,
                             [Architecture.is_targeted], the host
                             architecture and [verify_as_host];
    - [parts.py]           : [Part], [Part.applies_to] and the names of
                             parts;
    - [sysroot/abstract_component.py] : [_normalised_part], [_add_part],
                             the [parts] property of a component,
                             [add_to_path] and [ensure_installed];
    - [sysroot/sysroot.py] : [get_component], [_components_from_names]
                             and the loop of [install_components];
    - [sysroot/specification.py] : [create_components_for_target];
    - [builder/builder.py] : [Builder._add_project_part], the check of
                             the entry point, [_add_bundled_shared_libs]
                             and the choice of the bootstrap script.

    Python objects that are mutated (the [Part] instances, the [_parts] memo
    of a component) live in an explicit store; exceptions are explicit
    results. *)

From Stdlib Require Import ZArith Bool Ascii String List Lia.
From stdpp Require Import base list strings.
From Stdlib Require DecimalString DecimalZ.
From stdpp Require Import gmap.
Import ListNotations.

Local Open Scope string_scope.
Local Open Scope list_scope.

(** ** Exceptions and fallible results *)

(** The exceptions the modelled code can raise.  [UserException] is the
    application's own fatal error; the others are raised by the Python
    runtime. *)
Inductive exn : Type :=
  | UserException
  | ValueError
  | TypeError
  | IndexError
  | KeyError
  | AttributeError.

Inductive res (A : Type) : Type :=
  | Ok (a : A)
  | Raise (e : exn).
Arguments Ok {A} a.
Arguments Raise {A} e.

Definition rbind {A B} (r : res A) (k : A -> res B) : res B :=
  match r with
  | Ok a => k a
  | Raise e => Raise e
  end.

Declare Scope res_scope.
Delimit Scope res_scope with res.
Notation "'let*' x ':=' r 'in' k" := (rbind r (fun x => k))
  (at level 10, x name, r at level 100, k at level 200) : res_scope.

(** ** Python string helpers *)

Module Str.

(** [c in s] for a one-character [c]. *)
Fixpoint contains (c : ascii) (s : string) : bool :=
  match s with
  | EmptyString => false
  | String a s' => if Ascii.eqb a c then true else contains c s'
  end.

(** [s.split(c)]: always at least one field. *)
Fixpoint split (c : ascii) (s : string) : list string :=
  match s with
  | EmptyString => [EmptyString]
  | String a s' =>
      if Ascii.eqb a c then EmptyString :: split c s'
      else match split c s' with
           | [] => [String a EmptyString]
           | f :: fs => String a f :: fs
           end
  end.

(** [s.split(c, maxsplit=1)]: one or two fields. *)
Fixpoint split1 (c : ascii) (s : string) : list string :=
  match s with
  | EmptyString => [EmptyString]
  | String a s' =>
      if Ascii.eqb a c then [EmptyString; s']
      else match split1 c s' with
           | [] => [String a EmptyString]
           | f :: fs => String a f :: fs
           end
  end.

(** [s.startswith(c)] for a one-character [c]. *)
Definition startswith (c : ascii) (s : string) : bool :=
  match s with
  | EmptyString => false
  | String a _ => Ascii.eqb a c
  end.

(** [s[1:]]. *)
Definition tail (s : string) : string :=
  match s with
  | EmptyString => EmptyString
  | String _ s' => s'
  end.

(** [x in l] for a list of strings. *)
Definition mem (x : string) (l : list string) : bool :=
  existsb (String.eqb x) l.

(** [sep.join(l)]. *)
Fixpoint join (sep : string) (l : list string) : string :=
  match l with
  | [] => EmptyString
  | [x] => x
  | x :: l' => x ++ sep ++ join sep l'
  end.

End Str.

(** ** version_number.py *)

Module VersionNumber.

Local Open Scope Z_scope.

(** A parsed version number: three integers and a string suffix. *)
Record t : Type := mk {
  major : Z;
  minor : Z;
  patch : Z;
  suffix : string
}.

(** An element of a comparison tuple. *)
Inductive elem : Type :=
  | EInt (z : Z)
  | EStr (s : string).

(** The right-hand side of a comparison operator: an [int], another
    [VersionNumber], a tuple, or a value of a type the class does not
    support (a [str], a [float], [None], ...). *)
Inductive other : Type :=
  | OInt (z : Z)
  | OVersion (v : t)
  | OTuple (l : list elem)
  | OUnsupported.

(** The 4-tuple [(major, minor, patch, suffix)] built by [_resolve_other];
    [None] components are below the precision of the comparison. *)
Definition resolved : Type :=
  (elem * option elem * option elem * option elem)%type.

(** [VersionNumber._resolve_other]: [Ok None] is the Python [None] returned
    for an unsupported type. *)
Definition _resolve_other (o : other) : res (option resolved) :=
  match o with
  | OInt z => Ok (Some (EInt z, None, None, None))
  | OVersion v =>
      Ok (Some (EInt (major v), Some (EInt (minor v)),
                Some (EInt (patch v)), Some (EStr (suffix v))))
  | OTuple l =>
      let nr := length l in
      if (Nat.ltb nr 1 || Nat.ltb 4 nr)%bool then Raise ValueError
      else
        Ok (Some (nth 0 l (EInt 0),
                  (if Nat.ltb 1 nr then l !! 1%nat else None),
                  (if Nat.ltb 1 nr then
                     if Nat.ltb 2 nr then l !! 2%nat else None
                   else None),
                  (if Nat.ltb 1 nr then
                     if Nat.ltb 2 nr then
                       if Nat.ltb 3 nr then l !! 3%nat else None
                     else None
                   else None)))
  | OUnsupported => Ok None
  end.

(** Python's [!=], [<] and [>] between an integer attribute and a tuple
    element: unequal types are never equal and cannot be ordered. *)
Definition int_ne (a : Z) (e : elem) : bool :=
  match e with
  | EInt b => negb (a =? b)
  | EStr _ => true
  end.

Definition int_lt (a : Z) (e : elem) : res bool :=
  match e with
  | EInt b => Ok (a <? b)
  | EStr _ => Raise TypeError
  end.

Definition int_gt (a : Z) (e : elem) : res bool :=
  match e with
  | EInt b => Ok (a >? b)
  | EStr _ => Raise TypeError
  end.

(** The same for the string suffix; strings are ordered lexicographically
    by character code. *)
Definition str_eq (a : string) (e : elem) : bool :=
  match e with
  | EStr b => String.eqb a b
  | EInt _ => false
  end.

Definition str_cmp (test : comparison -> bool) (a : string) (e : elem)
  : res bool :=
  match e with
  | EStr b => Ok (test (String.compare a b))
  | EInt _ => Raise TypeError
  end.

Definition is_lt (c : comparison) : bool :=
  match c with Lt => true | _ => false end.
Definition is_gt (c : comparison) : bool :=
  match c with Gt => true | _ => false end.
Definition is_le (c : comparison) : bool := negb (is_gt c).
Definition is_ge (c : comparison) : bool := negb (is_lt c).
Definition is_eq (c : comparison) : bool :=
  match c with Eq => true | _ => false end.

Local Open Scope res_scope.

(** The rich comparison methods.  They return [Ok None] for Python's
    [NotImplemented]. *)
Definition __eq__ (self : t) (o : other) : res (option bool) :=
  let* r := _resolve_other o in
  match r with
  | None => Ok None
  | Some (major', minor', patch', suffix') =>
      if int_ne (major self) major' then Ok (Some false) else
      match minor' with
      | None => Ok (Some true)
      | Some minor' =>
          if int_ne (minor self) minor' then Ok (Some false) else
          match patch' with
          | None => Ok (Some true)
          | Some patch' =>
              if int_ne (patch self) patch' then Ok (Some false) else
              match suffix' with
              | None => Ok (Some true)
              | Some suffix' => Ok (Some (str_eq (suffix self) suffix'))
              end
          end
      end
  end.

(** The shape shared by [__ge__] and [__le__]: at every component the
    method first tests the losing strict order ([bad]), then the winning
    one ([good]), and answers [True] when the precision is exhausted. *)
Definition inclusive (bad good : Z -> elem -> res bool)
    (last : string -> elem -> res bool) (self : t) (o : other)
  : res (option bool) :=
  let* r := _resolve_other o in
  match r with
  | None => Ok None
  | Some (major', minor', patch', suffix') =>
      let* b := bad (major self) major' in
      if b : bool then Ok (Some false) else
      let* g := good (major self) major' in
      if g : bool then Ok (Some true) else
      match minor' with
      | None => Ok (Some true)
      | Some minor' =>
          let* b := bad (minor self) minor' in
          if b : bool then Ok (Some false) else
          let* g := good (minor self) minor' in
          if g : bool then Ok (Some true) else
          match patch' with
          | None => Ok (Some true)
          | Some patch' =>
              let* b := bad (patch self) patch' in
              if b : bool then Ok (Some false) else
              let* g := good (patch self) patch' in
              if g : bool then Ok (Some true) else
              match suffix' with
              | None => Ok (Some true)
              | Some suffix' =>
                  let* c := last (suffix self) suffix' in
                  Ok (Some c)
              end
          end
      end
  end.

(** The shape shared by [__gt__] and [__lt__]: the winning strict order is
    tested first, then [losing or <component> is None]. *)
Definition strict (good bad : Z -> elem -> res bool)
    (last : string -> elem -> res bool) (self : t) (o : other)
  : res (option bool) :=
  let* r := _resolve_other o in
  match r with
  | None => Ok None
  | Some (major', minor', patch', suffix') =>
      let* g := good (major self) major' in
      if g : bool then Ok (Some true) else
      let* b := bad (major self) major' in
      if b : bool then Ok (Some false) else
      match minor' with
      | None => Ok (Some false)
      | Some minor' =>
          let* g := good (minor self) minor' in
          if g : bool then Ok (Some true) else
          let* b := bad (minor self) minor' in
          if b : bool then Ok (Some false) else
          match patch' with
          | None => Ok (Some false)
          | Some patch' =>
              let* g := good (patch self) patch' in
              if g : bool then Ok (Some true) else
              let* b := bad (patch self) patch' in
              if b : bool then Ok (Some false) else
              match suffix' with
              | None => Ok (Some false)
              | Some suffix' =>
                  let* c := last (suffix self) suffix' in
                  Ok (Some c)
              end
          end
      end
  end.

Definition __ge__ := inclusive int_lt int_gt (str_cmp is_ge).
Definition __le__ := inclusive int_gt int_lt (str_cmp is_le).
Definition __gt__ := strict int_gt int_lt (str_cmp is_gt).
Definition __lt__ := strict int_lt int_gt (str_cmp is_lt).

(** The operators as Python evaluates them.  When the method answers
    [NotImplemented] the reflected method of the unsupported right-hand
    side answers [NotImplemented] too: [==] then falls back to identity
    (false for a value of another type) and an ordering raises
    [TypeError]. *)
Definition op_eq (v : t) (o : other) : res bool :=
  let* r := __eq__ v o in
  match r with Some b => Ok b | None => Ok false end.

Definition ordering (m : t -> other -> res (option bool)) (v : t)
    (o : other) : res bool :=
  let* r := m v o in
  match r with Some b => Ok b | None => Raise TypeError end.

Definition op_ge := ordering __ge__.
Definition op_le := ordering __le__.
Definition op_gt := ordering __gt__.
Definition op_lt := ordering __lt__.

(** The comparison the specification describes: lexicographic on the
    first [k] of the components major, minor, patch, suffix. *)
Definition lex (c1 c2 : comparison) : comparison :=
  match c1 with Eq => c2 | _ => c1 end.

Definition compare_at_precision (k : nat) (v : t) (M m p : Z) (s : string)
  : comparison :=
  lex (major v ?= M)
    (if Nat.leb 2 k then
       lex (minor v ?= m)
         (if Nat.leb 3 k then
            lex (patch v ?= p)
              (if Nat.leb 4 k then String.compare (suffix v) s else Eq)
          else Eq)
     else Eq).

(** The [k]-element tuple [(M, m, p, s)[:k]]. *)
Definition tuple_of (k : nat) (M m p : Z) (s : string) : list elem :=
  firstn k [EInt M; EInt m; EInt p; EStr s].

End VersionNumber.

(** ** platforms.py *)

Module Platforms.

Local Open Scope res_scope.

(** The [Platform] singletons, in the order in which the module creates
    them (which is the order of [Platform.all_platforms]).  Object
    identity ([is]) is constructor equality. *)
Inductive Platform : Type :=
  | Android
  | iOS
  | Linux
  | macOS
  | Windows.

Definition platform_name (p : Platform) : string :=
  match p with
  | Android => "android"
  | iOS => "ios"
  | Linux => "linux"
  | macOS => "macos"
  | Windows => "win"
  end.

Definition all_platforms : list Platform :=
  [Android; iOS; Linux; macOS; Windows].

(** The [Architecture] singletons; each platform's constructor creates its
    architectures before it registers itself. *)
Inductive Architecture : Type :=
  | Android_arm_32
  | Android_arm_64
  | iOS_arm_64
  | Linux_x86_32
  | Linux_x86_64
  | macOS_x86_64
  | Windows_x86_32
  | Windows_x86_64.

Definition arch_name (a : Architecture) : string :=
  match a with
  | Android_arm_32 => "android-32"
  | Android_arm_64 => "android-64"
  | iOS_arm_64 => "ios-64"
  | Linux_x86_32 => "linux-32"
  | Linux_x86_64 => "linux-64"
  | macOS_x86_64 => "macos-64"
  | Windows_x86_32 => "win-32"
  | Windows_x86_64 => "win-64"
  end.

Definition arch_platform (a : Architecture) : Platform :=
  match a with
  | Android_arm_32 | Android_arm_64 => Android
  | iOS_arm_64 => iOS
  | Linux_x86_32 | Linux_x86_64 => Linux
  | macOS_x86_64 => macOS
  | Windows_x86_32 | Windows_x86_64 => Windows
  end.

Definition all_architectures : list Architecture :=
  [Android_arm_32; Android_arm_64; iOS_arm_64; Linux_x86_32; Linux_x86_64;
   macOS_x86_64; Windows_x86_32; Windows_x86_64].

Definition platform_is (p q : Platform) : bool :=
  match p, q with
  | Android, Android | iOS, iOS | Linux, Linux | macOS, macOS
  | Windows, Windows => true
  | _, _ => false
  end.

Definition arch_is (a b : Architecture) : bool :=
  match a, b with
  | Android_arm_32, Android_arm_32 | Android_arm_64, Android_arm_64
  | iOS_arm_64, iOS_arm_64 | Linux_x86_32, Linux_x86_32
  | Linux_x86_64, Linux_x86_64 | macOS_x86_64, macOS_x86_64
  | Windows_x86_32, Windows_x86_32 | Windows_x86_64, Windows_x86_64 => true
  | _, _ => false
  end.

(** [Platform.platform(name)]. *)
Definition platform (name : string) : res Platform :=
  match find (fun p => String.eqb (platform_name p) name) all_platforms with
  | Some p => Ok p
  | None => Raise UserException
  end.

(** [Architecture.architecture(name)] for a given name (the host lookup
    done for [name=None] is outside the resolver). *)
Definition architecture (name : string) : res Architecture :=
  match find (fun a => String.eqb (arch_name a) name
                       || String.eqb (platform_name (arch_platform a)) name)
             all_architectures with
  | Some a => Ok a
  | None => Raise UserException
  end.

(** The argument of [is_targeted]: a string expression or a sequence of
    platform names. *)
Inductive targets : Type :=
  | TStr (s : string)
  | TSeq (l : list string).

Definition truthy (t : targets) : bool :=
  match t with
  | TStr s => negb (String.eqb s "")
  | TSeq l => negb (Nat.eqb (length l) 0)
  end.

(** [Architecture.is_targeted]. *)
Definition is_targeted (self : Architecture) (t : targets) : res bool :=
  if truthy t then
    let t :=
      match t with
      | TStr s =>
          let l := Str.split "|" s in
          if Nat.eqb (length l) 1 then TStr (nth 0 l "") else TSeq l
      | TSeq _ => t
      end in
    match t with
    | TStr s =>
        if Str.startswith "!" s then
          let* p := platform (Str.tail s) in
          Ok (negb (platform_is (arch_platform self) p))
        else if Str.contains "-" s then
          let* a := architecture s in
          Ok (arch_is self a)
        else
          let* p := platform s in
          Ok (platform_is (arch_platform self) p)
    | TSeq l => Ok (Str.mem (platform_name (arch_platform self)) l)
    end
  else Ok true.

End Platforms.

(** ** parts.py *)

Module Parts.

Local Open Scope res_scope.

(** The classes of part.  [CompiledPart], [ComponentLibrary] and
    [ExtensionModule] are the instances of [CompiledPart]. *)
Inductive kind : Type :=
  | KPart
  | KCompiledPart
  | KComponentLibrary
  | KDataFile
  | KExtensionModule
  | KPythonModule
  | KPythonPackage.

Definition is_CompiledPart (k : kind) : bool :=
  match k with
  | KCompiledPart | KComponentLibrary | KExtensionModule => true
  | _ => false
  end.

Definition is_ExtensionModule (k : kind) : bool :=
  match k with
  | KExtensionModule => true
  | _ => false
  end.

(** A [Part] instance.  The attributes the resolver and the builder never
    read ([bundle_shared_libs], [qmake_config], [pyd], [builtin],
    [exclusions], ...) are left out; the value lists that only compiled
    parts have are [None] for the other classes. *)
Record Part : Type := mkPart {
  cls : kind;
  _min_version : option VersionNumber.other;
  _version : option VersionNumber.other;
  _max_version : option VersionNumber.other;
  name : option string;
  target : string;
  min_android_api : option Z;
  internal : bool;
  deps : list string;
  hidden_deps : list string;
  core : bool;
  defines : option (list string);
  libs : option (list string);
  includepath : option (list string);
  source : option (list string)
}.

(** [Part.applies_to]. *)
Definition applies_to (self : Part) (version : VersionNumber.t) : res bool :=
  match _version self with
  | Some v => VersionNumber.op_eq version v
  | None =>
      let* below :=
        match _min_version self with
        | Some v => VersionNumber.op_lt version v
        | None => Ok false
        end in
      if below : bool then Ok false else
      let* above :=
        match _max_version self with
        | Some v => VersionNumber.op_gt version v
        | None => Ok false
        end in
      if above : bool then Ok false else
      Ok true
  end.

(** [Part.get_name]. *)
Definition get_name (component_name unscoped_name : string) : string :=
  component_name ++ ":" ++ unscoped_name.

(** [Part.get_name_parts]: a list of one or two strings. *)
Definition get_name_parts (name : string) : list string :=
  Str.split1 ":" name.

(** [Part.get_unscoped_name]: indexing the second field fails on a name
    without a colon. *)
Definition get_unscoped_name (name : string) : res string :=
  match get_name_parts name with
  | [_; u] => Ok u
  | _ => Raise IndexError
  end.

(** [Part.is_scoped_name]. *)
Definition is_scoped_name (name : string) : bool :=
  Str.contains ":" name.

(** Setters for the attributes the resolver assigns. *)
Definition set_name (n : string) (p : Part) : Part :=
  mkPart (cls p) (_min_version p) (_version p) (_max_version p) (Some n)
    (target p) (min_android_api p) (internal p) (deps p) (hidden_deps p)
    (core p) (defines p) (libs p) (includepath p) (source p).

Definition set_deps (d : list string) (p : Part) : Part :=
  mkPart (cls p) (_min_version p) (_version p) (_max_version p) (name p)
    (target p) (min_android_api p) (internal p) d (hidden_deps p)
    (core p) (defines p) (libs p) (includepath p) (source p).

Definition set_hidden_deps (d : list string) (p : Part) : Part :=
  mkPart (cls p) (_min_version p) (_version p) (_max_version p) (name p)
    (target p) (min_android_api p) (internal p) (deps p) d
    (core p) (defines p) (libs p) (includepath p) (source p).

Definition set_defines (v : option (list string)) (p : Part) : Part :=
  mkPart (cls p) (_min_version p) (_version p) (_max_version p) (name p)
    (target p) (min_android_api p) (internal p) (deps p) (hidden_deps p)
    (core p) v (libs p) (includepath p) (source p).

Definition set_libs (v : option (list string)) (p : Part) : Part :=
  mkPart (cls p) (_min_version p) (_version p) (_max_version p) (name p)
    (target p) (min_android_api p) (internal p) (deps p) (hidden_deps p)
    (core p) (defines p) v (includepath p) (source p).

Definition set_includepath (v : option (list string)) (p : Part) : Part :=
  mkPart (cls p) (_min_version p) (_version p) (_max_version p) (name p)
    (target p) (min_android_api p) (internal p) (deps p) (hidden_deps p)
    (core p) (defines p) (libs p) v (source p).

Definition set_source (v : option (list string)) (p : Part) : Part :=
  mkPart (cls p) (_min_version p) (_version p) (_max_version p) (name p)
    (target p) (min_android_api p) (internal p) (deps p) (hidden_deps p)
    (core p) (defines p) (libs p) (includepath p) v.

End Parts.

(** ** Python dictionaries

    A [dict] keeps its keys in insertion order, and assigning to a key that
    is already present keeps the key's position. *)

Module Dict.

Abbreviation t V := (list (string * V)) (only parsing).

Fixpoint get {V} (k : string) (d : t V) : option V :=
  match d with
  | [] => None
  | (k', v) :: d' => if String.eqb k' k then Some v else get k d'
  end.

(** [k in d]. *)
Definition mem {V} (k : string) (d : t V) : bool :=
  match get k d with
  | Some _ => true
  | None => false
  end.

(** [d[k] = v]. *)
Fixpoint set {V} (k : string) (v : V) (d : t V) : t V :=
  match d with
  | [] => [(k, v)]
  | (k', v') :: d' =>
      if String.eqb k' k then (k, v) :: d' else (k', v') :: set k v d'
  end.

(** [d.update(other)]. *)
Definition update {V} (d other : t V) : t V :=
  fold_left (fun d kv => set (fst kv) (snd kv) d) other d.

Definition keys {V} (d : t V) : list string := map fst d.

End Dict.

(** ** sysroot/abstract_component.py and sysroot/sysroot.py *)

Module Sysroot.

Import Parts Platforms.

(** References to [Part] objects: indices into the store. *)
Abbreviation loc := nat (only parsing).

(** A value of the [provides] table: a single part or a tuple of
    version-specific parts. *)
Inductive versions : Type :=
  | Single (l : loc)
  | Variants (ls : list loc).

(** A component (metadata provider).  [_parts] is [None] until the
    [parts] property is first read. *)
Record Component : Type := mkComponent {
  cname : string;
  version : VersionNumber.t;
  provides : Dict.t versions;
  _parts : option (Dict.t (option loc))
}.

(** The mutable state of a session: the [Part] objects and the components
    of the sysroot, in the order of [Sysroot.components]. *)
Record state : Type := mkState {
  store : list Part;
  components : list Component
}.

(** The result of running a piece of the resolver: a value, a Python
    exception, or exhaustion of the recursion budget of the model.  Each
    carries the state reached. *)
Inductive outcome (A : Type) : Type :=
  | Done (a : A) (s : state)
  | Raised (e : exn) (s : state)
  | OutOfFuel (s : state).
Arguments Done {A} a s.
Arguments Raised {A} e s.
Arguments OutOfFuel {A} s.

Definition final {A} (o : outcome A) : state :=
  match o with
  | Done _ s | Raised _ s | OutOfFuel s => s
  end.

Definition M (A : Type) : Type := state -> outcome A.

(** The variant at [l] exists and does not apply to version [ver]. *)
Definition rejects (s : state) (ver : VersionNumber.t) (l : loc) : Prop :=
  exists p, store s !! l = Some p /\ applies_to p ver = Ok false.


Definition ret {A} (a : A) : M A := fun s => Done a s.

Definition bind {A B} (m : M A) (k : A -> M B) : M B :=
  fun s =>
    match m s with
    | Done a s' => k a s'
    | Raised e s' => Raised e s'
    | OutOfFuel s' => OutOfFuel s'
    end.

Definition raise {A} (e : exn) : M A := fun s => Raised e s.

Definition out_of_fuel {A} : M A := fun s => OutOfFuel s.

Definition lift {A} (r : res A) : M A :=
  match r with
  | Ok a => ret a
  | Raise e => raise e
  end.

Declare Scope M_scope.
Delimit Scope M_scope with M.
Notation "'let*' x ':=' m 'in' k" := (bind m (fun x => k))
  (at level 10, x name, m at level 100, k at level 200) : M_scope.

(** *** Objects *)

(** Reading an attribute of the object at [l]. *)
Definition read (l : loc) : M Part :=
  fun s =>
    match store s !! l with
    | Some p => Done p s
    | None => Raised AttributeError s
    end.

(** Assigning an attribute of the object at [l]. *)
Definition write (l : loc) (f : Part -> Part) : M unit :=
  fun s =>
    match store s !! l with
    | Some p => Done tt (mkState (<[l := f p]> (store s)) (components s))
    | None => Raised AttributeError s
    end.

(** [copy.deepcopy(part)]: a new object with the same attribute values.
    The attribute values themselves (strings, tuples of strings, version
    tuples) are immutable. *)
Definition deepcopy (l : loc) : M loc :=
  fun s =>
    match store s !! l with
    | Some p =>
        Done (length (store s)) (mkState (store s ++ [p]) (components s))
    | None => Raised AttributeError s
    end.

(** The component object with index [i]. *)
Definition component (i : nat) : M Component :=
  fun s =>
    match components s !! i with
    | Some c => Done c s
    | None => Raised AttributeError s
    end.

(** [self._parts] of component [i], which must be a dict. *)
Definition self_parts (i : nat) : M (Dict.t (option loc)) :=
  fun s =>
    match components s !! i with
    | Some c =>
        match _parts c with
        | Some d => Done d s
        | None => Raised TypeError s
        end
    | None => Raised AttributeError s
    end.

(** Rebinding or updating [self._parts] of component [i]. *)
Definition set_parts (i : nat) (d : Dict.t (option loc)) : M unit :=
  fun s =>
    match components s !! i with
    | Some c =>
        Done tt
          (mkState (store s)
             (<[i := mkComponent (cname c) (version c) (provides c)
                       (Some d)]> (components s)))
    | None => Raised AttributeError s
    end.

Fixpoint index_of (name : string) (cs : list Component) : option nat :=
  match cs with
  | [] => None
  | c :: cs' =>
      if String.eqb (cname c) name then Some 0
      else match index_of name cs' with
           | Some j => Some (S j)
           | None => None
           end
  end.

(** [Sysroot.get_component(name, required=False)]: the first component
    with that name. *)
Definition get_component (name : string) : M (option nat) :=
  fun s => Done (index_of name (components s)) s.

(** The state with the objects [st] in which component [i], whose other
    attributes are those of [self], has the memo [m]. *)
Definition memoized (st : list Part) (cs : list Component) (i : nat)
    (self : Component) (m : Dict.t (option loc)) : state :=
  mkState st
    (<[i := mkComponent (cname self) (version self) (provides self)
              (Some m)]> cs).

(** *** Loops *)

Inductive ctl : Type :=
  | Next
  | Break.

(** [for x in xs: body], where [body] updates the local variables [acc]
    and says whether the loop goes on. *)
Fixpoint for_each {A S} (xs : list A) (body : A -> S -> M (ctl * S))
    (acc : S) : M S :=
  match xs with
  | [] => ret acc
  | x :: xs' =>
      bind (body x acc) (fun r =>
        match r with
        | (Next, acc') => for_each xs' body acc'
        | (Break, acc') => ret acc'
        end)
  end.

Section Session.

(** The target architecture of the sysroot. *)
Variable target : Architecture.

(** [AbstractComponent._targeted_value]. *)
Definition _targeted_value (value : string) : res (option string) :=
  if Str.contains "#" value then
    match Str.split1 "#" value with
    | [tgt; value'] =>
        rbind (is_targeted target (TStr tgt)) (fun covered =>
          Ok (if covered : bool then Some value' else None))
    | _ => Raise ValueError
    end
  else Ok (Some value).

(** [AbstractComponent._normalised_deps]; [self_name] is [self.name]. *)
Fixpoint _normalised_deps (self_name : string) (deps : list string)
  : res (list string) :=
  match deps with
  | [] => Ok []
  | dep :: deps' =>
      rbind
        (if is_scoped_name dep then
           match get_name_parts dep with
           | [component_name; dep'] => Ok (component_name, dep')
           | _ => Raise ValueError
           end
         else Ok (self_name, dep))
        (fun cd =>
           rbind (_targeted_value (snd cd)) (fun dep' =>
             rbind (_normalised_deps self_name deps') (fun scoped_deps =>
               Ok (match dep' with
                   | Some d => get_name (fst cd) d :: scoped_deps
                   | None => scoped_deps
                   end))))
  end.

(** [AbstractComponent._normalised_values]. *)
Fixpoint resolved_values (values : list string) : res (list string) :=
  match values with
  | [] => Ok []
  | value :: values' =>
      rbind (_targeted_value value) (fun v =>
        rbind (resolved_values values') (fun rest =>
          Ok (match v with
              | Some x => x :: rest
              | None => rest
              end)))
  end.

Definition _normalised_values (values : option (list string))
  : res (option (list string)) :=
  rbind
    (match values with
     | Some vs => resolved_values vs
     | None => Ok []
     end)
    (fun rs =>
       Ok (match rs with
           | [] => None
           | _ :: _ => Some rs
           end)).

Local Open Scope M_scope.

(** The normalisation of the fresh copy [c] in [_normalised_part]: every
    step reads the attribute from the copy and assigns the result to
    the copy. *)
Definition normalise_copy (self_name unscoped_name : string) (c : loc)
  : M unit :=
  let* _ := write c (set_name (get_name self_name unscoped_name)) in
  let* p := read c in
  let* d := lift (_normalised_deps self_name (deps p)) in
  let* _ := write c (set_deps d) in
  let* p := read c in
  let* d := lift (_normalised_deps self_name (hidden_deps p)) in
  let* _ := write c (set_hidden_deps d) in
  let* p := read c in
  let* _ :=
    if is_CompiledPart (cls p) then
      let* v := lift (_normalised_values (defines p)) in
      let* _ := write c (set_defines v) in
      let* p := read c in
      let* v := lift (_normalised_values (includepath p)) in
      let* _ := write c (set_includepath v) in
      let* p := read c in
      let* v := lift (_normalised_values (libs p)) in
      write c (set_libs v)
    else ret tt in
  let* p := read c in
  if is_ExtensionModule (cls p) then
    let* v := lift (_normalised_values (source p)) in
    write c (set_source v)
  else ret tt.

(** The test [part.target != '' and not target.is_targeted(part.target)]
    of [_normalised_part], negated: the part is for the target. *)
Definition targeted (part : Part) : res bool :=
  if String.eqb (Parts.target part) "" then Ok true
  else is_targeted target (TStr (Parts.target part)).

(** The [for part in versions] loop of [_normalised_part]. *)
Fixpoint select (self_name : string) (self_version : VersionNumber.t)
    (unscoped_name : string) (vs : list loc) : M (option loc) :=
  match vs with
  | [] => ret None
  | l :: vs' =>
      let* part := read l in
      let* applies := lift (applies_to part self_version) in
      if applies : bool then
        let* covered := lift (targeted part) in
        if covered : bool then
          let* c := deepcopy l in
          let* _ := normalise_copy self_name unscoped_name c in
          ret (Some c)
        else ret None
      else select self_name self_version unscoped_name vs'
  end.

(** [AbstractComponent._normalised_part]. *)
Definition _normalised_part (self_name : string)
    (self_version : VersionNumber.t) (unscoped_name : string)
    (vs : versions) : M (option loc) :=
  select self_name self_version unscoped_name
    match vs with
    | Single l => [l]
    | Variants ls => ls
    end.

(** The attribute values [normalise_copy] leaves in the copy, as a
    function of the attribute values of the copied part. *)
Definition normalised (self_name unscoped_name : string) (p : Part)
  : res Part :=
  let p := set_name (get_name self_name unscoped_name) p in
  rbind (_normalised_deps self_name (deps p)) (fun d =>
  let p := set_deps d p in
  rbind (_normalised_deps self_name (hidden_deps p)) (fun h =>
  let p := set_hidden_deps h p in
  rbind
    (if is_CompiledPart (cls p) then
       rbind (_normalised_values (defines p)) (fun v =>
       let p := set_defines v p in
       rbind (_normalised_values (includepath p)) (fun v =>
       let p := set_includepath v p in
       rbind (_normalised_values (libs p)) (fun v =>
       Ok (set_libs v p))))
     else Ok p)
    (fun p =>
       if is_ExtensionModule (cls p) then
         rbind (_normalised_values (source p)) (fun v =>
         Ok (set_source v p))
       else Ok p))).

(** The classification of a dependency at the top of the loop of
    [_add_part]: [None] is [continue]; otherwise whether the dependency
    is required, and its name without the marker. *)
Definition classify (openssl : option nat)
    (dep_name component_name part_name : string)
  : option (bool * string) :=
  if Str.startswith "?" part_name then
    Some (false, get_name component_name (Str.tail part_name))
  else if Str.startswith "!" part_name then
    match openssl with
    | Some _ => None
    | None => Some (true, get_name component_name (Str.tail part_name))
    end
  else Some (true, dep_name).

Definition is_available (p : option loc) : bool :=
  match p with
  | Some _ => true
  | None => false
  end.

(** The bodies of the [parts] property and of [_add_part], for a
    component [i], with the calls they make left open: [add_part] is the
    recursive call [self._add_part] and [parts_of j] reads the [parts]
    property of component [j]. *)
Section Bodies.

Variable add_part :
  nat -> string -> loc -> option nat -> Dict.t loc -> M unit.
Variable parts_of : nat -> M (Dict.t (option loc)).

(** The first loop of [parts]: the normalised part of one entry of the
    [provides] table is entered in the local dict [provides]. *)
Definition provide (self : Component) (nv : string * versions)
    (provides : Dict.t loc) : M (ctl * Dict.t loc) :=
  let* part :=
    _normalised_part (cname self) (version self) (fst nv) (snd nv) in
  match part with
  | Some l =>
      let* p := read l in
      match name p with
      | Some n => ret (Next, Dict.set n l provides)
      | None => raise TypeError
      end
  | None => ret (Next, provides)
  end.

(** The body of the property [parts]. *)
Definition parts_body (i : nat) : M (Dict.t (option loc)) :=
  let* self := component i in
  match _parts self with
  | Some d => ret d
  | None =>
      let* _ := set_parts i [] in
      let* openssl := get_component "OpenSSL" in
      let* provides := for_each (provides self) (provide self) [] in
      let* _ :=
        for_each provides
          (fun np (_ : unit) =>
             let* _ := add_part i (fst np) (snd np) openssl provides in
             ret (Next, tt))
          tt in
      let* memo := self_parts i in
      let d := List.filter (fun np => is_available (snd np)) memo in
      let* _ := set_parts i d in
      ret d
  end.

(** One round of the loop over [part.deps] in [_add_part].  The local
    variables are [part] (which becomes [None]) and [updated_deps]. *)
Definition check_dep (i : nat) (self : Component) (openssl : option nat)
    (provides : Dict.t loc) (dep_name : string)
    (acc : option loc * list string)
  : M (ctl * (option loc * list string)) :=
  match get_name_parts dep_name with
  | [component_name; part_name] =>
      match classify openssl dep_name component_name part_name with
      | None => ret (Next, acc)
      | Some (required, dep_name) =>
          if String.eqb (cname self) component_name then
            match Dict.get dep_name provides with
            | None =>
                if required : bool
                then ret (Break, (None, snd acc))
                else ret (Next, acc)
            | Some dep_part =>
                let* _ := add_part i dep_name dep_part openssl provides in
                let* memo := self_parts i in
                match Dict.get dep_name memo with
                | None => raise KeyError
                | Some None =>
                    if required : bool
                    then ret (Break, (None, snd acc))
                    else ret (Next, acc)
                | Some (Some _) =>
                    ret (Next, (fst acc, snd acc ++ [dep_name]))
                end
            end
          else
            let* other := get_component component_name in
            let* provided :=
              match other with
              | None => ret false
              | Some j =>
                  let* ps := parts_of j in
                  ret (Dict.mem dep_name ps)
              end in
            if provided : bool
            then ret (Next, (fst acc, snd acc ++ [dep_name]))
            else if required : bool
            then ret (Next, (None, snd acc))
            else ret (Next, acc)
      end
  | _ => raise ValueError
  end.

(** The body of [_add_part]. *)
Definition _add_part_body (i : nat) (name : string) (part : loc)
    (openssl : option nat) (provides : Dict.t loc) : M unit :=
  let* self := component i in
  let* memo := self_parts i in
  if Dict.mem name memo then ret tt else
  let* _ := set_parts i (Dict.set name (Some part) memo) in
  let* p := read part in
  let* r :=
    for_each (deps p) (check_dep i self openssl provides) (Some part, []) in
  let* _ :=
    match fst r with
    | Some l => write l (set_deps (snd r))
    | None => ret tt
    end in
  let* memo := self_parts i in
  set_parts i (Dict.set name (fst r) memo).

End Bodies.

(** The [parts] property and [_add_part] of component [i].  [fuel]
    bounds the depth of the recursion. *)
Fixpoint parts (fuel : nat) (i : nat) : M (Dict.t (option loc)) :=
  match fuel with
  | O => out_of_fuel
  | S fuel' => parts_body (_add_part fuel') i
  end

with _add_part (fuel : nat) (i : nat) (name : string) (part : loc)
    (openssl : option nat) (provides : Dict.t loc) : M unit :=
  match fuel with
  | O => out_of_fuel
  | S fuel' =>
      _add_part_body (_add_part fuel') (parts fuel') i name part openssl
        provides
  end.

End Session.

End Sysroot.

(** ** builder/builder.py *)

Module Builder.

Import Parts Platforms Sysroot.

Section Build.

(** The target architecture and, for an Android target, the API level
    set when the platform is verified. *)
Variable target : Architecture.
Variable android_api : Z.

Local Open Scope M_scope.

(** The search for the component that provides the parent of a dotted
    name: [Some parent_name] when the loop breaks, [None] when it runs
    to its [else]. *)
Fixpoint find_parent (fuel : nat) (unscoped_parent_name : string)
    (cs : list nat) : M (option string) :=
  match cs with
  | [] => ret None
  | j :: cs' =>
      let* c := component j in
      let parent_name := get_name (cname c) unscoped_parent_name in
      let* ps := parts target fuel j in
      if Dict.mem parent_name ps then ret (Some parent_name)
      else find_parent fuel unscoped_parent_name cs'
  end.

(** [Builder._add_project_part]; the dict [parts] is updated in place,
    so the model returns it. *)
Fixpoint _add_project_part (fuel : nat) (part_name : string)
    (parts : Dict.t loc) (available_parts : Dict.t (option loc))
  : M (Dict.t loc) :=
  match fuel with
  | O => out_of_fuel
  | S fuel' =>
      if Dict.mem part_name parts then ret parts else
      let* r :=
        if Str.contains "." part_name then
          let* unscoped_name := lift (get_unscoped_name part_name) in
          let unscoped_parent_name :=
            Str.join "." (removelast (Str.split "." unscoped_name)) in
          let* n := (fun s => Done (length (components s)) s) in
          let* parent := find_parent fuel' unscoped_parent_name (seq 0 n) in
          match parent with
          | None => ret None
          | Some parent_name =>
              let* parts :=
                _add_project_part fuel' parent_name parts
                  available_parts in
              ret (Some parts)
          end
        else ret (Some parts) in
      match r with
      | None => ret parts
      | Some parts =>
          match Dict.get part_name available_parts with
          | None | Some None => ret parts
          | Some (Some l) =>
              let* part := read l in
              if String.eqb (platform_name (arch_platform target))
                   "android"
                 && match min_android_api part with
                    | Some m => (m >? android_api)%Z
                    | None => false
                    end
              then ret parts
              else
                let parts := Dict.set part_name l parts in
                let* parts :=
                  for_each (deps part)
                    (fun dep parts =>
                       let* parts :=
                         _add_project_part fuel' dep parts
                           available_parts in
                       ret (Next, parts))
                    parts in
                for_each (hidden_deps part)
                  (fun dep parts =>
                     let* parts :=
                       _add_project_part fuel' dep parts
                         available_parts in
                     ret (Next, parts))
                  parts
          end
      end
  end.

Definition is_python_code (k : kind) : bool :=
  match k with
  | KPythonModule | KPythonPackage => true
  | _ => false
  end.

(** The part of [Builder.build] that computes the required parts of a
    project whose explicitly requested parts are [project_parts]. *)
Definition required_parts (fuel : nat) (project_parts : list string)
  : M (Dict.t loc) :=
  let* python := get_component "Python" in
  match python with
  | None => raise UserException
  | Some py =>
      let* n := (fun s => Done (length (components s)) s) in
      let* available_parts :=
        for_each (seq 0 n)
          (fun j available_parts =>
             let* ps := parts target fuel j in
             ret (Next, Dict.update available_parts ps))
          [] in
      let* python_parts := parts target fuel py in
      let* parts :=
        for_each python_parts
          (fun np parts =>
             match snd np with
             | Some l =>
                 let* part := read l in
                 if is_python_code (cls part) && core part then
                   let* parts :=
                     _add_project_part fuel (fst np) parts
                       available_parts in
                   ret (Next, parts)
                 else ret (Next, parts)
             | None => raise AttributeError
             end)
          [] in
      for_each project_parts
        (fun part_name parts =>
           let* parts :=
             _add_project_part fuel part_name parts available_parts in
           ret (Next, parts))
        parts
  end.

End Build.

End Builder.

(** ** Sessions and what is observed of them *)

Module Session.

Import Parts Sysroot.

(** The objects a value of the [provides] table refers to. *)
Definition locs_of (v : versions) : list loc :=
  match v with
  | Single l => [l]
  | Variants ls => ls
  end.

(** Every template in the [provides] table of [c] is one of the first [n]
    objects. *)
Definition templates_below (n : nat) (c : Component) : Prop :=
  Forall (fun nv => Forall (fun l => l < n) (locs_of (snd nv))) (provides c).

(** A session is fresh when its objects are the templates of its
    providers and no provider has computed its parts. *)
Definition fresh (s : state) : Prop :=
  Forall (fun c => _parts c = None /\ templates_below (length (store s)) c)
    (components s).

(** A new session with the providers of [s0], over the objects a run left
    in [s1]. *)
Definition restart (s0 s1 : state) : state :=
  mkState (store s1) (components s0).

(** What a caller sees of a run of [parts]: the table with the attribute
    values of the parts it refers to, or the exception. *)
Inductive observation : Type :=
  | Returned (t : list (string * option Part))
  | Failed (e : exn)
  | Unfinished.

Definition observe (o : outcome (Dict.t (option loc))) : observation :=
  match o with
  | Done d s =>
      Returned (map (fun np =>
                  (fst np, match snd np with
                           | Some l => store s !! l
                           | None => None
                           end)) d)
  | Raised e _ => Failed e
  | OutOfFuel _ => Unfinished
  end.

(** The depth of recursion still ahead.  A provider that has not started
    computing its parts may yet start ([parts]) and then memoize each of
    its names ([_add_part]); a provider that has started may yet memoize
    the names of its local dict [pv] that are not in its memo [m]. *)
Definition cost (c : Component) : nat :=
  match _parts c with
  | None => 2 + length (provides c)
  | Some _ => 0
  end.

Fixpoint pending (cs : list Component) : nat :=
  match cs with
  | [] => 0
  | c :: cs' => cost c + pending cs'
  end.

Definition todo (pv : Dict.t loc) (m : Dict.t (option loc)) : nat :=
  length (List.filter (fun np => negb (Dict.mem (fst np) m)) pv).

(** The memo [m'] has every name of the memo [m]. *)
Definition memo_grows (m m' : Dict.t (option loc)) : Prop :=
  forall x, Dict.mem x m = true -> Dict.mem x m' = true.

(** How the providers change while the resolver runs: a provider keeps its
    name and its [provides] table, a memo only gains names, and the depth
    still ahead does not grow. *)
Definition comp_evolves (c c' : Component) : Prop :=
  cname c' = cname c /\ provides c' = provides c /\
  forall m, _parts c = Some m ->
    exists m', _parts c' = Some m' /\ memo_grows m m'.

Definition evolves (s s' : state) : Prop :=
  Forall2 comp_evolves (components s) (components s') /\
  pending (components s') <= pending (components s).

(** The run of [m] from [s] completes, and if it returns then [Q] holds
    of the value and the state. *)
Definition completes {A} (s : state) (m : M A) (Q : A -> state -> Prop)
  : Prop :=
  match m s with
  | Done a s' => Q a s'
  | Raised _ _ => True
  | OutOfFuel _ => False
  end.

(** Two runs correspond when they agree up to the position of the copies:
    the templates [T] are the first objects of both stores, the second
    store has the further objects [G] before the copies, and a copy at [l]
    in the first run is at [l + length G] in the second. *)
Section Correspondence.

Variables T G : list Part.

Definition copy_rel (l l' : loc) : Prop :=
  length T <= l /\ l' = l + length G.

Definition entry_rel {V} (R : V -> V -> Prop) (kv kv' : string * V) : Prop :=
  fst kv = fst kv' /\ R (snd kv) (snd kv').

Definition dict_rel {V} (R : V -> V -> Prop) : Dict.t V -> Dict.t V -> Prop :=
  Forall2 (entry_rel R).

Definition memo_rel : Dict.t (option loc) -> Dict.t (option loc) -> Prop :=
  dict_rel (option_Forall2 copy_rel).

(** The local variables [part] and [updated_deps] of the loop of
    [_add_part]. *)
Definition acc_rel (acc acc' : option loc * list string) : Prop :=
  option_Forall2 copy_rel (fst acc) (fst acc') /\ snd acc = snd acc'.

Definition comp_rel (c c' : Component) : Prop :=
  cname c = cname c' /\ version c = version c' /\
  provides c = provides c' /\ templates_below (length T) c /\
  option_Forall2 memo_rel (_parts c) (_parts c').

Definition state_rel (s s' : state) : Prop :=
  (exists X, store s = T ++ X /\ store s' = T ++ G ++ X) /\
  Forall2 comp_rel (components s) (components s').

Definition outcome_rel {A} (R : A -> A -> Prop) (o o' : outcome A) : Prop :=
  match o, o' with
  | Done a s, Done a' s' => R a a' /\ state_rel s s'
  | Raised e s, Raised e' s' => e = e' /\ state_rel s s'
  | OutOfFuel s, OutOfFuel s' => state_rel s s'
  | _, _ => False
  end.

Definition run_rel {A} (R : A -> A -> Prop) (m m' : M A) : Prop :=
  forall s s', state_rel s s' -> outcome_rel R (m s) (m' s').

End Correspondence.

End Session.

(** ** Scenarios *)

Module Scenario.

Import Parts Platforms Sysroot.

(** A part of class [Part] with the constructor's default arguments. *)
Definition part0 : Part :=
  mkPart KPythonModule None None None None "" None false [] [] false
    None None None None.

Definition with_deps (d : list string) (p : Part) : Part := set_deps d p.

Definition with_target (t : string) (p : Part) : Part :=
  mkPart (cls p) (_min_version p) (_version p) (_max_version p) (name p)
    t (min_android_api p) (internal p) (deps p) (hidden_deps p)
    (core p) (defines p) (libs p) (includepath p) (source p).

Definition up_to (n : Z) (p : Part) : Part :=
  mkPart (cls p) (_min_version p) (_version p)
    (Some (VersionNumber.OInt n)) (name p) (target p) (min_android_api p)
    (internal p) (deps p) (hidden_deps p) (core p) (defines p) (libs p)
    (includepath p) (source p).

Definition from (n : Z) (p : Part) : Part :=
  mkPart (cls p) (Some (VersionNumber.OInt n)) (_version p)
    (_max_version p) (name p) (target p) (min_android_api p)
    (internal p) (deps p) (hidden_deps p) (core p) (defines p) (libs p)
    (includepath p) (source p).

(** The variants [v <= 5, A] and [v > 5, B] of one name; the dependency
    tells them apart. *)
Definition variantA : Part := up_to 5 (with_deps ["a"] part0).
Definition variantB : Part := from 6 (with_deps ["b"] part0).

Definition variants_store : state := mkState [variantA; variantB] [].

(** A first variant for [win] only, followed by one for every target. *)
Definition coupled_store : state :=
  mkState [with_target "win" variantA; with_deps ["b"] part0] [].

Definition v1 : VersionNumber.t := VersionNumber.mk 1 0 0 "".

(** Provider A supplies [partX], which requires [B:partY] and optionally
    depends on [partZ] of B; provider B supplies [partY] for [linux]
    only.  [optional_dep] is the spelling of the optional dependency. *)
Definition session (optional_dep : string) : state :=
  mkState
    [ with_deps ["B:partY"; optional_dep] part0;
      with_target "linux" part0 ]
    [ mkComponent "A" v1 [("partX", Single 0)] None;
      mkComponent "B" v1 [("partY", Single 1)] None ].

(** One provider whose parts [a] and [b] require each other. *)
Definition cycle_session : state :=
  mkState
    [ with_deps ["b"] part0; with_deps ["a"] part0 ]
    [ mkComponent "P" v1 [("a", Single 0); ("b", Single 1)] None ].

Definition with_hidden_deps (d : list string) (p : Part) : Part :=
  set_hidden_deps d p.

(** The provider of the Python runtime supplies [X], whose only
    dependency is the hidden dependency [Big]; [Big] requires [D], which
    nothing else requires. *)
Definition hidden_session : state :=
  mkState
    [ with_hidden_deps ["Big"] part0; with_deps ["D"] part0; part0 ]
    [ mkComponent "Python" v1
        [("X", Single 0); ("Big", Single 1); ("D", Single 2)] None ].

(** The table a completed run returns, with the objects it refers to;
    [None] when the run raised or did not complete. *)
Definition resolved (o : outcome (Dict.t (option loc)))
  : option (list (string * option Part)) :=
  match o with
  | Done d s => Some (map (fun np =>
                  (fst np, match snd np with
                           | Some l => store s !! l
                           | None => None
                           end)) d)
  | _ => None
  end.

(** The names in the dict of required parts a completed build computes. *)
Definition required (o : outcome (Dict.t loc)) : option (list string) :=
  match o with
  | Done d _ => Some (Dict.keys d)
  | _ => None
  end.

End Scenario.


(** ** Python built-ins used by the parsers

    Characters are the code points below 256; the character classes are
    Python's for that range.  Integers are unbounded, and [int] and [str]
    convert any number of digits. *)

Module Py.

Local Open Scope N_scope.

(** [ch.isdigit()]: the decimal digits and the superscripts one, two and
    three. *)
Definition isdigit (ch : ascii) : bool :=
  let n := N_of_ascii ch in
  (48 <=? n) && (n <=? 57) || (n =? 178) || (n =? 179) || (n =? 185).

(** The characters [int()] reads as decimal digits. *)
Definition isdecimal (ch : ascii) : bool :=
  let n := N_of_ascii ch in (48 <=? n) && (n <=? 57).

(** The white space [int()] skips around a number. *)
Definition isspace (ch : ascii) : bool :=
  let n := N_of_ascii ch in
  (9 <=? n) && (n <=? 13) || (n =? 32) || (n =? 133) || (n =? 160).

Fixpoint lstrip (s : string) : string :=
  match s with
  | EmptyString => EmptyString
  | String ch s' => if isspace ch then lstrip s' else s
  end.

Fixpoint rstrip (s : string) : string :=
  match s with
  | EmptyString => EmptyString
  | String ch s' =>
      match rstrip s' with
      | EmptyString => if isspace ch then EmptyString else String ch EmptyString
      | r => String ch r
      end
  end.

Local Open Scope Z_scope.

(** The digits of a decimal literal: single underscores are allowed
    between digits. *)
Fixpoint digits (acc : Z) (after_digit : bool) (s : string) : option Z :=
  match s with
  | EmptyString => if after_digit then Some acc else None
  | String ch s' =>
      if isdecimal ch then
        digits (10 * acc + Z.of_N (N_of_ascii ch - 48)) true s'
      else if Ascii.eqb ch "_" then
        if after_digit then digits acc false s' else None
      else None
  end.

(** [int(s)] for a string [s]. *)
Definition int (s : string) : res Z :=
  let s := rstrip (lstrip s) in
  let sb :=
    if Str.startswith "-" s then (true, Str.tail s)
    else if Str.startswith "+" s then (false, Str.tail s)
    else (false, s) in
  match digits 0 false (snd sb) with
  | Some z => Ok (if fst sb then - z else z)
  | None => Raise ValueError
  end.

(** [str(n)] for an integer [n], which is also how [str.format] renders
    it. *)
Definition str (n : Z) : string :=
  DecimalString.NilZero.string_of_int (Z.to_int n).

(** [s.split(c, maxsplit=n)]. *)
Fixpoint split (c : ascii) (s : string) (n : nat) : list string :=
  match s with
  | EmptyString => [EmptyString]
  | String a s' =>
      match n with
      | O => [s]
      | S k =>
          if Ascii.eqb a c then EmptyString :: split c s' k
          else match split c s' n with
               | [] => [String a EmptyString]
               | f :: fs => String a f :: fs
               end
      end
  end.

(** Every character of [s] satisfies [f]. *)
Fixpoint all (f : ascii -> bool) (s : string) : bool :=
  match s with
  | EmptyString => true
  | String ch s' => f ch && all f s'
  end.

(** [s.startswith(t)]. *)
Fixpoint startswith (t s : string) : bool :=
  match t with
  | EmptyString => true
  | String a t' =>
      match s with
      | EmptyString => false
      | String b s' => Ascii.eqb a b && startswith t' s'
      end
  end.

(** [s.endswith(t)]. *)
Fixpoint endswith (t s : string) : bool :=
  String.eqb s t
  || match s with
     | EmptyString => false
     | String _ s' => endswith t s'
     end.

(** [s[:-n]] for [n > 0]. *)
Definition drop_last (n : nat) (s : string) : string :=
  String.substring 0 (String.length s - n) s.

End Py.

(** ** version_number.py: parsing and printing *)

Module VersionNumberIO.

Import VersionNumber.

Local Open Scope Z_scope.
Local Open Scope res_scope.

(** [VersionNumber.__str__]. *)
Definition __str__ (self : t) : string :=
  (Py.str (major self) ++ "." ++ Py.str (minor self) ++ "."
   ++ Py.str (patch self) ++ suffix self)%string.

(** The argument of [parse_version_number]: a [VersionNumber], a tuple
    of a major number optionally followed by a minor number, a patch
    number and a suffix, an encoded integer, or a string. *)
Inductive version_nr : Type :=
  | NVersion (v : t)
  | NTuple1 (major : Z)
  | NTuple2 (major minor : Z)
  | NTuple3 (major minor patch : Z)
  | NTuple4 (major minor patch : Z) (suffix : string)
  | NInt (n : Z)
  | NStr (s : string).

(** The leading integer part and the suffix of the last part. *)
Fixpoint int_part (last_part : string) : string :=
  match last_part with
  | EmptyString => EmptyString
  | String ch s =>
      if Py.isdigit ch then String ch (int_part s) else EmptyString
  end.

Fixpoint suffix_part (last_part : string) : string :=
  match last_part with
  | EmptyString => EmptyString
  | String ch s => if Py.isdigit ch then suffix_part s else last_part
  end.

(** [try: int(part) except ValueError: raise UserException(...)]. *)
Definition convert (part : string) : res Z :=
  match Py.int part with
  | Ok z => Ok z
  | Raise ValueError => Raise UserException
  | Raise e => Raise e
  end.

(** [version_parts.pop()]. *)
Definition pop (version_parts : list string)
  : res (string * list string) :=
  match version_parts with
  | [] => Raise IndexError
  | _ :: _ => Ok (List.last version_parts "", removelast version_parts)
  end.

(** [VersionNumber.parse_version_number]. *)
Definition parse_version_number (version_nr : version_nr) : res t :=
  match version_nr with
  | NVersion v => Ok v
  | NTuple1 M => Ok (mk M 0 0 "")
  | NTuple2 M m => Ok (mk M m 0 "")
  | NTuple3 M m p => Ok (mk M m p "")
  | NTuple4 M m p s => Ok (mk M m p s)
  | NInt n =>
      Ok (mk (Z.land (Z.shiftr n 16) 255) (Z.land (Z.shiftr n 8) 255)
            (Z.land n 255) "")
  | NStr s =>
      let* lp := pop (Py.split "." s 2) in
      let last_part := fst lp in
      let version_parts := snd lp in
      let* version_parts :=
        if negb (String.eqb (int_part last_part) "") then
          Ok (version_parts ++ [int_part last_part])
        else if Nat.eqb (length version_parts) 0 then Raise UserException
        else Ok version_parts in
      let version_parts :=
        version_parts ++ repeat "0"%string (3 - length version_parts) in
      match version_parts with
      | major :: minor :: patch :: _ =>
          let* major := convert major in
          let* minor := convert minor in
          let* patch := convert patch in
          Ok (mk major minor patch (suffix_part last_part))
      | _ => Raise IndexError
      end
  end.

(** The string begins with a digit. *)
Definition leading_digit (s : string) : bool :=
  match s with
  | EmptyString => false
  | String ch _ => Py.isdigit ch
  end.

(** The lexicographic comparison of two version numbers on all four
    components. *)
Definition compare (v w : t) : comparison :=
  compare_at_precision 4 v (major w) (minor w) (patch w) (suffix w).

End VersionNumberIO.

(** ** platforms.py: hosts *)

Module Hosts.

Import Platforms.

Local Open Scope res_scope.

(** [supported_target] of each architecture class: whether [self] can
    host [target], with the warnings given to the message handler. *)
Definition supported_target (self target : Architecture)
  : bool * list string :=
  match self with
  | Android_arm_32 | Android_arm_64 => (false, [])
  | iOS_arm_64 => (false, [])
  | Linux_x86_32 => (arch_is target self, [])
  | Linux_x86_64 =>
      if String.eqb (platform_name (arch_platform target)) "android"
      then (true, [])
      else (arch_is target self, [])
  | macOS_x86_64 =>
      if Str.mem (platform_name (arch_platform target)) ["android"; "ios"]
      then (true, [])
      else (arch_is target self, [])
  | Windows_x86_32 | Windows_x86_64 =>
      if String.eqb (platform_name (arch_platform target)) "android"
      then (true, ["using Windows to host Android deployment is untested"])
      else (arch_is target self, [])
  end.

(** [Architecture.verify_as_host]: the warnings, or the exception. *)
Definition verify_as_host (self target : Architecture)
  : res (list string) :=
  let r := supported_target self target in
  if fst r then Ok (snd r) else Raise UserException.

(** The environment variables [msvc_target] reads. *)
Record environ : Type := mkEnviron {
  VisualStudioVersion : option string;
  Platform : option string;
  VSCMD_ARG_TGT_ARCH : option string
}.

(** [os.environ.get(name) != value]. *)
Definition differs (v : option string) (value : string) : bool :=
  match v with
  | Some s => negb (String.eqb s value)
  | None => true
  end.

(** [WindowsArchitecture.msvc_target]. *)
Definition msvc_target (env : environ) (optional : bool)
  : res (option string) :=
  let vs_version :=
    match VisualStudioVersion env with
    | Some s => s
    | None => "0.0"
    end in
  let vs_major := nth 0 (Str.split "." vs_version) "" in
  let size (is_32 : bool) : string := if is_32 then "32" else "64" in
  if String.eqb vs_major "0" then
    if optional then Ok None else Raise UserException
  else if String.eqb vs_major "14" then
    Ok (Some (size (differs (Platform env) "X64")))
  else if Str.mem vs_major ["15"; "16"] then
    Ok (Some (size (differs (VSCMD_ARG_TGT_ARCH env) "x64")))
  else
    if optional then Ok None else Raise UserException.

(** The name [Architecture.architecture] computes for the host when it
    is called without a name; [get_platform] is the string returned by
    [distutils.util.get_platform()]. *)
Definition host_name (get_platform : string) (env : environ)
  : res string :=
  let parts := Str.split "-" get_platform in
  let base_platform := nth 0 parts "" in
  if String.eqb base_platform "linux" then
    match parts !! 1%nat with
    | Some machine =>
        Ok ("linux-"
            ++ if String.eqb machine "x86_64" then "64" else "32")%string
    | None => Raise IndexError
    end
  else if String.eqb base_platform "macosx" then
    match parts !! 2%nat with
    | Some machine =>
        Ok ("macos-"
            ++ if String.eqb machine "x86_64" then "64" else "32")%string
    | None => Raise IndexError
    end
  else if Str.mem base_platform ["win32"; "win"] then
    let* size := msvc_target env true in
    let size :=
      match size with
      | Some size => size
      | None =>
          if Nat.eqb (length parts) 2
             && String.eqb (nth 1 parts "") "amd64"
          then "64" else "32"
      end in
    Ok ("win-" ++ size)%string
  else Raise UserException.

(** [Architecture.architecture()] for the host. *)
Definition host_architecture (get_platform : string) (env : environ)
  : res Architecture :=
  let* name := host_name get_platform env in
  architecture name.

End Hosts.

(** ** parts.py: the names of parts *)

Module PartNames.

Import Parts.

(** [Part.get_component_name]. *)
Definition get_component_name (name : string) : res string :=
  match get_name_parts name with
  | component_name :: _ => Ok component_name
  | [] => Raise IndexError
  end.

(** The properties [component_name] and [unscoped_name] of a part. *)
Definition component_name (self : Part) : res string :=
  match Parts.name self with
  | Some n =>
      match Str.split1 ":" n with
      | c :: _ => Ok c
      | [] => Raise IndexError
      end
  | None => Raise AttributeError
  end.

Definition unscoped_name (self : Part) : res string :=
  match Parts.name self with
  | Some n => get_unscoped_name n
  | None => Raise AttributeError
  end.

End PartNames.

(** ** sysroot/abstract_component.py: the search path *)

Module SearchPath.

(** [AbstractComponent.add_to_path], for the value [environ] of
    [os.environ] at ['PATH']: the new value at ['PATH'] and the result of
    the call. *)
Definition add_to_path (pathsep : ascii) (name : string)
    (environ : option string) : res (string * string) :=
  match environ with
  | None => Raise KeyError
  | Some original_path =>
      let path := Str.split pathsep original_path in
      if negb (Str.mem name path) then
        Ok (Str.join (String pathsep EmptyString) (name :: path),
            original_path)
      else Ok (original_path, original_path)
  end.

End SearchPath.

(** ** Kinds of dependency *)

Module Deps.

Import Parts Sysroot.

(** A normalised dependency that [_add_part] never holds against the
    part: an optional one (['?']), or a negative one (['!']) when the
    sysroot has an OpenSSL component. *)
Definition never_blocks (openssl : option nat) (dep : string) : bool :=
  match get_name_parts dep with
  | [_; part_name] =>
      Str.startswith "?" part_name
      || Str.startswith "!" part_name && is_available openssl
  | _ => false
  end.

(** The memo of provider [i] in state [s] has [entry] at [name]. *)
Definition memo_at (s : state) (i : nat) (name : string)
    (entry : option loc) : Prop :=
  exists self memo,
    components s !! i = Some self /\ _parts self = Some memo /\
    Dict.get name memo = Some entry.

(** A run of [m] that returns from a state with the property [P]
    returns in a state with [P]. *)
Definition keeps {A} (P : state -> Prop) (m : M A) : Prop :=
  forall s a s', P s -> m s = Done a s' -> P s'.

(** The run [m], made only where the memo of provider [i] has [name] with
    the part [part]: anywhere else the call fails. *)
Definition expecting {A} (i : nat) (name : string) (part : loc) (m : M A)
  : M A :=
  fun s =>
    match components s !! i with
    | Some self =>
        match _parts self with
        | Some memo =>
            match Dict.get name memo with
            | Some (Some l) =>
                if Nat.eqb l part then m s else Raised KeyError s
            | _ => Raised KeyError s
            end
        | None => Raised KeyError s
        end
    | None => Raised KeyError s
    end.

(** A normalised dependency that is required of a part of the provider
    named [c]: a name [c:u] whose part name [u] has no marker. *)
Definition plain_local (c : string) (dep : string) : bool :=
  match get_name_parts dep with
  | [component_name; part_name] =>
      String.eqb c component_name
      && negb (Str.startswith "?" part_name)
      && negb (Str.startswith "!" part_name)
  | _ => false
  end.

(** The names [names] of parts of the provider named [c] are closed under
    dependency: each is in the local dict [pv] of the provider, and its
    part requires only parts of the same provider that are among [names].
    Nothing is asked of the order: the parts may require each other in
    any way. *)
Definition closed (st : list Part) (c : string) (pv : Dict.t loc)
    (names : list string) : bool :=
  forallb
    (fun n =>
       match Dict.get n pv with
       | Some l =>
           match st !! l with
           | Some p =>
               forallb (fun d => plain_local c d && Str.mem d names) (deps p)
           | None => false
           end
       | None => false
       end)
    names.

(** None of [names] is memoized as unavailable. *)
Definition none_unavailable (names : list string)
    (memo : Dict.t (option loc)) : bool :=
  forallb
    (fun n =>
       match Dict.get n memo with
       | Some None => false
       | _ => true
       end)
    names.

(** The memo [m'] is the memo [m] with, possibly, further names of
    [names], each with its own part of the local dict [pv]. *)
Definition gains (pv : Dict.t loc) (names : list string)
    (m m' : Dict.t (option loc)) : Prop :=
  forall x,
    Dict.get x m' = Dict.get x m \/
    (Dict.get x m = None /\ Str.mem x names = true /\
     exists l, Dict.get x pv = Some l /\ Dict.get x m' = Some (Some l)).

End Deps.

Module Scenario2.

Import Parts Platforms Sysroot Scenario.

(** Provider A while its parts are computed: the normalised copy of
    [partX] depends optionally on a part A does not provide and on a
    part of a provider B that does not provide it. *)
Definition optional_in_progress : state :=
  mkState
    [ with_deps ["?ghost"; "B:?partZ"] part0;
      set_name "A:partX" (with_deps ["A:?ghost"; "B:?partZ"] part0) ]
    [ mkComponent "A" v1 [("partX", Single 0)] (Some []);
      mkComponent "B" v1 [] None ].

(** The same with a required dependency on a part A does not provide. *)
Definition required_in_progress : state :=
  mkState
    [ with_deps ["B:?partZ"; "ghost"] part0;
      set_name "A:partX" (with_deps ["B:?partZ"; "A:ghost"] part0) ]
    [ mkComponent "A" v1 [("partX", Single 0)] (Some []);
      mkComponent "B" v1 [] None ].

(** One provider while its parts are computed.  Its parts [a] and [b]
    require each other, both require [c], and [c] requires [d]; nothing
    is memoized yet. *)
Definition cycle_and_others : state :=
  mkState
    [ set_name "P:a" (with_deps ["P:c"; "P:b"] part0);
      set_name "P:b" (with_deps ["P:a"; "P:c"] part0);
      set_name "P:c" (with_deps ["P:d"] part0);
      set_name "P:d" part0 ]
    [ mkComponent "P" v1
        [("a", Single 0); ("b", Single 1); ("c", Single 2); ("d", Single 3)]
        (Some []) ].

(** One provider whose parts [a] and [b] require each other, [a]
    requiring after [b] a part the provider does not provide. *)
Definition cycle_then_failure : state :=
  mkState
    [ with_deps ["b"; "ghost"] part0; with_deps ["a"] part0 ]
    [ mkComponent "P" v1 [("a", Single 0); ("b", Single 1)] None ].

(** The parts of a resolved sysroot: [X] requires [D], and [N] needs a
    newer Android API than any. *)
Definition resolved_store : state :=
  mkState
    [ set_name "Python:X" (with_deps ["Python:D"] part0);
      set_name "Python:D" part0;
      mkPart KPythonModule None None None (Some "Python:N") "" (Some 99%Z)
        false [] [] false None None None None ]
    [].

Definition resolved_parts : list (string * option nat) :=
  [("Python:X", Some 0); ("Python:D", Some 1); ("Python:N", Some 2);
   ("Python:U", None)].

End Scenario2.

(** ** builder/builder.py: the rest of the build *)

Module Build.

Import VersionNumber VersionNumberIO.

Local Open Scope res_scope.

(** How a build set [parts'] relates to the set [parts] it was computed
    from: the entries of [parts] are still there, and every other entry
    is an available part under its own name. *)
Definition grows (available_parts : Dict.t (option nat))
    (parts parts' : Dict.t nat) : Prop :=
  (forall k l, Dict.get k parts = Some l -> Dict.get k parts' = Some l) /\
  (forall k l, Dict.get k parts' = Some l ->
     Dict.get k parts = Some l \/
     Dict.get k available_parts = Some (Some l)).

(** The check of the script and the entry point in [Builder.build]. *)
Definition check_entry_point
    (application_script application_entry_point : string) : res unit :=
  if String.eqb application_script "" then
    if String.eqb application_entry_point "" then Raise UserException
    else if negb (Nat.eqb (length (Str.split ":" application_entry_point)) 2)
    then Raise UserException
    else Ok tt
  else if negb (String.eqb application_entry_point "") then
    Raise UserException
  else Ok tt.

(** The number of occurrences of a character. *)
Fixpoint count (c : ascii) (s : string) : nat :=
  match s with
  | EmptyString => 0
  | String a s' => (if Ascii.eqb a c then 1 else 0) + count c s'
  end.

(** [s[n:]]. *)
Fixpoint drop (n : nat) (s : string) : string :=
  match n, s with
  | O, _ => s
  | S _, EmptyString => EmptyString
  | S n', String _ s' => drop n' s'
  end.

(** [Builder._add_bundled_shared_libs].  The functions of [os.path] and
    the directories of the sysroot are parameters. *)
Section SharedLibs.

Variable isabs : string -> bool.
Variable join : string -> string -> string.
Variable realpath : string -> string.
Variable isfile : string -> bool.
Variables sysroot_dir target_lib_dir : string.

(** The first loop: the local variables [lib_dir] and [lib_so]. *)
Definition scan_value (acc : string * list string) (value : string)
  : string * list string :=
  if Py.startswith "-L" value then
    let lib_dir := drop 2 value in
    (if negb (isabs lib_dir) then join sysroot_dir lib_dir else lib_dir,
     snd acc)
  else if Py.startswith "-l" value then
    (fst acc, snd acc ++ [("lib" ++ drop 2 value ++ ".so")%string])
  else acc.

Definition scan (libs : list string) : string * list string :=
  fold_left scan_value libs (target_lib_dir, []).

(** The second loop. *)
Fixpoint bundle (lib_dir : string) (lib_so : list string)
    (bundled_shared_libs : gset string) : res (gset string) :=
  match lib_so with
  | [] => Ok bundled_shared_libs
  | lib :: rest =>
      let lib_path := realpath (join lib_dir lib) in
      if negb (isfile lib_path) then Raise UserException
      else bundle lib_dir rest (bundled_shared_libs ∪ {[ lib_path ]})
  end.

(** [libs] is the attribute [part.libs], which is [None] when the part
    has no libraries for the target.  The set is updated in place, so the
    model returns it; when the call raises, the set is not used again. *)
Definition _add_bundled_shared_libs (libs : option (list string))
    (bundled_shared_libs : gset string) : res (gset string) :=
  match libs with
  | None => Raise TypeError
  | Some libs =>
      let r := scan libs in
      if negb (String.eqb (fst r) "") then
        bundle (fst r) (snd r) bundled_shared_libs
      else Ok bundled_shared_libs
  end.

End SharedLibs.

(** The version a file of the bootstrap directory is for, in
    [Builder._freeze_bootstrap]. *)
Definition bootstrap_version (fn : string) : res t :=
  let version := List.last (Str.split "-" fn) "" in
  let version :=
    if Py.endswith ".py" version then Py.drop_last 3 version else version in
  parse_version_number (NStr version).

(** One round of the loop over the files: the local variables
    [bootstrap] and [bootstrap_version] are [best]. *)
Definition consider (python_version : t) (best : option (string * t))
    (fn : string) : res (option (string * t)) :=
  match bootstrap_version fn with
  | Raise UserException => Ok best
  | Raise e => Raise e
  | Ok version =>
      let* later := op_gt version (OVersion python_version) in
      if later : bool then Ok best else
      let* better :=
        match best with
        | None => Ok true
        | Some (_, bv) => op_lt bv (OVersion version)
        end in
      if better : bool then Ok (Some (fn, version)) else Ok best
  end.

(** The loop over [os.listdir(bootstrap_dir)]. *)
Fixpoint find_bootstrap (python_version : t) (files : list string)
    (best : option (string * t)) : res (option (string * t)) :=
  match files with
  | [] => Ok best
  | fn :: files' =>
      let* best := consider python_version best fn in
      find_bootstrap python_version files' best
  end.

End Build.

(** ** sysroot/sysroot.py: looking components up *)

Module Lookup.

Import Sysroot.

Local Open Scope res_scope.

(** [Sysroot.get_component(name, required)]. *)
Definition get_component (cs : list Component) (name : string)
    (required : bool) : res (option nat) :=
  match index_of name cs with
  | Some j => Ok (Some j)
  | None => if required then Raise UserException else Ok None
  end.

(** [Sysroot._components_from_names]. *)
Fixpoint _components_from_names (cs : list Component)
    (component_names : list string) : res (list nat) :=
  match component_names with
  | [] => Ok []
  | name :: names =>
      match index_of name cs with
      | Some j =>
          let* components := _components_from_names cs names in
          Ok (j :: components)
      | None => Raise UserException
      end
  end.

End Lookup.

(** ** sysroot/abstract_component.py: installing components *)

Module Install.

Inductive status : Type :=
  | _IS_NOT_INSTALLED
  | _IS_IN_PROGRESS
  | _IS_INSTALLED.

(** What [ensure_installed] reads of a component, and the status it
    assigns. *)
Record component : Type := mkComponent {
  name : string;
  version : VersionNumber.t;
  preinstalls : list string;
  _install_status : status
}.

(** The components of the sysroot, the dict [manifest] that is passed
    along, and the components whose [install()] has been called, in the
    order of the calls. *)
Record state : Type := mkState {
  components : list component;
  manifest : Dict.t VersionNumber.t;
  installs : list nat
}.

Inductive outcome : Type :=
  | Done (s : state)
  | Raised (e : exn) (s : state)
  | OutOfFuel.

Definition set_status (i : nat) (st : status) (s : state) : state :=
  match components s !! i with
  | Some c =>
      mkState
        (<[i := mkComponent (name c) (version c) (preinstalls c) st]>
           (components s))
        (manifest s) (installs s)
  | None => s
  end.

(** [Sysroot.get_component(name, required=False)]. *)
Fixpoint index_of (n : string) (cs : list component) : option nat :=
  match cs with
  | [] => None
  | c :: cs' =>
      if String.eqb (name c) n then Some 0
      else match index_of n cs' with
           | Some j => Some (S j)
           | None => None
           end
  end.

Section Installing.

(** Whether [install()] of the component with the given name raises. *)
Variable install_fails : string -> bool.

Variable all_components : bool.

(** The recursive call, left open. *)
Variable ensure : nat -> state -> outcome.

(** The loop over [self.preinstalls]. *)
Fixpoint preinstall (ps : list string) (s : state) : outcome :=
  match ps with
  | [] => Done s
  | p :: ps' =>
      match index_of p (components s) with
      | Some j =>
          match ensure j s with
          | Done s' => preinstall ps' s'
          | o => o
          end
      | None => preinstall ps' s
      end
  end.

(** The body of [AbstractComponent.ensure_installed] for component [i]. *)
Definition ensure_installed_body (i : nat) (s : state) : outcome :=
  match components s !! i with
  | None => Raised AttributeError s
  | Some self =>
      if Dict.mem (name self) (manifest s) then
        Done (set_status i _IS_INSTALLED s)
      else
        match _install_status self with
        | _IS_NOT_INSTALLED =>
            let s := set_status i _IS_IN_PROGRESS s in
            match (if all_components then preinstall (preinstalls self) s
                   else Done s) with
            | Done s =>
                if install_fails (name self) then Raised UserException s
                else
                  let s :=
                    mkState (components s) (manifest s)
                      (installs s ++ [i]) in
                  let s := set_status i _IS_INSTALLED s in
                  Done (mkState (components s)
                          (Dict.set (name self) (version self) (manifest s))
                          (installs s))
            | o => o
            end
        | _IS_IN_PROGRESS => Raised UserException s
        | _IS_INSTALLED => Done s
        end
  end.

End Installing.

(** [AbstractComponent.ensure_installed]; [fuel] bounds the depth of the
    recursion. *)
Fixpoint ensure_installed (install_fails : string -> bool)
    (all_components : bool) (fuel : nat) (i : nat) (s : state) : outcome :=
  match fuel with
  | O => OutOfFuel
  | S fuel' =>
      ensure_installed_body install_fails all_components
        (ensure_installed install_fails all_components fuel') i s
  end.

(** The loop of [Sysroot.install_components] over the components to
    install. *)
Fixpoint install_components (install_fails : string -> bool)
    (all_components : bool) (fuel : nat) (todo : list nat) (s : state)
  : outcome :=
  match todo with
  | [] => Done s
  | i :: todo' =>
      match ensure_installed install_fails all_components fuel i s with
      | Done s' =>
          install_components install_fails all_components fuel todo' s'
      | o => o
      end
  end.

(** No component is marked as installed without being in the manifest
    (as when all are [_IS_NOT_INSTALLED], the initial status). *)
Definition consistent (s : state) : Prop :=
  forall i c,
    components s !! i = Some c -> _install_status c = _IS_INSTALLED ->
    Dict.mem (name c) (manifest s) = true.

(** The calls of [install()] in [new] were made in a right order from
    state [s]: when a component was installed, each of its preinstalls
    that is a component of the sysroot was in the manifest of [s] or had
    been installed before. *)
Definition in_order (s : state) (new : list nat) : Prop :=
  forall before i after self p j,
    new = before ++ i :: after ->
    components s !! i = Some self ->
    In p (preinstalls self) ->
    index_of p (components s) = Some j ->
    Dict.mem p (manifest s) = true \/
    exists j' c',
      In j' before /\ components s !! j' = Some c' /\ name c' = p.

(** The number of components that are not installed and not being
    installed: the depth of recursion still ahead. *)
Definition not_installed (c : component) : bool :=
  match _install_status c with
  | _IS_NOT_INSTALLED => true
  | _ => false
  end.

Definition pending (s : state) : nat :=
  length (List.filter not_installed (components s)).

(** The run completes, and if it returns then [Q] holds of the state. *)
Definition completes (o : outcome) (Q : state -> Prop) : Prop :=
  match o with
  | Done s' => Q s'
  | Raised _ _ => True
  | OutOfFuel => False
  end.

(** [s'] has the components of [s], with some status. *)
Definition same_components (s s' : state) : Prop :=
  Forall2
    (fun c c' =>
       name c' = name c /\ version c' = version c /\
       preinstalls c' = preinstalls c)
    (components s) (components s').

(** How the state [s'] a call returns in relates to the state [s] it was
    made in: the manifest has gained the names of the components that
    were installed, and these were installed in a right order. *)
Definition follows (s s' : state) : Prop :=
  same_components s s' /\
  exists new,
    installs s' = installs s ++ new /\
    (forall k,
       Dict.mem k (manifest s') = true <->
       Dict.mem k (manifest s) = true \/
       exists j c, In j new /\ components s !! j = Some c /\ name c = k) /\
    in_order s new.

End Install.

Module Scenario3.

Import Install.

(** A sysroot with Python, Qt and zlib, and no OpenSSL: Python is
    installed after Qt, and Qt after OpenSSL and zlib. *)
Definition desktop : state :=
  mkState
    [ mkComponent "Python" (VersionNumber.mk 3 7 2 "") ["Qt"]
        _IS_NOT_INSTALLED;
      mkComponent "Qt" (VersionNumber.mk 5 12 2 "") ["OpenSSL"; "zlib"]
        _IS_NOT_INSTALLED;
      mkComponent "zlib" (VersionNumber.mk 1 2 11 "") []
        _IS_NOT_INSTALLED ]
    [] [].

(** Two components that are each to be installed before the other. *)
Definition circular : state :=
  mkState
    [ mkComponent "A" (VersionNumber.mk 1 0 0 "") ["B"] _IS_NOT_INSTALLED;
      mkComponent "B" (VersionNumber.mk 1 0 0 "") ["A"] _IS_NOT_INSTALLED ]
    [] [].

End Scenario3.

(** ** sysroot/specification.py: the components of a target *)

Module Specification.

Local Open Scope res_scope.
Local Open Scope Z_scope.

(** A value of the TOML specification file.  Only whether a float is
    zero is of interest here. *)
#[warnings="-register-all"]
Inductive toml : Type :=
  | TString (s : string)
  | TInteger (z : Z)
  | TFloat (is_zero : bool)
  | TBoolean (b : bool)
  | TDatetime
  | TArray (l : list toml)
  | TTable (d : list (string * toml)).

(** [x in l] for a string [x] and a list of values. *)
Definition mem (x : string) (l : list toml) : bool :=
  existsb (fun v => match v with
                    | TString s => String.eqb x s
                    | _ => false
                    end) l.

(** [target.is_targeted(v)] for a value of the specification. *)
Definition is_targeted (target : Platforms.Architecture) (v : toml)
  : res bool :=
  match v with
  | TString s => Platforms.is_targeted target (Platforms.TStr s)
  | TArray l =>
      match l with
      | [] => Ok true
      | _ :: _ =>
          Ok (mem (Platforms.platform_name (Platforms.arch_platform target))
                l)
      end
  | TTable d =>
      match d with
      | [] => Ok true
      | _ :: _ =>
          Ok (Dict.mem
                (Platforms.platform_name (Platforms.arch_platform target)) d)
      end
  | TInteger z => if z =? 0 then Ok true else Raise TypeError
  | TFloat is_zero => if is_zero then Ok true else Raise TypeError
  | TBoolean b => if b then Raise TypeError else Ok true
  | TDatetime => Raise TypeError
  end.

(** [del d[k]] for a key that is present. *)
Fixpoint del {V} (k : string) (d : Dict.t V) : Dict.t V :=
  match d with
  | [] => []
  | (k', v) :: d' => if String.eqb k' k then d' else (k', v) :: del k d'
  end.

(** The loop over the options of a component: the local variables
    [default_config] and [target_config]. *)
Fixpoint configs (target : Platforms.Architecture)
    (items : list (string * toml))
    (acc : Dict.t toml * option (Dict.t toml))
  : res (Dict.t toml * option (Dict.t toml)) :=
  match items with
  | [] => Ok acc
  | (config_name, config_value) :: items' =>
      let* acc :=
        match config_value with
        | TTable d =>
            let* covered :=
              Platforms.is_targeted target (Platforms.TStr config_name) in
            Ok (if covered : bool then (fst acc, Some d) else acc)
        | _ => Ok (Dict.set config_name config_value (fst acc), snd acc)
        end in
      configs target items' acc
  end.

(** One round of the loop of [create_components_for_target]: the
    configuration the plugin is called with, or [None] when the component
    is passed over, and the options of the component afterwards (the dict
    [value] is updated in place). *)
Definition component_for (target : Platforms.Architecture)
    (value : Dict.t toml)
  : res (option (Dict.t toml) * Dict.t toml) :=
  let* r :=
    match Dict.get "disabled_targets" value with
    | Some disabled_targets =>
        let* covered := is_targeted target disabled_targets in
        Ok (if covered : bool then None
            else Some (del "disabled_targets" value))
    | None => Ok (Some value)
    end in
  match r with
  | None => Ok (None, value)
  | Some value =>
      let* r :=
        match Dict.get "enabled_targets" value with
        | Some enabled_targets =>
            let* covered := is_targeted target enabled_targets in
            Ok (if negb covered then None
                else Some (del "enabled_targets" value))
        | None => Ok (Some value)
        end in
      match r with
      | None => Ok (None, value)
      | Some value =>
          let* c := configs target value ([], None) in
          Ok (Some match snd c with
                   | Some target_config => Dict.update (fst c) target_config
                   | None => fst c
                   end,
              value)
      end
  end.

(** [SysrootSpecification.create_components_for_target]: the names and
    configurations the plugins are called with, in order, and the
    specification afterwards. *)
Fixpoint create_components_for_target (target : Platforms.Architecture)
    (spec : Dict.t (Dict.t toml))
  : res (list (string * Dict.t toml) * Dict.t (Dict.t toml)) :=
  match spec with
  | [] => Ok ([], [])
  | (name, value) :: spec' =>
      let* r := component_for target value in
      let* rest := create_components_for_target target spec' in
      Ok (match fst r with
          | Some target_config => (name, target_config) :: fst rest
          | None => fst rest
          end,
          (name, snd r) :: snd rest)
  end.

(** The keys of a dict are distinct. *)
Fixpoint unique_keys {V} (d : Dict.t V) : bool :=
  match d with
  | [] => true
  | (k, _) :: d' => negb (Dict.mem k d') && unique_keys d'
  end.

(** No option of the component is a table. *)
Definition plain (value : Dict.t toml) : bool :=
  forallb (fun kv => match snd kv with TTable _ => false | _ => true end)
    value.

End Specification.

(** * Properties *)

(** ** Version numbers *)

Section VersionNumberFacts.

Import VersionNumber.
Local Open Scope Z_scope.

(** The three integer tests the methods use, read off [Z.compare]. *)
Lemma int_tests (a b : Z) :
  ((a =? b) = is_eq (a ?= b)) /\
  ((a <? b) = is_lt (a ?= b)) /\
  ((a >? b) = is_gt (a ?= b)).
Proof.
  unfold Z.ltb, Z.gtb. rewrite Z.eqb_compare.
  destruct (a ?= b); auto.
Qed.

Lemma str_compare_refl (a : string) : String.compare a a = Eq.
Proof.
  induction a as [|c a IH]; simpl; [reflexivity|].
  unfold Ascii.compare. rewrite N.compare_refl. exact IH.
Qed.

Lemma str_eqb_compare (a b : string) :
  String.eqb a b = is_eq (String.compare a b).
Proof.
  destruct (String.eqb_spec a b) as [->|Hne].
  - rewrite str_compare_refl. reflexivity.
  - destruct (String.compare a b) eqn:H; try reflexivity.
    apply String.compare_eq_iff in H. contradiction.
Qed.

Ltac int_cases a b :=
  let H1 := fresh in let H2 := fresh in let H3 := fresh in
  destruct (int_tests a b) as (H1 & H2 & H3);
  rewrite ?H1, ?H2, ?H3; clear H1 H2 H3;
  destruct (a ?= b); simpl.

(** All five operators against a tuple of [k] elements. *)
Lemma operators_at_precision (v : t) (M m p : Z) (s : string) (k : nat) :
  (1 <= k <= 4)%nat ->
  let rhs := OTuple (tuple_of k M m p s) in
  let c := compare_at_precision k v M m p s in
  op_eq v rhs = Ok (is_eq c) /\
  op_lt v rhs = Ok (is_lt c) /\
  op_le v rhs = Ok (is_le c) /\
  op_gt v rhs = Ok (is_gt c) /\
  op_ge v rhs = Ok (is_ge c).
Proof.
  intros Hk.
  assert (Hcases : k = 1%nat \/ k = 2%nat \/ k = 3%nat \/ k = 4%nat) by lia.
  destruct Hcases as [->|[->|[->| ->]]];
    cbv [tuple_of firstn compare_at_precision Nat.leb op_eq op_lt op_le
         op_gt op_ge ordering __eq__ __lt__ __le__ __gt__ __ge__ strict
         inclusive _resolve_other length Nat.ltb orb nth lookup
         list_lookup rbind int_ne int_lt int_gt str_eq str_cmp];
    repeat split;
    int_cases (major v) M; try reflexivity;
    int_cases (minor v) m; try reflexivity;
    int_cases (patch v) p; try reflexivity;
    rewrite ?str_eqb_compare; reflexivity.
Qed.

End VersionNumberFacts.

(** Claim C7.  Against a tuple of [k] elements ([1 <= k <= 4]) the
    operators [==], [<], [<=], [>] and [>=] never raise and compare the
    first [k] of the components major, minor, patch, suffix
    lexicographically: the components below the precision count as equal,
    and the suffix is looked at only when [k = 4].  In particular
    [v == (M, m)] holds exactly when [v.major == M] and [v.minor == m],
    whatever [v.patch] and [v.suffix] are. *)
Theorem comparison_respects_precision
    (v : VersionNumber.t) (M m p : Z) (s : string) (k : nat) :
  (1 <= k <= 4)%nat ->
  let rhs := VersionNumber.OTuple (VersionNumber.tuple_of k M m p s) in
  let c := VersionNumber.compare_at_precision k v M m p s in
  (VersionNumber.op_eq v rhs = Ok (VersionNumber.is_eq c) /\
   VersionNumber.op_lt v rhs = Ok (VersionNumber.is_lt c) /\
   VersionNumber.op_le v rhs = Ok (VersionNumber.is_le c) /\
   VersionNumber.op_gt v rhs = Ok (VersionNumber.is_gt c) /\
   VersionNumber.op_ge v rhs = Ok (VersionNumber.is_ge c)) /\
  (VersionNumber.op_eq v
     (VersionNumber.OTuple [VersionNumber.EInt M; VersionNumber.EInt m])
   = Ok true
   <-> VersionNumber.major v = M /\ VersionNumber.minor v = m).
Proof.
  intros Hk rhs c. split.
  - exact (operators_at_precision v M m p s k Hk).
  - destruct (operators_at_precision v M m p s 2) as [Heq _]; [lia|].
    change (VersionNumber.tuple_of 2 M m p s)
      with [VersionNumber.EInt M; VersionNumber.EInt m] in Heq.
    rewrite Heq. clear Heq.
    cbv [VersionNumber.compare_at_precision Nat.leb VersionNumber.lex].
    split.
    + intros H.
      destruct (VersionNumber.major v ?= M)%Z eqn:H1; try discriminate H.
      destruct (VersionNumber.minor v ?= m)%Z eqn:H2; try discriminate H.
      split; apply Z.compare_eq_iff; assumption.
    + intros [-> ->]. rewrite !Z.compare_refl. reflexivity.
Qed.

Lemma comparison_respects_precision_witness :
  VersionNumber.op_ge (VersionNumber.mk 3 7 2 "rc1")
    (VersionNumber.OTuple [VersionNumber.EInt 3; VersionNumber.EInt 7])
  = Ok true.
Proof.
  exact (proj2 (proj2 (proj2 (proj2 (proj1
    (comparison_respects_precision (VersionNumber.mk 3 7 2 "rc1")
       3 7 0 "" 2 ltac:(lia))))))).
Defined.

(** ** Parts *)

(** Claim C10.  When a part template gives an exact version, [applies_to]
    is the partial-precision equality of the given version with it, whatever
    the [min_version] and [max_version] of the same template are; when it
    gives no exact version and no bounds, [applies_to] is [True] for every
    version. *)
Theorem applies_to_exact_version
    (c : Parts.kind) (lo hi : option VersionNumber.other)
    (n : option string) (t : string) (api : option Z) (i : bool)
    (d h : list string) (co : bool) (de li inc so : option (list string))
    (v : VersionNumber.t) :
  (forall ver,
     Parts.applies_to
       (Parts.mkPart c lo (Some ver) hi n t api i d h co de li inc so) v
     = VersionNumber.op_eq v ver) /\
  (forall k M m p s, (1 <= k <= 4)%nat ->
     Parts.applies_to
       (Parts.mkPart c lo
          (Some (VersionNumber.OTuple (VersionNumber.tuple_of k M m p s)))
          hi n t api i d h co de li inc so) v
     = Ok (VersionNumber.is_eq
             (VersionNumber.compare_at_precision k v M m p s))) /\
  Parts.applies_to
    (Parts.mkPart c None None None n t api i d h co de li inc so) v
  = Ok true.
Proof.
  split; [|split].
  - intros ver. reflexivity.
  - intros k M m p s Hk. unfold Parts.applies_to. simpl.
    exact (proj1 (operators_at_precision v M m p s k Hk)).
  - reflexivity.
Qed.

Lemma applies_to_exact_version_witness :
  Parts.applies_to
    (Parts.mkPart Parts.KPythonModule (Some (VersionNumber.OInt 9))
       (Some (VersionNumber.OTuple [VersionNumber.EInt 3;
                                    VersionNumber.EInt 7]))
       (Some (VersionNumber.OInt 1)) None "" None false [] [] false
       None None None None)
    (VersionNumber.mk 3 7 2 "")
  = Ok true.
Proof.
  exact (proj1 (proj2
    (applies_to_exact_version Parts.KPythonModule
       (Some (VersionNumber.OInt 9)) (Some (VersionNumber.OInt 1))
       None "" None false [] [] false None None None None
       (VersionNumber.mk 3 7 2 "")))
    2%nat 3%Z 7%Z 0%Z "" ltac:(lia)).
Defined.

(** ** Target predicates *)

Section TargetFacts.

Import Platforms.

Lemma split_without_separator (c : ascii) (s : string) :
  Str.contains c s = false -> Str.split c s = [s].
Proof.
  induction s as [|a s IH]; simpl; [reflexivity|].
  destruct (Ascii.eqb a c); [discriminate|].
  intros H. rewrite (IH H). reflexivity.
Qed.

Lemma split_nonempty (c : ascii) (s : string) : Str.split c s <> [].
Proof.
  destruct s as [|a s]; simpl; [discriminate|].
  destruct (Ascii.eqb a c); [discriminate|].
  destruct (Str.split c s); discriminate.
Qed.

Lemma split_with_separator (c : ascii) (s : string) :
  Str.contains c s = true -> 2 <= length (Str.split c s).
Proof.
  induction s as [|a s IH]; simpl; [discriminate|].
  destruct (Ascii.eqb a c).
  - intros _. pose proof (split_nonempty c s).
    destruct (Str.split c s); [contradiction|simpl; lia].
  - intros H. specialize (IH H).
    destruct (Str.split c s); simpl in *; lia.
Qed.

(** A string with a ['|'] is handed to the branch for sequences of
    platform names. *)
Lemma is_targeted_list (a : Architecture) (s : string) :
  Str.contains "|" s = true ->
  is_targeted a (TStr s)
  = Ok (Str.mem (platform_name (arch_platform a)) (Str.split "|" s)).
Proof.
  intros H. unfold is_targeted.
  assert (Hs : truthy (TStr s) = true).
  { destruct s; [discriminate H|reflexivity]. }
  rewrite Hs.
  pose proof (split_with_separator _ _ H) as Hlen.
  destruct (Nat.eqb_spec (length (Str.split "|" s)) 1) as [E|_]; [lia|].
  reflexivity.
Qed.

(** A string without ['|'] is evaluated as a single name. *)
Lemma is_targeted_single (a : Architecture) (s : string) :
  Str.contains "|" s = false -> s <> "" ->
  is_targeted a (TStr s)
  = if Str.startswith "!" s then
      rbind (platform (Str.tail s)) (fun p =>
        Ok (negb (platform_is (arch_platform a) p)))
    else if Str.contains "-" s then
      rbind (architecture s) (fun b => Ok (arch_is a b))
    else
      rbind (platform s) (fun p => Ok (platform_is (arch_platform a) p)).
Proof.
  intros H Hne. unfold is_targeted.
  assert (Hs : truthy (TStr s) = true).
  { simpl. destruct (String.eqb_spec s ""); [contradiction|reflexivity]. }
  rewrite Hs, (split_without_separator _ _ H). reflexivity.
Qed.

Lemma platform_unknown (n : string) :
  ~ In n (map platform_name all_platforms) ->
  platform n = Raise UserException.
Proof.
  intros H. unfold platform, all_platforms in *.
  cbn [map In platform_name] in H. cbn [find platform_name].
  repeat match goal with
  | |- context [String.eqb ?x n] =>
      destruct (String.eqb_spec x n); [exfalso; tauto|]
  end.
  reflexivity.
Qed.

Lemma architecture_unknown (n : string) :
  ~ In n (map arch_name all_architectures) ->
  ~ In n (map platform_name all_platforms) ->
  architecture n = Raise UserException.
Proof.
  intros H1 H2. unfold architecture, all_architectures, all_platforms in *.
  cbn [map In platform_name arch_name] in H1, H2.
  cbn [find platform_name arch_name arch_platform].
  repeat match goal with
  | |- context [String.eqb ?x n] =>
      destruct (String.eqb_spec x n); [exfalso; tauto|]
  end.
  cbn [orb].
  reflexivity.
Qed.

(** The three single-name forms reject an unknown name. *)
Lemma single_name_validated (a : Architecture) (s : string) :
  Str.contains "|" s = false -> s <> "" ->
  ~ In (if Str.startswith "!" s then Str.tail s else s)
      (map platform_name all_platforms) ->
  ~ In s (map arch_name all_architectures) ->
  is_targeted a (TStr s) = Raise UserException.
Proof.
  intros H Hne Hp Ha. rewrite (is_targeted_single a s H Hne).
  destruct (Str.startswith "!" s).
  - rewrite (platform_unknown _ Hp). reflexivity.
  - destruct (Str.contains "-" s).
    + rewrite (architecture_unknown _ Ha Hp). reflexivity.
    + rewrite (platform_unknown _ Hp). reflexivity.
Qed.

End TargetFacts.

(** Claim C3 at its failing input.  A single architecture name covers
    exactly that architecture, as the docstring of [is_targeted] says of
    a string of architecture or platform names.  As a member of a
    ['|']-separated list the same name is never compared: the list is
    handed to the branch for sequences of platform names, so the exact
    architecture name next to the name of any platform [p] covers the
    architecture only when [p] is its platform.  [linux-64|macos] does not
    cover [linux-64], which the rule of the claim (the platform name or
    the exact architecture name appears in the list) says it does. *)
Theorem architecture_name_in_list_not_matched :
  (forall a : Platforms.Architecture,
     Platforms.is_targeted a (Platforms.TStr (Platforms.arch_name a))
     = Ok true) /\
  (forall (a : Platforms.Architecture) (p : Platforms.Platform),
     Platforms.is_targeted a
       (Platforms.TStr
          (Platforms.arch_name a ++ "|" ++ Platforms.platform_name p))
     = Ok (Platforms.platform_is (Platforms.arch_platform a) p) /\
     Platforms.is_targeted a
       (Platforms.TStr
          (Platforms.platform_name p ++ "|" ++ Platforms.arch_name a))
     = Ok (Platforms.platform_is (Platforms.arch_platform a) p)) /\
  Platforms.is_targeted Platforms.Linux_x86_64
    (Platforms.TStr "linux-64|macos") = Ok false /\
  Str.mem (Platforms.arch_name Platforms.Linux_x86_64)
    (Str.split "|" "linux-64|macos") = true /\
  ~ (forall (a : Platforms.Architecture) (s : string),
       Str.contains "|" s = true ->
       (Platforms.is_targeted a (Platforms.TStr s) = Ok true <->
        Str.mem (Platforms.platform_name (Platforms.arch_platform a))
          (Str.split "|" s)
        || Str.mem (Platforms.arch_name a) (Str.split "|" s) = true)).
Proof.
  split; [intros []; reflexivity|].
  split; [intros [] []; split; reflexivity|].
  split; [reflexivity|]. split; [reflexivity|].
  intros H.
  destruct (H Platforms.Linux_x86_64 "linux-64|macos" eq_refl) as [_ H2].
  specialize (H2 eq_refl). discriminate H2.
Qed.

(** Claim C8 at its failing input.  The unknown name [bogus] is rejected
    as a bare name, after ['!'] and (as [bogus-64]) as an architecture
    name, but as a member of a ['|']-separated list it is accepted
    silently: the predicate evaluates to covered or not covered according
    to the other members. *)
Theorem unknown_name_in_list_not_rejected :
  Platforms.is_targeted Platforms.Linux_x86_64 (Platforms.TStr "bogus")
    = Raise UserException /\
  Platforms.is_targeted Platforms.Linux_x86_64 (Platforms.TStr "!bogus")
    = Raise UserException /\
  Platforms.is_targeted Platforms.Linux_x86_64 (Platforms.TStr "bogus-64")
    = Raise UserException /\
  Platforms.is_targeted Platforms.Linux_x86_64 (Platforms.TStr "bogus|win")
    = Ok false /\
  Platforms.is_targeted Platforms.Linux_x86_64 (Platforms.TStr "bogus|linux")
    = Ok true.
Proof. repeat split. Qed.

(** ** Variant selection *)

Section SelectionFacts.

Import Parts Platforms Sysroot.

Variable target : Architecture.

Lemma write_done (c : loc) (f : Part -> Part) (s : state) (p : Part) :
  store s !! c = Some p ->
  write c f s = Done tt (mkState (<[c := f p]> (store s)) (components s)).
Proof. intros H. unfold write. rewrite H. reflexivity. Qed.

Lemma read_done (c : loc) (s : state) (p : Part) :
  store s !! c = Some p -> read c s = Done p s.
Proof. intros H. unfold read. rewrite H. reflexivity. Qed.

Lemma read_after_write (c : loc) (st : list Part) (cs : list Component)
    (p q : Part) :
  st !! c = Some p ->
  read c (mkState (<[c := q]> st) cs) = Done q (mkState (<[c := q]> st) cs).
Proof.
  intros H. apply read_done. simpl.
  apply list_lookup_insert_eq. eapply lookup_lt_Some; eauto.
Qed.

Lemma write_after_write (c : loc) (f : Part -> Part) (st : list Part)
    (cs : list Component) (p q : Part) :
  st !! c = Some p ->
  write c f (mkState (<[c := q]> st) cs)
  = Done tt (mkState (<[c := f q]> st) cs).
Proof.
  intros H. erewrite write_done.
  - simpl. rewrite list_insert_insert_eq. reflexivity.
  - simpl. apply list_lookup_insert_eq. eapply lookup_lt_Some; eauto.
Qed.

(** The stepwise normalisation of the copy computes [normalised]. *)
Lemma normalise_copy_done (self_name unscoped_name : string) (c : loc)
    (s : state) (p p' : Part) :
  store s !! c = Some p ->
  normalised target self_name unscoped_name p = Ok p' ->
  normalise_copy target self_name unscoped_name c s
  = Done tt (mkState (<[c := p']> (store s)) (components s)).
Proof.
  intros Hc Hn. unfold normalise_copy, normalised in *.
  destruct s as [st cs]. simpl in Hc.
  unfold bind at 1. erewrite write_done by eassumption. simpl store.
  simpl components.
  unfold bind at 1. erewrite read_after_write by eassumption.
  set (p1 := set_name _ p) in *.
  destruct (_normalised_deps target self_name (deps p1)) as [d|e];
    [|cbn [rbind] in Hn; discriminate Hn].
  cbn [rbind] in Hn. unfold bind at 1. simpl lift. unfold ret at 1.
  unfold bind at 1. erewrite write_after_write by eassumption.
  unfold bind at 1. erewrite read_after_write by eassumption.
  set (p2 := set_deps d p1) in *.
  destruct (_normalised_deps target self_name (hidden_deps p2)) as [h|e];
    [|cbn [rbind] in Hn; discriminate Hn].
  cbn [rbind] in Hn. unfold bind at 1. simpl lift. unfold ret at 1.
  unfold bind at 1. erewrite write_after_write by eassumption.
  unfold bind at 1. erewrite read_after_write by eassumption.
  set (p3 := set_hidden_deps h p2) in *.
  unfold bind at 1.
  destruct (is_CompiledPart (cls p3)).
  - destruct (_normalised_values target (defines p3)) as [v1|e];
      [|cbn [rbind] in Hn; discriminate Hn].
    cbn [rbind] in Hn. unfold bind at 1. simpl lift. unfold ret at 1.
    unfold bind at 1. erewrite write_after_write by eassumption.
    unfold bind at 1. erewrite read_after_write by eassumption.
    set (p4 := set_defines v1 p3) in *.
    destruct (_normalised_values target (includepath p4)) as [v2|e];
      [|cbn [rbind] in Hn; discriminate Hn].
    cbn [rbind] in Hn. unfold bind at 1. simpl lift. unfold ret at 1.
    unfold bind at 1. erewrite write_after_write by eassumption.
    unfold bind at 1. erewrite read_after_write by eassumption.
    set (p5 := set_includepath v2 p4) in *.
    destruct (_normalised_values target (libs p5)) as [v3|e];
      [|cbn [rbind] in Hn; discriminate Hn].
    cbn [rbind] in Hn. unfold bind at 1. simpl lift. unfold ret at 1.
    erewrite write_after_write by eassumption.
    unfold bind at 1. erewrite read_after_write by eassumption.
    set (p6 := set_libs v3 p5) in *.
    destruct (is_ExtensionModule (cls p6)).
    + destruct (_normalised_values target (source p6)) as [v4|e];
        [|cbn [rbind] in Hn; discriminate Hn].
      cbn [rbind] in Hn. injection Hn as <-.
      unfold bind at 1. simpl lift. unfold ret at 1.
      erewrite write_after_write by eassumption. reflexivity.
    + injection Hn as <-. reflexivity.
  - cbn [rbind] in Hn. unfold ret at 1.
    unfold bind at 1. erewrite read_after_write by eassumption.
    destruct (is_ExtensionModule (cls p3)).
    + destruct (_normalised_values target (source p3)) as [v4|e];
        [|cbn [rbind] in Hn; discriminate Hn].
      cbn [rbind] in Hn. injection Hn as <-.
      unfold bind at 1. simpl lift. unfold ret at 1.
      erewrite write_after_write by eassumption. reflexivity.
    + injection Hn as <-. reflexivity.
Qed.

End SelectionFacts.

Section VariantFacts.

Import Parts Platforms Sysroot.

Variable target : Architecture.
Variables self_name unscoped_name : string.
Variable ver : VersionNumber.t.

(** Variants that do not apply are passed over. *)
Lemma select_skips (s : state) (pre rest : list loc) :
  Forall (rejects s ver) pre ->
  select target self_name ver unscoped_name (pre ++ rest) s
  = select target self_name ver unscoped_name rest s.
Proof.
  induction 1 as [|l pre (p & Hl & Hp) _ IH]; [reflexivity|].
  simpl. unfold bind at 1. rewrite (read_done _ _ _ Hl).
  unfold bind at 1. rewrite Hp. simpl. exact IH.
Qed.

(** The first variant that applies decides the result. *)
Lemma select_first (s : state) (l : loc) (post : list loc) (p : Part) :
  store s !! l = Some p ->
  applies_to p ver = Ok true ->
  select target self_name ver unscoped_name (l :: post) s
  = match targeted target p with
    | Ok true =>
        bind (deepcopy l) (fun c =>
          bind (normalise_copy target self_name unscoped_name c)
            (fun _ => ret (Some c))) s
    | Ok false => Done None s
    | Raise e => Raised e s
    end.
Proof.
  intros Hl Hp. simpl. unfold bind at 1. rewrite (read_done _ _ _ Hl).
  unfold bind at 1. rewrite Hp. simpl. unfold bind at 1.
  destruct (targeted target p) as [[|]|e]; reflexivity.
Qed.

Lemma copy_normalised (s : state) (l : loc) (p p' : Part) :
  store s !! l = Some p ->
  normalised target self_name unscoped_name p = Ok p' ->
  bind (deepcopy l) (fun c =>
    bind (normalise_copy target self_name unscoped_name c)
      (fun _ => ret (Some c))) s
  = Done (Some (length (store s)))
      (mkState (store s ++ [p']) (components s)).
Proof.
  intros Hl Hn. unfold bind at 1, deepcopy. rewrite Hl.
  unfold bind at 1.
  rewrite (normalise_copy_done target self_name unscoped_name
             (length (store s))
             (mkState (store s ++ [p]) (components s)) p p');
    [|simpl; apply list_lookup_middle; reflexivity|assumption].
  simpl. unfold ret. f_equal. f_equal.
  replace (length (store s)) with (length (store s) + 0) by lia.
  rewrite insert_app_r. reflexivity.
Qed.

End VariantFacts.

(** Claim C5.  For a tuple of variants, [_normalised_part] returns a
    normalised copy of the first variant, in the declared order, whose
    version range accepts the version of the provider (provided that
    variant is for the current target); with the variants [v <= 5, A] and
    [v > 5, B] it selects A at version 5 and B at version 6; when no
    variant accepts the version the result is [None]. *)
Theorem first_matching_variant_selected
    (target : Platforms.Architecture) (self_name unscoped_name : string)
    (ver : VersionNumber.t) (s : Sysroot.state) :
  (forall pre l post p p',
     Forall (Sysroot.rejects s ver) pre ->
     Sysroot.store s !! l = Some p ->
     Parts.applies_to p ver = Ok true ->
     Sysroot.targeted target p = Ok true ->
     Sysroot.normalised target self_name unscoped_name p = Ok p' ->
     Sysroot._normalised_part target self_name ver unscoped_name
       (Sysroot.Variants (pre ++ l :: post)) s
     = Sysroot.Done (Some (length (Sysroot.store s)))
         (Sysroot.mkState (Sysroot.store s ++ [p'])
            (Sysroot.components s))) /\
  (forall vs,
     Forall (Sysroot.rejects s ver) vs ->
     Sysroot._normalised_part target self_name ver unscoped_name
       (Sysroot.Variants vs) s
     = Sysroot.Done None s) /\
  (forall mi pa su,
     Sysroot._normalised_part target "P" (VersionNumber.mk 5 mi pa su) "m"
       (Sysroot.Variants [0; 1]) Scenario.variants_store
     = Sysroot.Done (Some 2)
         (Sysroot.mkState
            [Scenario.variantA; Scenario.variantB;
             Parts.set_name "P:m" (Parts.set_deps ["P:a"] Scenario.variantA)]
            []) /\
     Sysroot._normalised_part target "P" (VersionNumber.mk 6 mi pa su) "m"
       (Sysroot.Variants [0; 1]) Scenario.variants_store
     = Sysroot.Done (Some 2)
         (Sysroot.mkState
            [Scenario.variantA; Scenario.variantB;
             Parts.set_name "P:m" (Parts.set_deps ["P:b"] Scenario.variantB)]
            [])).
Proof.
  split; [|split].
  - intros pre l post p p' Hpre Hl Hp Ht Hn. unfold Sysroot._normalised_part.
    rewrite select_skips by assumption.
    rewrite (select_first _ _ _ _ _ _ _ _ Hl Hp), Ht.
    eapply copy_normalised; eassumption.
  - intros vs Hvs. unfold Sysroot._normalised_part.
    rewrite <- (app_nil_r vs). rewrite select_skips by assumption.
    reflexivity.
  - intros mi pa su. split; reflexivity.
Qed.

Lemma first_matching_variant_selected_witness :
  Sysroot._normalised_part Platforms.Linux_x86_64 "P"
    (VersionNumber.mk 6 0 0 "") "m" (Sysroot.Variants ([0] ++ 1 :: []))
    Scenario.variants_store
  = Sysroot.Done (Some 2)
      (Sysroot.mkState
         (Sysroot.store Scenario.variants_store
          ++ [Parts.set_name "P:m" (Parts.set_deps ["P:b"] Scenario.variantB)])
         (Sysroot.components Scenario.variants_store)).
Proof.
  apply (proj1 (first_matching_variant_selected Platforms.Linux_x86_64
                  "P" "m" (VersionNumber.mk 6 0 0 "")
                  Scenario.variants_store)
           [0] 1 [] Scenario.variantB).
  - constructor; [|constructor]. exists Scenario.variantA. split; reflexivity.
  - reflexivity.
  - reflexivity.
  - reflexivity.
  - reflexivity.
Defined.

(** Claim C6.  When the first variant whose version range accepts the
    version of the provider has a target predicate that does not cover the
    current target, the part is unavailable ([None]): the later variants
    are not tried, whatever they are. *)
Theorem uncovered_variant_is_final
    (target : Platforms.Architecture) (self_name unscoped_name : string)
    (ver : VersionNumber.t) (s : Sysroot.state)
    (pre : list Sysroot.loc) (l : Sysroot.loc) (post : list Sysroot.loc)
    (p : Parts.Part) :
  Forall (Sysroot.rejects s ver) pre ->
  Sysroot.store s !! l = Some p ->
  Parts.applies_to p ver = Ok true ->
  Parts.target p <> "" ->
  Platforms.is_targeted target (Platforms.TStr (Parts.target p)) = Ok false ->
  Sysroot._normalised_part target self_name ver unscoped_name
    (Sysroot.Variants (pre ++ l :: post)) s
  = Sysroot.Done None s.
Proof.
  intros Hpre Hl Hp Hne Ht. unfold Sysroot._normalised_part.
  rewrite select_skips by assumption.
  rewrite (select_first _ _ _ _ _ _ _ _ Hl Hp).
  unfold Sysroot.targeted.
  destruct (String.eqb_spec (Parts.target p) ""); [contradiction|].
  rewrite Ht. reflexivity.
Qed.

Lemma uncovered_variant_is_final_witness :
  Sysroot._normalised_part Platforms.Linux_x86_64 "P"
    (VersionNumber.mk 5 0 0 "") "m" (Sysroot.Variants ([] ++ 0 :: [1]))
    Scenario.coupled_store
  = Sysroot.Done None Scenario.coupled_store.
Proof.
  apply (uncovered_variant_is_final Platforms.Linux_x86_64 "P" "m"
           (VersionNumber.mk 5 0 0 "") Scenario.coupled_store
           [] 0 [1] (Scenario.with_target "win" Scenario.variantA)).
  - constructor.
  - reflexivity.
  - reflexivity.
  - discriminate.
  - reflexivity.
Defined.

(** ** Scenarios *)

(** Every run below needs only a bounded depth of recursion: a budget
    [fuel >= n] is written [n + k]. *)
Ltac with_fuel fuel n :=
  let k := fresh "k" in
  let E := fresh "E" in
  assert (exists k, fuel = n + k) as [k E] by (exists (fuel - n); lia);
  rewrite E; clear E.

(** Claim C1, as the code has it.  Provider A supplies [partX], which
    requires [B:partY] and optionally depends on B's [partZ], the optional
    dependency being written [B:?partZ] (the marker prefixes the unscoped
    name, after the provider scope); provider B supplies [partY] for
    [linux] only and no [partZ].  For a [win] target the resolution of A
    completes without [partX]; for a [linux] target it completes with
    [partX] available, its dependency list being exactly [B:partY], and no
    error is raised. *)
Theorem optional_dependency_scenario
    (fuel : nat) (target : Platforms.Architecture) :
  4 <= fuel ->
  (Platforms.arch_platform target = Platforms.Windows ->
   Scenario.resolved
     (Sysroot.parts target fuel 0 (Scenario.session "B:?partZ"))
   = Some []) /\
  (Platforms.arch_platform target = Platforms.Linux ->
   Scenario.resolved
     (Sysroot.parts target fuel 0 (Scenario.session "B:?partZ"))
   = Some [("A:partX",
            Some (Parts.set_name "A:partX"
                    (Scenario.with_deps ["B:partY"] Scenario.part0)))]).
Proof.
  intros Hfuel. with_fuel fuel 4.
  split; intros Hp; destruct target; try discriminate Hp;
    vm_compute; reflexivity.
Qed.

Lemma optional_dependency_scenario_witness :
  Scenario.resolved
    (Sysroot.parts Platforms.Linux_x86_32 4 0 (Scenario.session "B:?partZ"))
  = Some [("A:partX",
           Some (Parts.set_name "A:partX"
                   (Scenario.with_deps ["B:partY"] Scenario.part0)))].
Proof.
  apply (proj2 (optional_dependency_scenario 4 Platforms.Linux_x86_32
                  ltac:(lia))).
  reflexivity.
Defined.

(** Counterexample to claim C1 as stated: with the optional dependency spelt
    [?B:partZ] the marker is taken for part of the provider's name, the
    dependency is a required one on an absent provider [?B], and [partX] is
    unavailable for [linux] too. *)
Lemma marker_before_scope_is_required :
  Platforms.architecture "linux" = Ok Platforms.Linux_x86_32 /\
  Scenario.resolved
    (Sysroot.parts Platforms.Linux_x86_32 4 0 (Scenario.session "?B:partZ"))
  = Some [].
Proof. split; vm_compute; reflexivity. Qed.

(** Claim C2 at its failing input.  [X] has the hidden dependency [Big]
    and [Big] requires [D]; the required parts of a project that asks for
    [X] contain [Big] and also [D]: a hidden dependency is expanded like
    an ordinary one. *)
Theorem hidden_dependency_is_expanded
    (fuel : nat) (target : Platforms.Architecture) (android_api : Z) :
  6 <= fuel ->
  Scenario.required
    (Builder.required_parts target android_api fuel ["Python:X"]
       Scenario.hidden_session)
  = Some ["Python:X"; "Python:Big"; "Python:D"].
Proof.
  intros Hfuel. with_fuel fuel 6.
  destruct target; vm_compute; reflexivity.
Qed.

Lemma hidden_dependency_is_expanded_witness :
  Scenario.required
    (Builder.required_parts Platforms.Linux_x86_64 0 6 ["Python:X"]
       Scenario.hidden_session)
  = Some ["Python:X"; "Python:Big"; "Python:D"].
Proof.
  exact (hidden_dependency_is_expanded 6 Platforms.Linux_x86_64 0
           ltac:(lia)).
Defined.

(** ** The memo of a provider *)

Section DictFacts.

Context {V : Type}.

Lemma dict_get_set_eq (k : string) (v : V) (d : Dict.t V) :
  Dict.get k (Dict.set k v d) = Some v.
Proof.
  induction d as [|[k' v'] d IH]; simpl.
  - rewrite String.eqb_refl. reflexivity.
  - destruct (String.eqb_spec k' k) as [->|Hne]; simpl.
    + rewrite String.eqb_refl. reflexivity.
    + destruct (String.eqb_spec k' k); [contradiction|exact IH].
Qed.

Lemma dict_get_set_ne (k k' : string) (v : V) (d : Dict.t V) :
  k <> k' -> Dict.get k' (Dict.set k v d) = Dict.get k' d.
Proof.
  intros Hne. induction d as [|[k0 v0] d IH]; simpl.
  - destruct (String.eqb_spec k k'); [contradiction|reflexivity].
  - destruct (String.eqb_spec k0 k) as [->|Hk]; simpl.
    + destruct (String.eqb_spec k k'); [contradiction|reflexivity].
    + destruct (String.eqb_spec k0 k'); [reflexivity|exact IH].
Qed.

Lemma dict_mem_get (k : string) (d : Dict.t V) :
  Dict.mem k d = match Dict.get k d with Some _ => true | None => false end.
Proof. reflexivity. Qed.

End DictFacts.

Section NameFacts.

Import Parts.

Lemma get_name_parts_get_name (c u : string) :
  Str.contains ":" c = false ->
  get_name_parts (get_name c u) = [c; u].
Proof.
  unfold get_name_parts, get_name.
  induction c as [|x c IH]; simpl; [reflexivity|].
  destruct (Ascii.eqb x ":"); [discriminate|].
  intros H. rewrite (IH H). reflexivity.
Qed.

Lemma get_name_inj (c u u' : string) :
  get_name c u = get_name c u' -> u = u'.
Proof.
  unfold get_name. induction c as [|x c IH]; simpl; intros H.
  - injection H as H. exact H.
  - injection H as H. exact (IH H).
Qed.

Lemma set_deps_same (p : Part) : set_deps (deps p) p = p.
Proof. destruct p. reflexivity. Qed.

End NameFacts.

Section MemoFacts.

Import Parts Sysroot.

Lemma memoized_intro (s : state) (i : nat) (self : Component)
    (m : Dict.t (option loc)) :
  components s !! i = Some self -> _parts self = Some m ->
  s = memoized (store s) (components s) i self m.
Proof.
  intros Hi Hm. unfold memoized. destruct s as [st cs]. simpl in *.
  f_equal. symmetry. apply list_insert_id. rewrite Hi. f_equal.
  destruct self. simpl in *. subst. reflexivity.
Qed.

Variables (cs : list Component) (i : nat) (self : Component).
Hypothesis Hi : i < length cs.

Lemma component_memoized st m :
  component i (memoized st cs i self m)
  = Done (mkComponent (cname self) (version self) (provides self) (Some m))
      (memoized st cs i self m).
Proof.
  unfold component, memoized. simpl.
  rewrite list_lookup_insert_eq by exact Hi. reflexivity.
Qed.

Lemma self_parts_memoized st m :
  self_parts i (memoized st cs i self m) = Done m (memoized st cs i self m).
Proof.
  unfold self_parts, memoized. simpl.
  rewrite list_lookup_insert_eq by exact Hi. reflexivity.
Qed.

Lemma set_parts_memoized st m m' :
  set_parts i m' (memoized st cs i self m)
  = Done tt (memoized st cs i self m').
Proof.
  unfold set_parts, memoized. simpl.
  rewrite list_lookup_insert_eq by exact Hi. simpl.
  rewrite list_insert_insert_eq. reflexivity.
Qed.

Lemma read_memoized st m l p :
  st !! l = Some p ->
  read l (memoized st cs i self m) = Done p (memoized st cs i self m).
Proof. intros H. unfold read, memoized. simpl. rewrite H. reflexivity. Qed.

Lemma write_memoized st m l p f :
  st !! l = Some p ->
  write l f (memoized st cs i self m)
  = Done tt (memoized (<[l := f p]> st) cs i self m).
Proof. intros H. unfold write, memoized. simpl. rewrite H. reflexivity. Qed.

End MemoFacts.

Section CycleFacts.

Import Parts Sysroot.

Variable target : Platforms.Architecture.

Lemma add_part_S (fuel : nat) :
  _add_part target (S fuel)
  = _add_part_body (_add_part target fuel) (parts target fuel).
Proof. reflexivity. Qed.

Lemma parts_S (fuel : nat) :
  parts target (S fuel) = parts_body target (_add_part target fuel).
Proof. reflexivity. Qed.

Lemma classify_plain (openssl : option nat) (dep_name c u : string) :
  Str.startswith "?" u = false -> Str.startswith "!" u = false ->
  classify openssl dep_name c u = Some (true, dep_name).
Proof. intros H1 H2. unfold classify. rewrite H1, H2. reflexivity. Qed.

End CycleFacts.

(** ** Runs that correspond *)

Section CorrespondenceFacts.

Import Parts Sysroot Session.

Variables T G : list Part.
Variable target : Platforms.Architecture.

Abbreviation run_rel := (Session.run_rel T G).
Abbreviation state_rel := (Session.state_rel T G).
Abbreviation copy_rel := (Session.copy_rel T G).
Abbreviation comp_rel := (Session.comp_rel T G).
Abbreviation memo_rel := (Session.memo_rel T G).
Abbreviation acc_rel := (Session.acc_rel T G).

(** *** The monad *)

Lemma run_ret {A} (R : A -> A -> Prop) (a a' : A) :
  R a a' -> run_rel R (ret a) (ret a').
Proof. intros H s s' Hs. split; assumption. Qed.

Lemma run_raise {A} (R : A -> A -> Prop) (e : exn) :
  run_rel R (raise e) (raise e).
Proof. intros s s' Hs. split; [reflexivity|assumption]. Qed.

Lemma run_out_of_fuel {A} (R : A -> A -> Prop) :
  run_rel R out_of_fuel out_of_fuel.
Proof. intros s s' Hs. exact Hs. Qed.

Lemma run_lift {A} (r : res A) : run_rel eq (lift r) (lift r).
Proof. destruct r; [apply run_ret; reflexivity|apply run_raise]. Qed.

Lemma run_bind {A B} (RA : A -> A -> Prop) (RB : B -> B -> Prop)
    (m m' : M A) (k k' : A -> M B) :
  run_rel RA m m' ->
  (forall a a', RA a a' -> run_rel RB (k a) (k' a')) ->
  run_rel RB (bind m k) (bind m' k').
Proof.
  intros Hm Hk s s' Hs. unfold bind. specialize (Hm s s' Hs).
  destruct (m s), (m' s'); simpl in Hm; try contradiction.
  - destruct Hm as [Ha Hs']. apply Hk; assumption.
  - exact Hm.
  - exact Hm.
Qed.

Lemma run_for_each {A S} (RA : A -> A -> Prop) (RS : S -> S -> Prop)
    (xs xs' : list A) (body body' : A -> S -> M (ctl * S)) :
  Forall2 RA xs xs' ->
  (forall x x' acc acc', RA x x' -> RS acc acc' ->
     run_rel (fun r r' => fst r = fst r' /\ RS (snd r) (snd r'))
       (body x acc) (body' x' acc')) ->
  forall acc acc', RS acc acc' ->
  run_rel RS (for_each xs body acc) (for_each xs' body' acc').
Proof.
  intros Hxs Hbody. induction Hxs as [|x x' xs xs' Hx _ IH];
    intros acc acc' Hacc; simpl.
  - apply run_ret. exact Hacc.
  - eapply run_bind; [apply Hbody; assumption|].
    intros [c r] [c' r'] [Hc Hr]. simpl in Hc, Hr. subst c'.
    destruct c; [apply IH; exact Hr|apply run_ret; exact Hr].
Qed.

(** *** Objects *)

Lemma template_lookup (s s' : state) (l : loc) :
  state_rel s s' -> l < length T ->
  store s !! l = T !! l /\ store s' !! l = T !! l.
Proof.
  intros [(X & -> & ->) _] Hl. split; apply lookup_app_l; exact Hl.
Qed.

Lemma copy_lookup (s s' : state) (l l' : loc) :
  state_rel s s' -> copy_rel l l' -> store s' !! l' = store s !! l.
Proof.
  intros [(X & -> & ->) _] [Hl ->].
  rewrite (lookup_app_r T (G ++ X)), (lookup_app_r T X) by lia.
  rewrite (lookup_app_r G X) by lia. f_equal. lia.
Qed.

Lemma run_read_template (l : loc) :
  l < length T -> run_rel eq (read l) (read l).
Proof.
  intros Hl s s' Hs. unfold read.
  destruct (template_lookup s s' l Hs Hl) as [-> ->].
  destruct (T !! l); simpl; auto.
Qed.

Lemma run_read_copy (l l' : loc) :
  copy_rel l l' -> run_rel eq (read l) (read l').
Proof.
  intros Hl s s' Hs. unfold read. rewrite (copy_lookup s s' l l' Hs Hl).
  destruct (store s !! l); simpl; auto.
Qed.

Lemma run_write_copy (l l' : loc) (f : Part -> Part) :
  copy_rel l l' -> run_rel eq (write l f) (write l' f).
Proof.
  intros Hl s s' Hs. unfold write. rewrite (copy_lookup s s' l l' Hs Hl).
  destruct (store s !! l) as [p|]; simpl; [|auto].
  split; [reflexivity|].
  destruct Hs as [(X & E & E') Hcs]. destruct Hl as [Hl ->].
  split; [|exact Hcs]. simpl.
  exists (<[l - length T := f p]> X). rewrite E, E'. split.
  - apply insert_app_r_alt. exact Hl.
  - rewrite insert_app_r_alt by lia.
    rewrite insert_app_r_alt by lia.
    do 3 f_equal. lia.
Qed.

Lemma run_deepcopy (l : loc) :
  l < length T -> run_rel copy_rel (deepcopy l) (deepcopy l).
Proof.
  intros Hl s s' Hs. unfold deepcopy.
  destruct (template_lookup s s' l Hs Hl) as [-> ->].
  destruct (T !! l) as [p|]; simpl; [|auto].
  destruct Hs as [(X & E & E') Hcs]. rewrite E, E'.
  split; [|split; [|exact Hcs]]; simpl.
  - split; rewrite !length_app; lia.
  - exists (X ++ [p]). rewrite <- !app_assoc. split; reflexivity.
Qed.

(** *** Components *)

Lemma run_component (i : nat) : run_rel comp_rel (component i) (component i).
Proof.
  intros s s' Hs. unfold component. pose proof Hs as [_ Hcs].
  destruct (components s !! i) as [c|] eqn:E.
  - destruct (Forall2_lookup_l _ _ _ _ _ Hcs E) as (c' & -> & Hc).
    split; assumption.
  - apply lookup_ge_None in E. rewrite (Forall2_length _ _ _ Hcs) in E.
    apply lookup_ge_None in E. rewrite E. split; [reflexivity|assumption].
Qed.

Lemma run_self_parts (i : nat) :
  run_rel memo_rel (self_parts i) (self_parts i).
Proof.
  intros s s' Hs. pose proof (run_component i s s' Hs) as H.
  unfold component, self_parts in *.
  destruct (components s !! i) as [c|], (components s' !! i) as [c'|];
    simpl in H; try contradiction; [|exact H].
  destruct H as [(_ & _ & _ & _ & Hm) Hs'].
  destruct Hm; simpl; split; auto.
Qed.

Lemma run_set_parts (i : nat) (m m' : Dict.t (option loc)) :
  memo_rel m m' -> run_rel eq (set_parts i m) (set_parts i m').
Proof.
  intros Hm s s' Hs. pose proof (run_component i s s' Hs) as H.
  unfold component, set_parts in *.
  destruct (components s !! i) as [c|], (components s' !! i) as [c'|];
    simpl in H; try contradiction; [|exact H].
  destruct H as [(Hn & Hv & Hp & Ht & _) _].
  split; [reflexivity|]. destruct Hs as [HX Hcs]. split; [exact HX|].
  simpl. apply Forall2_insert; [exact Hcs|].
  repeat split; simpl; try assumption. constructor. exact Hm.
Qed.

Lemma index_of_rel (name : string) (cs cs' : list Component) :
  Forall2 comp_rel cs cs' -> index_of name cs = index_of name cs'.
Proof.
  induction 1 as [|c c' cs cs' (Hn & _) _ IH]; simpl; [reflexivity|].
  rewrite Hn, IH. reflexivity.
Qed.

Lemma run_get_component (name : string) :
  run_rel eq (get_component name) (get_component name).
Proof.
  intros s s' Hs. unfold get_component. split; [|exact Hs].
  apply index_of_rel. apply Hs.
Qed.

(** *** Dictionaries *)

Lemma dict_get_rel {V} (R : V -> V -> Prop) (k : string) (d d' : Dict.t V) :
  dict_rel R d d' -> option_Forall2 R (Dict.get k d) (Dict.get k d').
Proof.
  induction 1 as [|[k1 v1] [k2 v2] d d' [Hk Hv] _ IH]; simpl in *.
  - constructor.
  - subst k2. destruct (String.eqb k1 k); [constructor; exact Hv|exact IH].
Qed.

Lemma dict_mem_rel {V} (R : V -> V -> Prop) (k : string) (d d' : Dict.t V) :
  dict_rel R d d' -> Dict.mem k d = Dict.mem k d'.
Proof.
  intros H. unfold Dict.mem. destruct (dict_get_rel R k d d' H); reflexivity.
Qed.

Lemma dict_set_rel {V} (R : V -> V -> Prop) (k : string) (v v' : V)
    (d d' : Dict.t V) :
  dict_rel R d d' -> R v v' ->
  dict_rel R (Dict.set k v d) (Dict.set k v' d').
Proof.
  intros H Hv.
  induction H as [|[k1 v1] [k2 v2] d d' [Hk Hv1] Hd IH]; simpl in *.
  - constructor; [split; [reflexivity|exact Hv]|constructor].
  - subst k2. destruct (String.eqb k1 k).
    + constructor; [split; [reflexivity|exact Hv]|exact Hd].
    + constructor; [split; [reflexivity|exact Hv1]|exact IH].
Qed.

Lemma available_rel (m m' : Dict.t (option loc)) :
  memo_rel m m' ->
  memo_rel (List.filter (fun np => is_available (snd np)) m)
    (List.filter (fun np => is_available (snd np)) m').
Proof.
  induction 1 as [|[k1 v1] [k2 v2] d d' [Hk Hv] Hd IH]; simpl in *.
  - constructor.
  - destruct Hv; simpl; [|exact IH].
    constructor; [split; [exact Hk|constructor; assumption]|exact IH].
Qed.

(** *** The resolver *)

Ltac run_step lem :=
  eapply run_bind; [apply lem|].

Lemma run_normalise_copy (self_name unscoped_name : string) (c c' : loc) :
  copy_rel c c' ->
  run_rel eq (normalise_copy target self_name unscoped_name c)
    (normalise_copy target self_name unscoped_name c').
Proof.
  intros Hc. unfold normalise_copy.
  run_step run_write_copy; [exact Hc|intros _ _ _].
  run_step run_read_copy; [exact Hc|intros p ? <-].
  run_step @run_lift; intros d ? <-.
  run_step run_write_copy; [exact Hc|intros _ _ _].
  run_step run_read_copy; [exact Hc|intros p1 ? <-].
  run_step @run_lift; intros d1 ? <-.
  run_step run_write_copy; [exact Hc|intros _ _ _].
  run_step run_read_copy; [exact Hc|intros p2 ? <-].
  eapply run_bind with (RA := eq).
  - destruct (is_CompiledPart (cls p2)); [|apply run_ret; reflexivity].
    run_step @run_lift; intros v ? <-.
    run_step run_write_copy; [exact Hc|intros _ _ _].
    run_step run_read_copy; [exact Hc|intros p3 ? <-].
    run_step @run_lift; intros v1 ? <-.
    run_step run_write_copy; [exact Hc|intros _ _ _].
    run_step run_read_copy; [exact Hc|intros p4 ? <-].
    run_step @run_lift; intros v2 ? <-.
    apply run_write_copy. exact Hc.
  - intros _ _ _.
    run_step run_read_copy; [exact Hc|intros p3 ? <-].
    destruct (is_ExtensionModule (cls p3)); [|apply run_ret; reflexivity].
    run_step @run_lift; intros v ? <-.
    apply run_write_copy. exact Hc.
Qed.

Lemma run_select (self_name : string) (ver : VersionNumber.t)
    (unscoped_name : string) (vs : list loc) :
  Forall (fun l => l < length T) vs ->
  run_rel (option_Forall2 copy_rel)
    (select target self_name ver unscoped_name vs)
    (select target self_name ver unscoped_name vs).
Proof.
  induction 1 as [|l vs Hl _ IH]; simpl.
  - apply run_ret. constructor.
  - run_step run_read_template; [exact Hl|intros p ? <-].
    run_step @run_lift; intros a ? <-.
    destruct a; [|exact IH].
    run_step @run_lift; intros c ? <-.
    destruct c; [|apply run_ret; constructor].
    run_step run_deepcopy; [exact Hl|intros c c' Hc].
    run_step run_normalise_copy; [exact Hc|intros _ _ _].
    apply run_ret. constructor. exact Hc.
Qed.

Lemma run_normalised_part (self_name : string) (ver : VersionNumber.t)
    (unscoped_name : string) (vs : versions) :
  Forall (fun l => l < length T) (locs_of vs) ->
  run_rel (option_Forall2 copy_rel)
    (_normalised_part target self_name ver unscoped_name vs)
    (_normalised_part target self_name ver unscoped_name vs).
Proof. intros H. destruct vs; apply run_select; exact H. Qed.

Lemma run_provide (self self' : Component) (nv : string * versions)
    (pv pv' : Dict.t loc) :
  comp_rel self self' ->
  Forall (fun l => l < length T) (locs_of (snd nv)) ->
  dict_rel copy_rel pv pv' ->
  run_rel (fun r r' => fst r = fst r' /\ dict_rel copy_rel (snd r) (snd r'))
    (provide target self nv pv) (provide target self' nv pv').
Proof.
  intros (Hn & Hv & _) Hnv Hpv. unfold provide. rewrite <- Hn, <- Hv.
  run_step run_normalised_part; [exact Hnv|intros part part' Hpart].
  destruct Hpart as [l l' Hl|].
  - run_step run_read_copy; [exact Hl|intros p ? <-].
    destruct (name p); [|apply run_raise].
    apply run_ret. split; [reflexivity|]. simpl.
    apply dict_set_rel; assumption.
  - apply run_ret. split; [reflexivity|exact Hpv].
Qed.

(** The bodies preserve the correspondence when the calls they make do. *)
Section BodyFacts.

Variables add_part add_part' :
  nat -> string -> loc -> option nat -> Dict.t loc -> M unit.
Variables parts_of parts_of' : nat -> M (Dict.t (option loc)).

Hypothesis run_add_part :
  forall i name part part' openssl pv pv',
    copy_rel part part' -> dict_rel copy_rel pv pv' ->
    run_rel eq (add_part i name part openssl pv)
      (add_part' i name part' openssl pv').

Hypothesis run_parts_of :
  forall j, run_rel memo_rel (parts_of j) (parts_of' j).

Lemma run_parts_body (i : nat) :
  run_rel memo_rel (parts_body target add_part i)
    (parts_body target add_part' i).
Proof.
  unfold parts_body.
  run_step run_component. intros self self' Hself.
  pose proof Hself as (_ & _ & Hp & Ht & Hm).
  destruct Hm as [m m' Hm|]; [apply run_ret; exact Hm|].
  run_step run_set_parts; [constructor|intros _ _ _].
  run_step run_get_component. intros openssl ? <-.
  eapply run_bind with (RA := dict_rel copy_rel).
  - rewrite <- Hp.
    apply run_for_each
      with (RA := fun nv nv' =>
                    nv = nv' /\
                    Forall (fun l => l < length T) (locs_of (snd nv))).
    + clear -Ht. unfold templates_below in Ht.
      induction Ht; constructor; auto.
    + intros nv ? pv pv' [<- Hnv] Hpv. apply run_provide; assumption.
    + constructor.
  - intros pv pv' Hpv.
    eapply run_bind with (RA := eq).
    + apply run_for_each with (RA := entry_rel copy_rel) (RS := eq).
      * exact Hpv.
      * intros [n l] [n' l'] [] ? [Hn Hl] <-. simpl in Hn, Hl. subst n'.
        simpl. run_step run_add_part; [exact Hl|exact Hpv|intros _ _ _].
        apply run_ret. split; reflexivity.
      * reflexivity.
    + intros _ _ _.
      run_step run_self_parts. intros memo memo' Hmemo.
      run_step run_set_parts; [apply available_rel; exact Hmemo|].
      intros _ _ _. apply run_ret. apply available_rel. exact Hmemo.
Qed.

Lemma run_check_dep (i : nat) (self self' : Component)
    (openssl : option nat) (pv pv' : Dict.t loc) (dep_name : string)
    (acc acc' : option loc * list string) :
  comp_rel self self' -> dict_rel copy_rel pv pv' -> acc_rel acc acc' ->
  run_rel (fun r r' => fst r = fst r' /\ acc_rel (snd r) (snd r'))
    (check_dep add_part parts_of i self openssl pv dep_name acc)
    (check_dep add_part' parts_of' i self' openssl pv' dep_name acc').
Proof.
  intros (Hn & _) Hpv [Hacc1 Hacc2]. unfold check_dep. rewrite <- Hn.
  assert (Hnext : run_rel
            (fun r r' => fst r = fst r' /\ acc_rel (snd r) (snd r'))
            (ret (Next, acc)) (ret (Next, acc'))).
  { apply run_ret. split; [reflexivity|split; assumption]. }
  assert (Hbreak : run_rel
            (fun r r' => fst r = fst r' /\ acc_rel (snd r) (snd r'))
            (ret (Break, (None, snd acc))) (ret (Break, (None, snd acc')))).
  { apply run_ret. split; [reflexivity|split; [constructor|exact Hacc2]]. }
  assert (Hadd : forall d, run_rel
            (fun r r' => fst r = fst r' /\ acc_rel (snd r) (snd r'))
            (ret (Next, (fst acc, snd acc ++ [d])))
            (ret (Next, (fst acc', snd acc' ++ [d])))).
  { intros d. apply run_ret. split; [reflexivity|]. split; simpl.
    - exact Hacc1.
    - rewrite Hacc2. reflexivity. }
  destruct (get_name_parts dep_name) as [|component_name [|part_name [|]]];
    try apply run_raise.
  destruct (classify openssl dep_name component_name part_name)
    as [[required dep]|]; [|exact Hnext].
  destruct (String.eqb (cname self) component_name).
  - destruct (dict_get_rel copy_rel dep pv pv' Hpv) as [l l' Hl|].
    + run_step run_add_part; [exact Hl|exact Hpv|intros _ _ _].
      run_step run_self_parts. intros memo memo' Hmemo.
      destruct (dict_get_rel _ dep memo memo' Hmemo) as [o o' Ho|];
        [|apply run_raise].
      destruct Ho; [apply Hadd|].
      destruct required; [exact Hbreak|exact Hnext].
    + destruct required; [exact Hbreak|exact Hnext].
  - run_step run_get_component. intros other ? <-.
    eapply run_bind with (RA := eq).
    + destruct other as [j|]; [|apply run_ret; reflexivity].
      run_step run_parts_of. intros ps ps' Hps.
      apply run_ret. exact (dict_mem_rel _ dep ps ps' Hps).
    + intros provided ? <-. destruct provided; [apply Hadd|].
      destruct required; [|exact Hnext].
      apply run_ret. split; [reflexivity|split; [constructor|exact Hacc2]].
Qed.

Lemma run_add_part_body (i : nat) (name : string) (part part' : loc)
    (openssl : option nat) (pv pv' : Dict.t loc) :
  copy_rel part part' -> dict_rel copy_rel pv pv' ->
  run_rel eq (_add_part_body add_part parts_of i name part openssl pv)
    (_add_part_body add_part' parts_of' i name part' openssl pv').
Proof.
  intros Hpart Hpv. unfold _add_part_body.
  run_step run_component. intros self self' Hself.
  run_step run_self_parts. intros memo memo' Hmemo.
  rewrite (dict_mem_rel _ name memo memo' Hmemo).
  destruct (Dict.mem name memo'); [apply run_ret; reflexivity|].
  run_step run_set_parts.
  { apply dict_set_rel; [exact Hmemo|constructor; exact Hpart]. }
  intros _ _ _.
  run_step run_read_copy; [exact Hpart|intros p ? <-].
  eapply run_bind with (RA := acc_rel).
  - apply run_for_each with (RA := eq).
    + clear. induction (deps p); constructor; auto.
    + intros d ? acc acc' <- Hacc. apply run_check_dep; assumption.
    + split; [constructor; exact Hpart|reflexivity].
  - intros [o ds] [o' ds'] [Ho Hds]. simpl in Ho, Hds. subst ds'. simpl.
    eapply run_bind with (RA := eq).
    + destruct Ho as [l l' Hl|]; [|apply run_ret; reflexivity].
      apply run_write_copy. exact Hl.
    + intros _ _ _. run_step run_self_parts. intros m m' Hm.
      apply run_set_parts. apply dict_set_rel; assumption.
Qed.

End BodyFacts.

(** Any two runs of the resolver from corresponding states correspond. *)
Lemma run_resolver (fuel : nat) :
  (forall i, run_rel memo_rel (parts target fuel i) (parts target fuel i)) /\
  (forall i name part part' openssl pv pv',
     copy_rel part part' -> dict_rel copy_rel pv pv' ->
     run_rel eq (_add_part target fuel i name part openssl pv)
       (_add_part target fuel i name part' openssl pv')).
Proof.
  induction fuel as [|fuel [IHparts IHadd]].
  - split; intros; apply run_out_of_fuel.
  - split.
    + intros i. simpl. apply run_parts_body. exact IHadd.
    + intros i name part part' openssl pv pv' Hpart Hpv. simpl.
      apply run_add_part_body; assumption.
Qed.

End CorrespondenceFacts.

(** ** The resolver completes *)

Section CompletionFacts.

Import Parts Sysroot Session.

Variable target : Platforms.Architecture.

(** *** Rules *)

Lemma completes_ret {A} (s : state) (a : A) (Q : A -> state -> Prop) :
  Q a s -> completes s (ret a) Q.
Proof. intros H. exact H. Qed.

Lemma completes_raise {A} (s : state) (e : exn) (Q : A -> state -> Prop) :
  completes s (raise e) Q.
Proof. exact I. Qed.

Lemma completes_lift {A} (s : state) (r : res A) (Q : A -> state -> Prop) :
  (forall a, Q a s) -> completes s (lift r) Q.
Proof. intros H. destruct r; [apply H|exact I]. Qed.

Lemma completes_bind {A B} (s : state) (m : M A) (k : A -> M B)
    (Q : A -> state -> Prop) (R : B -> state -> Prop) :
  completes s m Q ->
  (forall a s', Q a s' -> completes s' (k a) R) ->
  completes s (bind m k) R.
Proof.
  unfold completes, bind. intros Hm Hk.
  destruct (m s) as [a s'|e s'|s']; [exact (Hk a s' Hm)|exact I|exact Hm].
Qed.

Lemma completes_weaken {A} (s : state) (m : M A)
    (Q Q' : A -> state -> Prop) :
  completes s m Q -> (forall a s', Q a s' -> Q' a s') -> completes s m Q'.
Proof.
  unfold completes. intros Hm HQ.
  destruct (m s); [apply HQ; exact Hm|exact I|exact Hm].
Qed.

(** The loop rule: [Inv rest acc s] holds when the elements [rest] are
    still to be visited. *)
Lemma completes_for_each {A S} (body : A -> S -> M (ctl * S))
    (Inv : list A -> S -> state -> Prop) :
  (forall x rest acc s,
     Inv (x :: rest) acc s ->
     completes s (body x acc) (fun r s' => Inv rest (snd r) s')) ->
  forall xs acc s,
    Inv xs acc s ->
    completes s (for_each xs body acc)
      (fun acc' s' => exists rest, Inv rest acc' s').
Proof.
  intros Hbody. induction xs as [|x xs IH]; intros acc s HI; simpl.
  - apply completes_ret. exists []. exact HI.
  - eapply completes_bind; [apply Hbody; exact HI|].
    intros [c acc'] s' HI'. simpl in HI'.
    destruct c; [apply IH; exact HI'|].
    apply completes_ret. exists xs. exact HI'.
Qed.

(** *** The store does not matter *)

Lemma completes_read (s : state) (l : loc) :
  completes s (read l) (fun _ s' => s' = s).
Proof. unfold completes, read. destruct (store s !! l); auto. Qed.

Lemma completes_write (s : state) (l : loc) (f : Part -> Part) :
  completes s (write l f) (fun _ s' => components s' = components s).
Proof. unfold completes, write. destruct (store s !! l); simpl; auto. Qed.

Lemma completes_deepcopy (s : state) (l : loc) :
  completes s (deepcopy l) (fun _ s' => components s' = components s).
Proof. unfold completes, deepcopy. destruct (store s !! l); simpl; auto. Qed.

Lemma completes_normalise_copy (s : state) (self_name unscoped_name : string)
    (c : loc) :
  completes s (normalise_copy target self_name unscoped_name c)
    (fun _ s' => components s' = components s).
Proof.
  unfold normalise_copy.
  eapply completes_bind; [apply completes_write|]. intros ? s1 E1; simpl in E1.
  eapply completes_bind; [apply completes_read|]. intros p ? ->.
  eapply completes_bind;
    [apply completes_lift with (Q := fun _ s' => s' = s1); reflexivity|].
  intros d ? ->.
  eapply completes_bind; [apply completes_write|]. intros ? s2 E2; simpl in E2.
  eapply completes_bind; [apply completes_read|]. intros p2 ? ->.
  eapply completes_bind;
    [apply completes_lift with (Q := fun _ s' => s' = s2); reflexivity|].
  intros d2 ? ->.
  eapply completes_bind; [apply completes_write|]. intros ? s3 E3; simpl in E3.
  eapply completes_bind; [apply completes_read|]. intros p3 ? ->.
  eapply completes_bind
    with (Q := fun _ s' => components s' = components s).
  - destruct (is_CompiledPart (cls p3));
      [|apply completes_ret; congruence].
    eapply completes_bind;
      [apply completes_lift with (Q := fun _ s' => s' = s3); reflexivity|].
    intros v ? ->.
    eapply completes_bind; [apply completes_write|]. intros ? s4 E4; simpl in E4.
    eapply completes_bind; [apply completes_read|]. intros p4 ? ->.
    eapply completes_bind;
      [apply completes_lift with (Q := fun _ s' => s' = s4); reflexivity|].
    intros v4 ? ->.
    eapply completes_bind; [apply completes_write|]. intros ? s5 E5; simpl in E5.
    eapply completes_bind; [apply completes_read|]. intros p5 ? ->.
    eapply completes_bind;
      [apply completes_lift with (Q := fun _ s' => s' = s5); reflexivity|].
    intros v5 ? ->.
    eapply completes_weaken; [apply completes_write|].
    simpl. intros ? s6 E6; simpl in E6. congruence.
  - intros ? s4 E4; simpl in E4.
    eapply completes_bind; [apply completes_read|]. intros p4 ? ->.
    destruct (is_ExtensionModule (cls p4));
      [|apply completes_ret; congruence].
    eapply completes_bind;
      [apply completes_lift with (Q := fun _ s' => s' = s4); reflexivity|].
    intros v ? ->.
    eapply completes_weaken; [apply completes_write|].
    simpl. intros ? s6 E6; simpl in E6. congruence.
Qed.

Lemma completes_select (self_name : string) (ver : VersionNumber.t)
    (unscoped_name : string) (vs : list loc) (s : state) :
  completes s (select target self_name ver unscoped_name vs)
    (fun _ s' => components s' = components s).
Proof.
  induction vs as [|l vs IH]; simpl.
  - apply completes_ret. reflexivity.
  - eapply completes_bind; [apply completes_read|]. intros p ? ->.
    eapply completes_bind;
      [apply completes_lift with (Q := fun _ s' => s' = s); reflexivity|].
    intros a ? ->. destruct a; [|exact IH].
    eapply completes_bind;
      [apply completes_lift with (Q := fun _ s' => s' = s); reflexivity|].
    intros c ? ->. destruct c; [|apply completes_ret; reflexivity].
    eapply completes_bind; [apply completes_deepcopy|]. intros c s1 E1.
    eapply completes_bind; [apply completes_normalise_copy|].
    intros ? s2 E2; simpl in E2. apply completes_ret. congruence.
Qed.

(** *** Providers *)

Lemma completes_component (s : state) (i : nat) :
  completes s (component i)
    (fun c s' => s' = s /\ components s !! i = Some c).
Proof. unfold completes, component. destruct (components s !! i); auto. Qed.

Lemma completes_self_parts (s : state) (i : nat) :
  completes s (self_parts i)
    (fun m s' => s' = s /\
       exists c, components s !! i = Some c /\ _parts c = Some m).
Proof.
  unfold completes, self_parts.
  destruct (components s !! i) as [c|]; [|exact I].
  destruct (_parts c) eqn:E; [|exact I]. eauto.
Qed.

Lemma completes_set_parts (s : state) (i : nat) (m : Dict.t (option loc)) :
  completes s (set_parts i m)
    (fun _ s' => exists c, components s !! i = Some c /\
       components s' =
         <[i := mkComponent (cname c) (version c) (provides c) (Some m)]>
           (components s)).
Proof.
  unfold completes, set_parts.
  destruct (components s !! i) as [c|]; [|exact I]. simpl. eauto.
Qed.

Lemma completes_get_component (s : state) (name : string) :
  completes s (get_component name) (fun _ s' => s' = s).
Proof. reflexivity. Qed.

Lemma pending_insert (cs : list Component) (i : nat) (c c' : Component) :
  cs !! i = Some c ->
  pending (<[i := c']> cs) + cost c = pending cs + cost c'.
Proof.
  revert i. induction cs as [|c0 cs IH]; intros [|i] H; simpl in *;
    try discriminate.
  - injection H as ->. lia.
  - specialize (IH i H). lia.
Qed.

Lemma comp_evolves_refl (c : Component) : comp_evolves c c.
Proof.
  repeat split. intros m Hm. exists m. split; [exact Hm|]. intros x Hx.
  exact Hx.
Qed.

Lemma comp_evolves_trans (c1 c2 c3 : Component) :
  comp_evolves c1 c2 -> comp_evolves c2 c3 -> comp_evolves c1 c3.
Proof.
  intros (Hn & Hp & Hm) (Hn' & Hp' & Hm'). repeat split; try congruence.
  intros m E. destruct (Hm m E) as (m2 & E2 & G2).
  destruct (Hm' m2 E2) as (m3 & E3 & G3).
  exists m3. split; [exact E3|]. intros x Hx. apply G3, G2, Hx.
Qed.

Lemma evolves_refl (s : state) : evolves s s.
Proof.
  split; [|lia]. induction (components s); constructor; auto.
  apply comp_evolves_refl.
Qed.

Lemma comp_evolves_trans_list (cs1 cs2 cs3 : list Component) :
  Forall2 comp_evolves cs1 cs2 -> Forall2 comp_evolves cs2 cs3 ->
  Forall2 comp_evolves cs1 cs3.
Proof.
  intros H. revert cs3.
  induction H as [|c1 c2 cs1 cs2 Hc _ IH]; intros cs3 H3;
    inversion H3; subst; constructor.
  - eapply comp_evolves_trans; eassumption.
  - apply IH. assumption.
Qed.

Lemma evolves_trans (s1 s2 s3 : state) :
  evolves s1 s2 -> evolves s2 s3 -> evolves s1 s3.
Proof.
  intros [H12 P12] [H23 P23]. split; [|lia].
  eapply comp_evolves_trans_list; eassumption.
Qed.

Lemma evolves_same (s s' : state) :
  components s' = components s -> evolves s s'.
Proof.
  intros E. unfold evolves. rewrite E. apply evolves_refl.
Qed.

Lemma evolves_update (s s' : state) (i : nat) (c c' : Component) :
  components s !! i = Some c ->
  comp_evolves c c' -> cost c' <= cost c ->
  components s' = <[i := c']> (components s) ->
  evolves s s'.
Proof.
  intros Hi Hc Hcost E. unfold evolves. rewrite E. split.
  - rewrite <- (list_insert_id _ _ _ Hi) at 1.
    apply Forall2_insert; [apply (proj1 (evolves_refl s))|exact Hc].
  - pose proof (pending_insert _ _ _ c' Hi). lia.
Qed.

Lemma evolves_lookup (s s' : state) (i : nat) (c : Component) :
  evolves s s' -> components s !! i = Some c ->
  exists c', components s' !! i = Some c' /\ comp_evolves c c'.
Proof.
  intros [H _] Hi. exact (Forall2_lookup_l _ _ _ _ _ H Hi).
Qed.

(** *** Names still to memoize *)

Lemma dict_mem_set {V} (x k : string) (v : V) (d : Dict.t V) :
  Dict.mem x (Dict.set k v d) = String.eqb k x || Dict.mem x d.
Proof.
  unfold Dict.mem. destruct (String.eqb_spec k x) as [->|Hne].
  - rewrite dict_get_set_eq. reflexivity.
  - rewrite dict_get_set_ne by exact Hne. reflexivity.
Qed.

Lemma dict_length_set {V} (k : string) (v : V) (d : Dict.t V) :
  length (Dict.set k v d) <= S (length d).
Proof.
  induction d as [|[k' v'] d IH]; simpl; [lia|].
  destruct (String.eqb k' k); simpl; lia.
Qed.

Lemma dict_in_mem {V} (k : string) (v : V) (d : Dict.t V) :
  In (k, v) d -> Dict.mem k d = true.
Proof.
  unfold Dict.mem. induction d as [|[k' v'] d IH]; simpl; [contradiction|].
  intros [E|H].
  - injection E as -> ->. rewrite String.eqb_refl. reflexivity.
  - destruct (String.eqb k' k); [reflexivity|exact (IH H)].
Qed.

Lemma dict_get_mem {V} (k : string) (v : V) (d : Dict.t V) :
  Dict.get k d = Some v -> Dict.mem k d = true.
Proof. unfold Dict.mem. intros ->. reflexivity. Qed.

Lemma todo_le_length (pv : Dict.t loc) (m : Dict.t (option loc)) :
  todo pv m <= length pv.
Proof. unfold todo. apply List.filter_length_le. Qed.

Lemma todo_mono (pv : Dict.t loc) (m m' : Dict.t (option loc)) :
  memo_grows m m' -> todo pv m' <= todo pv m.
Proof.
  intros H. unfold todo. induction pv as [|[k l] pv IH]; simpl; [lia|].
  destruct (Dict.mem k m) eqn:E.
  - rewrite (H k E). simpl. exact IH.
  - simpl. destruct (Dict.mem k m'); simpl; lia.
Qed.

Lemma todo_set (pv : Dict.t loc) (m : Dict.t (option loc)) (name : string)
    (v : option loc) :
  Dict.mem name pv = true -> Dict.mem name m = false ->
  S (todo pv (Dict.set name v m)) <= todo pv m.
Proof.
  unfold todo, Dict.mem at 1.
  induction pv as [|[k l] pv IH]; simpl; [discriminate|].
  intros Hpv Hm. rewrite dict_mem_set.
  destruct (String.eqb_spec k name) as [->|Hne].
  - rewrite String.eqb_refl, Hm. simpl.
    assert (H : memo_grows m (Dict.set name v m)).
    { intros x Hx. rewrite dict_mem_set, Hx. apply orb_true_r. }
    pose proof (todo_mono pv _ _ H) as Hle. unfold todo in Hle. lia.
  - destruct (String.eqb_spec name k); [congruence|]. simpl.
    specialize (IH Hpv Hm). destruct (Dict.mem k m); simpl; lia.
Qed.

(** *** The resolver *)

Lemma completes_provide (s : state) (self : Component)
    (nv : string * versions) (pv : Dict.t loc) :
  completes s (provide target self nv pv)
    (fun r s' => components s' = components s /\
                 length (snd r) <= S (length pv)).
Proof.
  unfold provide, _normalised_part.
  eapply completes_bind; [apply completes_select|].
  intros part s1 E1. simpl in E1. destruct part as [l|].
  - eapply completes_bind; [apply completes_read|]. intros p ? ->.
    destruct (name p); [|apply completes_raise].
    apply completes_ret. simpl. split; [exact E1|apply dict_length_set].
  - apply completes_ret. simpl. split; [exact E1|lia].
Qed.

Lemma Forall2_insert_r {A B} (R : A -> B -> Prop) (l : list A) (k : list B)
    (i : nat) (x : A) (y : B) :
  Forall2 R l k -> l !! i = Some x -> R x y -> Forall2 R l (<[i := y]> k).
Proof.
  intros H Hi Hxy. rewrite <- (list_insert_id _ _ _ Hi).
  apply Forall2_insert; assumption.
Qed.

Section BodyCompletion.

Variable add_part :
  nat -> string -> loc -> option nat -> Dict.t loc -> M unit.
Variable parts_of : nat -> M (Dict.t (option loc)).
Variable fuel : nat.

Hypothesis add_part_completes :
  forall i name part openssl pv s c m,
    components s !! i = Some c -> _parts c = Some m ->
    Dict.mem name pv = true ->
    todo pv m + pending (components s) < fuel ->
    completes s (add_part i name part openssl pv) (fun _ s' => evolves s s').

Hypothesis parts_of_completes :
  forall j s,
    pending (components s) < fuel ->
    completes s (parts_of j) (fun _ s' => evolves s s').

Lemma completes_parts_body (j : nat) (s : state) :
  pending (components s) < S fuel ->
  completes s (parts_body target add_part j) (fun _ s' => evolves s s').
Proof.
  intros Hfuel. unfold parts_body.
  eapply completes_bind; [apply completes_component|].
  intros self ? [-> Hself].
  destruct (_parts self) as [d|] eqn:Hparts;
    [apply completes_ret, evolves_refl|].
  eapply completes_bind; [apply completes_set_parts|].
  intros ? s1 (c & Hc & E1). rewrite Hself in Hc. injection Hc as <-.
  set (self1 := mkComponent (cname self) (version self) (provides self)
                  (Some [])) in *.
  assert (Hcost : cost self = 2 + length (provides self))
    by (unfold cost; rewrite Hparts; reflexivity).
  assert (Hs1 : evolves s s1).
  { eapply evolves_update; [exact Hself| |
                            |exact E1].
    - repeat split. intros m Hm. rewrite Hparts in Hm. discriminate.
    - unfold cost. simpl. lia. }
  assert (Hpend : pending (components s1) + (2 + length (provides self))
                  = pending (components s)).
  { rewrite E1. pose proof (pending_insert _ _ _ self1 Hself) as H.
    rewrite Hcost in H. unfold cost at 1 in H. simpl in H.
    lia. }
  assert (Hj1 : components s1 !! j = Some self1).
  { rewrite E1. apply list_lookup_insert_eq. eapply lookup_lt_Some; eauto. }
  eapply completes_bind; [apply completes_get_component|].
  intros openssl ? ->.
  eapply completes_bind.
  - apply completes_for_each
      with (Inv := fun rest (pv : Dict.t loc) s' =>
                     components s' = components s1 /\
                     length pv + length rest <= length (provides self)).
    + intros nv rest pv s' [E Hlen].
      eapply completes_weaken; [apply completes_provide|].
      intros [c0 pv'] s'' [E' Hl]. simpl in *. split; [congruence|lia].
    + split; [reflexivity|simpl; lia].
  - intros pv s2 (rest & E2 & Hlen).
    eapply completes_bind.
    + apply completes_for_each
        with (Inv := fun rest (_ : unit) s' =>
                       evolves s1 s' /\
                       Forall (fun np => Dict.mem (fst np) pv = true) rest).
      * intros [n l] rest0 [] s' [Hev Hrest].
        apply Forall_cons in Hrest. destruct Hrest as [Hn Hrest].
        simpl in Hn.
        destruct (evolves_lookup _ _ _ _ Hev Hj1) as (c' & Hc' & _ & _ & Hm').
        destruct (Hm' [] eq_refl) as (m' & Em' & _).
        eapply completes_bind.
        { eapply add_part_completes; [exact Hc'|exact Em'|exact Hn|].
          pose proof (todo_le_length pv m').
          destruct Hev as [_ Hev]. lia. }
        intros ? s'' Hev'. apply completes_ret. simpl.
        split; [eapply evolves_trans; eassumption|exact Hrest].
      * split; [apply evolves_same; exact E2|].
        apply Forall_forall. intros [n l] Hin. simpl.
        apply list_elem_of_In in Hin. exact (dict_in_mem _ _ _ Hin).
    + intros [] s3 (rest3 & Hev3 & _).
      eapply completes_bind; [apply completes_self_parts|].
      intros memo ? [-> (c3 & Hc3 & Em3)].
      eapply completes_bind; [apply completes_set_parts|].
      intros ? s4 (c4 & Hc4 & E4). rewrite Hc3 in Hc4. injection Hc4 as <-.
      apply completes_ret.
      pose proof (evolves_trans _ _ _ Hs1 Hev3) as [H3 P3].
      destruct (Forall2_lookup_l _ _ _ _ _ H3 Hself)
        as (c3' & Hc3' & Hn3 & Hp3 & _).
      rewrite Hc3 in Hc3'. injection Hc3' as <-.
      split.
      * rewrite E4. eapply Forall2_insert_r; [exact H3|exact Hself|].
        repeat split; simpl; try assumption.
        intros m Hm. rewrite Hparts in Hm. discriminate.
      * rewrite E4. pose proof (pending_insert _ _ _
          (mkComponent (cname c3) (version c3) (provides c3)
             (Some (List.filter (fun np => is_available (snd np)) memo)))
          Hc3) as H.
        unfold cost at 2 in H. simpl in H. lia.
Qed.

Lemma completes_check_dep (i : nat) (self : Component)
    (openssl : option nat) (pv : Dict.t loc) (dep_name : string)
    (acc : option loc * list string) (s0 s : state) (c0 : Component)
    (m0 : Dict.t (option loc)) :
  components s0 !! i = Some c0 -> _parts c0 = Some m0 ->
  todo pv m0 + pending (components s0) < fuel ->
  evolves s0 s ->
  completes s (check_dep add_part parts_of i self openssl pv dep_name acc)
    (fun _ s' => evolves s0 s').
Proof.
  intros Hi Hm Hfuel Hev. unfold check_dep.
  destruct (get_name_parts dep_name) as [|component_name [|part_name [|]]];
    try apply completes_raise.
  destruct (classify openssl dep_name component_name part_name)
    as [[required dep]|]; [|apply completes_ret; exact Hev].
  destruct (String.eqb (cname self) component_name).
  - destruct (Dict.get dep pv) as [dep_part|] eqn:Hdep.
    + destruct (evolves_lookup _ _ _ _ Hev Hi) as (c & Hc & _ & _ & Hg).
      destruct (Hg m0 Hm) as (m & Em & Hgrow).
      eapply completes_bind.
      { eapply add_part_completes;
          [exact Hc|exact Em|exact (dict_get_mem _ _ _ Hdep)|].
        pose proof (todo_mono pv _ _ Hgrow). destruct Hev as [_ Hev]. lia. }
      intros ? s1 Hev1.
      assert (Hev01 : evolves s0 s1) by (eapply evolves_trans; eassumption).
      eapply completes_bind; [apply completes_self_parts|].
      intros memo ? [-> _].
      destruct (Dict.get dep memo) as [[l|]|]; [| |apply completes_raise].
      * apply completes_ret. exact Hev01.
      * destruct required; apply completes_ret; exact Hev01.
    + destruct required; apply completes_ret; exact Hev.
  - eapply completes_bind; [apply completes_get_component|].
    intros other ? ->.
    eapply completes_bind with (Q := fun _ s' => evolves s0 s').
    + destruct other as [j|]; [|apply completes_ret; exact Hev].
      eapply completes_bind.
      { apply parts_of_completes. destruct Hev as [_ Hev]. lia. }
      intros ps s1 Hev1. apply completes_ret.
      eapply evolves_trans; eassumption.
    + intros provided s1 Hev1.
      destruct provided; [apply completes_ret; exact Hev1|].
      destruct required; apply completes_ret; exact Hev1.
Qed.

Lemma completes_add_part_body (i : nat) (name : string) (part : loc)
    (openssl : option nat) (pv : Dict.t loc) (s : state) (c : Component)
    (m : Dict.t (option loc)) :
  components s !! i = Some c -> _parts c = Some m ->
  Dict.mem name pv = true ->
  todo pv m + pending (components s) < S fuel ->
  completes s (_add_part_body add_part parts_of i name part openssl pv)
    (fun _ s' => evolves s s').
Proof.
  intros Hi Hm Hname Hfuel. unfold _add_part_body.
  eapply completes_bind; [apply completes_component|].
  intros self ? [-> Hself]. rewrite Hi in Hself. injection Hself as <-.
  eapply completes_bind; [apply completes_self_parts|].
  intros memo ? [-> (c' & Hc' & Em)].
  rewrite Hi in Hc'. injection Hc' as <-.
  rewrite Hm in Em. injection Em as <-.
  destruct (Dict.mem name m) eqn:Emem; [apply completes_ret, evolves_refl|].
  eapply completes_bind; [apply completes_set_parts|].
  intros ? s1 (c1 & Hc1 & E1). rewrite Hi in Hc1. injection Hc1 as <-.
  set (m1 := Dict.set name (Some part) m) in *.
  set (self1 := mkComponent (cname c) (version c) (provides c) (Some m1))
    in *.
  assert (Hcost : cost c = 0) by (unfold cost; rewrite Hm; reflexivity).
  assert (Hs1 : evolves s s1).
  { eapply evolves_update; [exact Hi| | |exact E1].
    - repeat split. intros m' Hm'. rewrite Hm in Hm'. injection Hm' as <-.
      exists m1. split; [reflexivity|]. intros x Hx. unfold m1.
      rewrite dict_mem_set, Hx. apply orb_true_r.
    - unfold cost. simpl. lia. }
  assert (Hi1 : components s1 !! i = Some self1).
  { rewrite E1. apply list_lookup_insert_eq. eapply lookup_lt_Some; eauto. }
  assert (Hfuel1 : todo pv m1 + pending (components s1) < fuel).
  { pose proof (todo_set pv m name (Some part) Hname Emem).
    destruct Hs1 as [_ Hs1]. fold m1 in H. lia. }
  eapply completes_bind; [apply completes_read|]. intros p ? ->.
  eapply completes_bind.
  - apply completes_for_each
      with (Inv := fun (_ : list string) (_ : option loc * list string) s' =>
                     evolves s1 s').
    + intros dep rest acc s' Hev.
      eapply (completes_check_dep i c openssl pv dep acc s1 s' self1 m1);
        [exact Hi1|reflexivity|exact Hfuel1|exact Hev].
    + apply evolves_refl.
  - intros r s2 (_ & Hev2).
    eapply completes_bind
      with (Q := fun _ s' => components s' = components s2).
    + destruct (fst r); [apply completes_write|apply completes_ret].
      reflexivity.
    + intros ? s3 E3.
      assert (Hev3 : evolves s1 s3).
      { eapply evolves_trans; [exact Hev2|apply evolves_same; exact E3]. }
      eapply completes_bind; [apply completes_self_parts|].
      intros memo3 ? [-> (c3 & Hc3 & Em3)].
      eapply completes_weaken; [apply completes_set_parts|].
      intros ? s4 (c4 & Hc4 & E4). simpl in *.
      rewrite Hc3 in Hc4. injection Hc4 as <-.
      eapply evolves_trans; [exact Hs1|].
      eapply evolves_trans; [exact Hev3|].
      eapply evolves_update; [exact Hc3| | |exact E4].
      * repeat split. intros m' Hm'. rewrite Em3 in Hm'.
        injection Hm' as <-. eexists. split; [reflexivity|].
        intros x Hx. rewrite dict_mem_set, Hx. apply orb_true_r.
      * unfold cost. simpl. lia.
Qed.

End BodyCompletion.

(** With a budget beyond the depth still ahead, the resolver completes. *)
Lemma resolver_completes (fuel : nat) :
  (forall j s,
     pending (components s) < fuel ->
     completes s (parts target fuel j) (fun _ s' => evolves s s')) /\
  (forall i name part openssl pv s c m,
     components s !! i = Some c -> _parts c = Some m ->
     Dict.mem name pv = true ->
     todo pv m + pending (components s) < fuel ->
     completes s (_add_part target fuel i name part openssl pv)
       (fun _ s' => evolves s s')).
Proof.
  induction fuel as [|fuel [IHparts IHadd]].
  - split; intros; lia.
  - split.
    + intros j s Hfuel. simpl.
      eapply completes_parts_body; [exact IHadd|exact Hfuel].
    + intros i name part openssl pv s c m Hi Hm Hname Hfuel. simpl.
      eapply completes_add_part_body; eassumption.
Qed.

End CompletionFacts.

(** ** Templates are never modified *)

Section TemplateFacts.

Import Parts Sysroot Session.

Lemma fresh_corresponds (s0 : state) (G : list Part) :
  fresh s0 ->
  state_rel (store s0) G s0 (mkState (store s0 ++ G) (components s0)).
Proof.
  intros H. split.
  - exists []. simpl. rewrite !app_nil_r. split; reflexivity.
  - simpl. unfold fresh in H. induction H as [|c cs [Hm Ht] _ IH];
      constructor; [|exact IH].
    repeat split; try assumption. rewrite Hm. constructor.
Qed.

Lemma observe_corresponding (T G : list Part)
    (o o' : outcome (Dict.t (option loc))) :
  outcome_rel T G (memo_rel T G) o o' -> observe o' = observe o.
Proof.
  destruct o as [d s|e s|s], o' as [d' s'|e' s'|s']; simpl;
    try contradiction.
  - intros [Hd Hs]. f_equal.
    induction Hd as [|[k v] [k' v'] d d' [Hk Hv] _ IH]; [reflexivity|].
    simpl in *. rewrite IH. subst k'. do 2 f_equal.
    destruct Hv as [l l' Hl|]; [|reflexivity].
    exact (copy_lookup T G s s' l l' Hs Hl).
  - intros [-> _]. reflexivity.
  - reflexivity.
Qed.

Lemma related_to_itself {A} (Q : A -> A -> Prop) (l : list A) (x : A) :
  Forall2 Q l l -> In x l -> Q x x.
Proof.
  induction l as [|y l IH]; intros H Hin; [contradiction|].
  inversion H; subst. destruct Hin as [<-|Hin]; auto.
Qed.

Lemma final_corresponding {A} (T G : list Part) (R : A -> A -> Prop)
    (o o' : outcome A) :
  outcome_rel T G R o o' -> state_rel T G (final o) (final o').
Proof.
  destruct o, o'; simpl; try contradiction; intuition.
Qed.

End TemplateFacts.

(** Claim C9.  In a fresh session, whatever the outcome of reading the
    [parts] property of a provider: the objects that existed before (the
    templates, with all their fields) are unchanged, the resolution having
    only added objects after them; every part in the table returned lies
    after the templates in the store, so it is a copy and never a template
    itself; and reading the property again in a new session over the same
    providers, with the objects the first run left, is observed to give
    the same result.  The run completes (it returns or raises) once the
    budget exceeds the depth of recursion the providers allow. *)
Theorem resolution_preserves_templates
    (target : Platforms.Architecture) (fuel i : nat) (s0 : Sysroot.state) :
  Session.fresh s0 ->
  let o := Sysroot.parts target fuel i s0 in
  (exists copies,
      Sysroot.store (Sysroot.final o) = Sysroot.store s0 ++ copies) /\
  (forall d s1 name l,
      o = Sysroot.Done d s1 -> In (name, Some l) d ->
      length (Sysroot.store s0) <= l) /\
  Session.observe
    (Sysroot.parts target fuel i (Session.restart s0 (Sysroot.final o)))
  = Session.observe o /\
  (Session.pending (Sysroot.components s0) < fuel ->
   Session.observe o <> Session.Unfinished).
Proof.
  intros Hfresh o.
  pose proof (proj1 (run_resolver (Sysroot.store s0) [] target fuel) i
                s0 _ (fresh_corresponds s0 [] Hfresh)) as Hself.
  rewrite app_nil_r in Hself.
  replace (Sysroot.mkState (Sysroot.store s0) (Sysroot.components s0))
    with s0 in Hself by (destruct s0; reflexivity).
  fold o in Hself.
  assert (Hgrow : exists copies,
             Sysroot.store (Sysroot.final o) = Sysroot.store s0 ++ copies).
  { destruct (final_corresponding _ _ _ _ _ Hself) as [(X & E & _) _].
    exists X. exact E. }
  split; [exact Hgrow|split; [|split]].
  - intros d s1 name l E Hin. rewrite E in Hself. simpl in Hself.
    destruct Hself as [Hd _].
    destruct (related_to_itself _ _ _ Hd Hin) as [_ Hl]. simpl in Hl.
    inversion Hl as [? ? [Hle _]|]. exact Hle.
  - destruct Hgrow as [copies E].
    apply (observe_corresponding (Sysroot.store s0) copies).
    unfold Session.restart. rewrite E.
    apply (proj1 (run_resolver (Sysroot.store s0) copies target fuel) i).
    apply fresh_corresponds. exact Hfresh.
  - intros Hfuel.
    pose proof (proj1 (resolver_completes target fuel) i s0 Hfuel) as H.
    unfold Session.completes in H. fold o in H.
    destruct o; simpl; [discriminate|discriminate|contradiction].
Qed.

Lemma resolution_preserves_templates_witness :
  let s0 := Scenario.session "B:?partZ" in
  let o := Sysroot.parts Platforms.Linux_x86_64 7 0 s0 in
  (exists copies,
      Sysroot.store (Sysroot.final o) = Sysroot.store s0 ++ copies) /\
  (forall d s1 name l,
      o = Sysroot.Done d s1 -> In (name, Some l) d ->
      length (Sysroot.store s0) <= l) /\
  Session.observe
    (Sysroot.parts Platforms.Linux_x86_64 7 0
       (Session.restart s0 (Sysroot.final o)))
  = Session.observe o /\
  (Session.pending (Sysroot.components s0) < 7 ->
   Session.observe o <> Session.Unfinished).
Proof.
  apply (resolution_preserves_templates Platforms.Linux_x86_64 7 0
           (Scenario.session "B:?partZ")).
  unfold Session.fresh, Session.templates_below. simpl.
  repeat constructor.
Defined.

(** * Further properties *)

(** ** Version numbers: the order between two version numbers *)

Section VersionOrderFacts.

Import VersionNumber.
Local Open Scope Z_scope.

Ltac int_split a b :=
  let H1 := fresh in let H2 := fresh in let H3 := fresh in
  destruct (int_tests a b) as (H1 & H2 & H3);
  rewrite ?H1, ?H2, ?H3; clear H1 H2 H3;
  destruct (a ?= b); simpl.

Local Abbreviation cmp := VersionNumberIO.compare.

(** All five operators against another [VersionNumber]. *)
Lemma operators_between_versions (v w : t) :
  op_eq v (OVersion w) = Ok (is_eq (cmp v w)) /\
  op_lt v (OVersion w) = Ok (is_lt (cmp v w)) /\
  op_le v (OVersion w) = Ok (is_le (cmp v w)) /\
  op_gt v (OVersion w) = Ok (is_gt (cmp v w)) /\
  op_ge v (OVersion w) = Ok (is_ge (cmp v w)).
Proof.
  cbv [VersionNumberIO.compare compare_at_precision Nat.leb op_eq op_lt op_le
       op_gt op_ge ordering __eq__ __lt__ __le__ __gt__ __ge__ strict
       inclusive _resolve_other rbind int_ne int_lt int_gt str_eq str_cmp].
  repeat split;
    int_split (major v) (major w); try reflexivity;
    int_split (minor v) (minor w); try reflexivity;
    int_split (patch v) (patch w); try reflexivity;
    rewrite ?str_eqb_compare; reflexivity.
Qed.

Lemma ascii_compare_N (a b : ascii) :
  Ascii.compare a b = N.compare (N_of_ascii a) (N_of_ascii b).
Proof. reflexivity. Qed.

Lemma str_compare_lt_trans (a b c : string) :
  String.compare a b = Lt -> String.compare b c = Lt ->
  String.compare a c = Lt.
Proof.
  revert b c. induction a as [|x a IH]; intros [|y b] [|z c]; simpl;
    try discriminate; try reflexivity.
  rewrite !ascii_compare_N.
  destruct (N.compare_spec (N_of_ascii x) (N_of_ascii y)) as [E1|L1|G1];
    try discriminate;
    destruct (N.compare_spec (N_of_ascii y) (N_of_ascii z)) as [E2|L2|G2];
    try discriminate; intros H1 H2.
  - rewrite E1, E2, N.compare_refl. eapply IH; eassumption.
  - rewrite E1. apply N.compare_lt_iff in L2. rewrite L2. reflexivity.
  - rewrite <- E2. apply N.compare_lt_iff in L1. rewrite L1. reflexivity.
  - assert (L : (N_of_ascii x < N_of_ascii z)%N) by lia.
    apply N.compare_lt_iff in L. rewrite L. reflexivity.
Qed.

Lemma cmp_eq_iff (v w : t) : cmp v w = Eq <-> v = w.
Proof.
  unfold VersionNumberIO.compare, compare_at_precision, lex. simpl. split.
  - destruct v as [a b c d], w as [a' b' c' d']. simpl.
    destruct (a ?= a') eqn:Ha; try discriminate.
    destruct (b ?= b') eqn:Hb; try discriminate.
    destruct (c ?= c') eqn:Hc; try discriminate.
    intros Hd.
    apply Z.compare_eq_iff in Ha, Hb, Hc.
    apply String.compare_eq_iff in Hd. congruence.
  - intros ->. rewrite !Z.compare_refl. apply str_compare_refl.
Qed.

Lemma cmp_antisym (v w : t) : cmp w v = CompOpp (cmp v w).
Proof.
  unfold VersionNumberIO.compare, compare_at_precision, lex. simpl.
  rewrite (Z.compare_antisym (major v) (major w)).
  rewrite (Z.compare_antisym (minor v) (minor w)).
  rewrite (Z.compare_antisym (patch v) (patch w)).
  rewrite (String.compare_antisym (suffix w) (suffix v)).
  destruct (major v ?= major w); simpl; try reflexivity.
  destruct (minor v ?= minor w); simpl; try reflexivity.
  destruct (patch v ?= patch w); simpl; reflexivity.
Qed.

Lemma cmp_lt_trans (u v w : t) :
  cmp u v = Lt -> cmp v w = Lt -> cmp u w = Lt.
Proof.
  unfold VersionNumberIO.compare, compare_at_precision, lex. simpl.
  destruct (Z.compare_spec (major u) (major v)) as [E1|L1|G1];
    try discriminate;
    destruct (Z.compare_spec (major v) (major w)) as [E2|L2|G2];
    try discriminate; intros H1 H2;
    [ | assert (L : major u < major w) by lia;
        apply Z.compare_lt_iff in L; rewrite L; reflexivity .. ].
  assert (E : major u = major w) by congruence.
  rewrite E, Z.compare_refl. clear E1 E2 E.
  destruct (Z.compare_spec (minor u) (minor v)) as [E1|L1|G1];
    try discriminate;
    destruct (Z.compare_spec (minor v) (minor w)) as [E2|L2|G2];
    try discriminate;
    [ | assert (L : minor u < minor w) by lia;
        apply Z.compare_lt_iff in L; rewrite L; reflexivity .. ].
  assert (E : minor u = minor w) by congruence.
  rewrite E, Z.compare_refl. clear E1 E2 E.
  destruct (Z.compare_spec (patch u) (patch v)) as [E1|L1|G1];
    try discriminate;
    destruct (Z.compare_spec (patch v) (patch w)) as [E2|L2|G2];
    try discriminate;
    [ | assert (L : patch u < patch w) by lia;
        apply Z.compare_lt_iff in L; rewrite L; reflexivity .. ].
  assert (E : patch u = patch w) by congruence.
  rewrite E, Z.compare_refl.
  eapply str_compare_lt_trans; eassumption.
Qed.

End VersionOrderFacts.

(** Property X1.
    The operators [==], [<], [<=], [>], [>=] between two version numbers
    are the five tests of the lexicographic comparison of (major, minor,
    patch, suffix); they never raise.  Two version numbers are [==]
    exactly when all four components are equal, and swapping the operands
    reverses the comparison (so [v < w] exactly when [w > v]). *)
Theorem versions_compare_lexicographically (v w : VersionNumber.t) :
  let c := VersionNumberIO.compare v w in
  VersionNumber.op_eq v (VersionNumber.OVersion w)
    = Ok (VersionNumber.is_eq c) /\
  VersionNumber.op_lt v (VersionNumber.OVersion w)
    = Ok (VersionNumber.is_lt c) /\
  VersionNumber.op_le v (VersionNumber.OVersion w)
    = Ok (VersionNumber.is_le c) /\
  VersionNumber.op_gt v (VersionNumber.OVersion w)
    = Ok (VersionNumber.is_gt c) /\
  VersionNumber.op_ge v (VersionNumber.OVersion w)
    = Ok (VersionNumber.is_ge c) /\
  (VersionNumber.op_eq v (VersionNumber.OVersion w) = Ok true <-> v = w) /\
  VersionNumberIO.compare w v = CompOpp c.
Proof.
  intros c.
  destruct (operators_between_versions v w) as (He & Hl & Hle & Hg & Hge).
  fold c in He, Hl, Hle, Hg, Hge.
  split; [exact He|]. split; [exact Hl|]. split; [exact Hle|].
  split; [exact Hg|]. split; [exact Hge|]. split; [|apply cmp_antisym].
  rewrite He. split.
  - intros H. apply cmp_eq_iff. fold c.
    destruct c; try discriminate H. reflexivity.
  - intros E. apply cmp_eq_iff in E. fold c in E. rewrite E. reflexivity.
Qed.

(** Property X2.
    [<] between version numbers is transitive. *)
Theorem version_less_than_transitive (u v w : VersionNumber.t) :
  VersionNumber.op_lt u (VersionNumber.OVersion v) = Ok true ->
  VersionNumber.op_lt v (VersionNumber.OVersion w) = Ok true ->
  VersionNumber.op_lt u (VersionNumber.OVersion w) = Ok true.
Proof.
  destruct (operators_between_versions u v) as (_ & -> & _).
  destruct (operators_between_versions v w) as (_ & -> & _).
  destruct (operators_between_versions u w) as (_ & -> & _).
  intros H1 H2.
  destruct (VersionNumberIO.compare u v) eqn:E1; try discriminate H1.
  destruct (VersionNumberIO.compare v w) eqn:E2; try discriminate H2.
  rewrite (cmp_lt_trans u v w E1 E2). reflexivity.
Qed.

Lemma version_less_than_transitive_witness :
  VersionNumber.op_lt (VersionNumber.mk 3 7 2 "")
    (VersionNumber.OVersion (VersionNumber.mk 3 8 0 "")) = Ok true.
Proof.
  exact (version_less_than_transitive (VersionNumber.mk 3 7 2 "")
           (VersionNumber.mk 3 7 2 "rc1") (VersionNumber.mk 3 8 0 "")
           eq_refl eq_refl).
Defined.

(** Property X3.
    A comparison tuple with no element or with more than four elements
    makes every operator raise [ValueError]; an operand of an unsupported
    type makes [==] answer [False] and the orderings raise [TypeError];
    and a string in the place of the major number makes [==] answer
    [False] and the orderings raise [TypeError]. *)
Theorem comparison_rejects_malformed_operands
    (v : VersionNumber.t) (l : list VersionNumber.elem) (s : string) :
  (length l = 0 \/ 4 < length l) ->
  (VersionNumber.op_eq v (VersionNumber.OTuple l) = Raise ValueError /\
   VersionNumber.op_lt v (VersionNumber.OTuple l) = Raise ValueError /\
   VersionNumber.op_le v (VersionNumber.OTuple l) = Raise ValueError /\
   VersionNumber.op_gt v (VersionNumber.OTuple l) = Raise ValueError /\
   VersionNumber.op_ge v (VersionNumber.OTuple l) = Raise ValueError) /\
  (VersionNumber.op_eq v VersionNumber.OUnsupported = Ok false /\
   VersionNumber.op_lt v VersionNumber.OUnsupported = Raise TypeError /\
   VersionNumber.op_le v VersionNumber.OUnsupported = Raise TypeError /\
   VersionNumber.op_gt v VersionNumber.OUnsupported = Raise TypeError /\
   VersionNumber.op_ge v VersionNumber.OUnsupported = Raise TypeError) /\
  (let rhs := VersionNumber.OTuple [VersionNumber.EStr s] in
   VersionNumber.op_eq v rhs = Ok false /\
   VersionNumber.op_lt v rhs = Raise TypeError /\
   VersionNumber.op_le v rhs = Raise TypeError /\
   VersionNumber.op_gt v rhs = Raise TypeError /\
   VersionNumber.op_ge v rhs = Raise TypeError).
Proof.
  intros Hl. split; [|split; [repeat split|repeat split]].
  assert (E : VersionNumber._resolve_other (VersionNumber.OTuple l)
              = Raise ValueError).
  { unfold VersionNumber._resolve_other.
    destruct Hl as [H|H].
    - rewrite H. reflexivity.
    - destruct (Nat.ltb_spec 4 (length l)) as [_|H']; [|lia].
      rewrite orb_true_r. reflexivity. }
  unfold VersionNumber.op_eq, VersionNumber.op_lt, VersionNumber.op_le,
    VersionNumber.op_gt, VersionNumber.op_ge, VersionNumber.ordering,
    VersionNumber.__eq__, VersionNumber.__lt__, VersionNumber.__le__,
    VersionNumber.__gt__, VersionNumber.__ge__, VersionNumber.strict,
    VersionNumber.inclusive.
  rewrite E. repeat split.
Qed.

Lemma comparison_rejects_malformed_operands_witness :
  VersionNumber.op_ge (VersionNumber.mk 3 7 2 "") (VersionNumber.OTuple [])
  = Raise ValueError.
Proof.
  exact (proj2 (proj2 (proj2 (proj2 (proj1
    (comparison_rejects_malformed_operands (VersionNumber.mk 3 7 2 "")
       [] "" (or_introl eq_refl))))))).
Defined.

(** ** Version numbers: parsing and printing *)

Section ParseFacts.

Import VersionNumber VersionNumberIO.
Local Open Scope Z_scope.

Lemma isdecimal_isdigit (ch : ascii) :
  Py.isdecimal ch = true -> Py.isdigit ch = true.
Proof.
  unfold Py.isdecimal, Py.isdigit. cbv zeta. intros ->. reflexivity.
Qed.

(** A digit is neither white space nor a sign, a dot or an underscore. *)
Lemma isdigit_plain (ch : ascii) :
  Py.isdigit ch = true ->
  Py.isspace ch = false /\ Ascii.eqb ch "-" = false /\
  Ascii.eqb ch "+" = false /\ Ascii.eqb ch "." = false /\
  (Py.isdecimal ch = false -> Ascii.eqb ch "_" = false).
Proof.
  destruct ch as [[] [] [] [] [] [] [] []]; vm_compute; intros H;
    try discriminate H; repeat split; intros; congruence.
Qed.

Lemma lstrip_plain (s : string) :
  Py.all (fun ch => negb (Py.isspace ch)) s = true -> Py.lstrip s = s.
Proof.
  destruct s as [|ch s]; [reflexivity|]. simpl.
  destruct (Py.isspace ch); [discriminate|reflexivity].
Qed.

Lemma rstrip_plain (s : string) :
  Py.all (fun ch => negb (Py.isspace ch)) s = true -> Py.rstrip s = s.
Proof.
  induction s as [|ch s IH]; [reflexivity|]. simpl.
  destruct (Py.isspace ch) eqn:E; [discriminate|]. simpl. intros H.
  rewrite (IH H). destruct s; reflexivity.
Qed.

Lemma all_weaken (f g : ascii -> bool) (s : string) :
  (forall ch, f ch = true -> g ch = true) ->
  Py.all f s = true -> Py.all g s = true.
Proof.
  intros Hfg. induction s as [|ch s IH]; [reflexivity|]. simpl.
  intros H. apply andb_true_iff in H as [H1 H2].
  rewrite (Hfg _ H1), (IH H2). reflexivity.
Qed.

Lemma all_app (f : ascii -> bool) (a b : string) :
  Py.all f (a ++ b) = Py.all f a && Py.all f b.
Proof.
  induction a as [|ch a IH]; [reflexivity|]. simpl. rewrite IH.
  apply andb_assoc.
Qed.

(** The digits [str] prints. *)
Lemma uint_decimal (d : Decimal.uint) :
  Py.all Py.isdecimal (DecimalString.NilEmpty.string_of_uint d) = true.
Proof. induction d; simpl; auto. Qed.

Lemma digits_acc (d : Decimal.uint) (p : positive) :
  Py.digits (Z.pos p) true (DecimalString.NilEmpty.string_of_uint d)
  = Some (Z.pos (Pos.of_uint_acc d p)).
Proof.
  revert p. induction d; intros p; [reflexivity|..];
    cbn [DecimalString.NilEmpty.string_of_uint Py.digits Pos.of_uint_acc];
    match goal with
    | |- context [Py.isdecimal ?c] =>
        change (Py.isdecimal c) with true; cbv iota
    end;
    rewrite <- IHd; f_equal; vm_compute N_of_ascii; lia.
Qed.

Lemma digits_uint (d : Decimal.uint) (after_digit : bool) :
  d <> Decimal.Nil \/ after_digit = true ->
  Py.digits 0 after_digit (DecimalString.NilEmpty.string_of_uint d)
  = Some (Z.of_N (Pos.of_uint d)).
Proof.
  revert after_digit. induction d; intros after_digit H.
  - destruct H as [H| ->]; [contradiction|reflexivity].
  - cbn [DecimalString.NilEmpty.string_of_uint Py.digits Pos.of_uint].
    change (Py.isdecimal "0") with true. cbv iota.
    change (10 * 0 + Z.of_N (N_of_ascii "0" - 48)) with 0.
    apply IHd. right. reflexivity.
  - cbn. apply (digits_acc d 1).
  - cbn. apply (digits_acc d 2).
  - cbn. apply (digits_acc d 3).
  - cbn. apply (digits_acc d 4).
  - cbn. apply (digits_acc d 5).
  - cbn. apply (digits_acc d 6).
  - cbn. apply (digits_acc d 7).
  - cbn. apply (digits_acc d 8).
  - cbn. apply (digits_acc d 9).
Qed.

Lemma str_shape (z : Z) :
  exists d, d <> Decimal.Nil /\ Z.of_N (Pos.of_uint d) = Z.abs z /\
    Py.str z = if z <? 0
               then String "-" (DecimalString.NilEmpty.string_of_uint d)
               else DecimalString.NilEmpty.string_of_uint d.
Proof.
  destruct z as [|p|p].
  - exists (Decimal.D0 Decimal.Nil). repeat split. discriminate.
  - exists (Pos.to_uint p). split; [apply DecimalPos.Unsigned.to_uint_nonnil|].
    split; [rewrite DecimalPos.Unsigned.of_to; reflexivity|].
    unfold Py.str. simpl.
    pose proof (DecimalPos.Unsigned.to_uint_nonnil p).
    destruct (Pos.to_uint p); [contradiction|reflexivity..].
  - exists (Pos.to_uint p). split; [apply DecimalPos.Unsigned.to_uint_nonnil|].
    split; [rewrite DecimalPos.Unsigned.of_to; reflexivity|].
    unfold Py.str. simpl.
    pose proof (DecimalPos.Unsigned.to_uint_nonnil p).
    destruct (Pos.to_uint p); [contradiction|reflexivity..].
Qed.

Lemma uint_first (d : Decimal.uint) :
  d <> Decimal.Nil ->
  exists ch s, DecimalString.NilEmpty.string_of_uint d = String ch s /\
    Py.isdecimal ch = true.
Proof.
  destruct d; [contradiction|..]; intros _; eexists _, _; split;
    reflexivity.
Qed.

Lemma decimal_not_space (s : string) :
  Py.all Py.isdecimal s = true ->
  Py.all (fun ch => negb (Py.isspace ch)) s = true.
Proof.
  apply all_weaken. intros ch H. apply isdecimal_isdigit in H.
  apply isdigit_plain in H as (-> & _). reflexivity.
Qed.

(** [int(str(n)) == n]. *)
Lemma int_str (z : Z) : Py.int (Py.str z) = Ok z.
Proof.
  destruct (str_shape z) as (d & Hd & Hv & ->).
  pose proof (uint_decimal d) as Hall.
  pose proof (decimal_not_space _ Hall) as Hns.
  destruct (uint_first d Hd) as (ch & s & E & Hch).
  pose proof (isdigit_plain ch (isdecimal_isdigit ch Hch))
    as (_ & Hm & Hp & _).
  unfold Py.int. destruct (Z.ltb_spec z 0) as [Hz|Hz].
  - rewrite lstrip_plain, rstrip_plain by (simpl; exact Hns).
    cbn [Str.startswith Ascii.eqb Bool.eqb Str.tail fst snd].
    rewrite digits_uint by (left; exact Hd). rewrite Hv.
    f_equal. lia.
  - rewrite lstrip_plain, rstrip_plain by exact Hns.
    rewrite E. unfold Str.startswith. rewrite Hm, Hp. cbn [fst snd].
    rewrite <- E. rewrite digits_uint by (left; exact Hd). rewrite Hv.
    f_equal. lia.
Qed.

Lemma convert_str (z : Z) : convert (Py.str z) = Ok z.
Proof. unfold convert. rewrite int_str. reflexivity. Qed.

Lemma all_no_char (f : ascii -> bool) (c : ascii) (s : string) :
  f c = false -> Py.all f s = true -> Str.contains c s = false.
Proof.
  intros Hc. induction s as [|a s IH]; [reflexivity|]. simpl.
  intros H. apply andb_true_iff in H as [H1 H2].
  destruct (Ascii.eqb_spec a c) as [->|_]; [congruence|]. auto.
Qed.

(** The printed form of an integer has no dot. *)
Lemma str_no_dot (z : Z) : Str.contains "." (Py.str z) = false.
Proof.
  destruct (str_shape z) as (d & _ & _ & ->).
  pose proof (uint_decimal d) as Hall.
  pose proof (all_no_char Py.isdecimal "." _ eq_refl Hall) as H.
  destruct (z <? 0); [simpl|]; exact H.
Qed.

(** The printed form of a number that is not negative is a non-empty
    string of digits. *)
Lemma str_digits (z : Z) :
  0 <= z -> Py.str z <> "" /\ Py.all Py.isdigit (Py.str z) = true.
Proof.
  intros Hz. destruct (str_shape z) as (d & Hd & _ & ->).
  destruct (Z.ltb_spec z 0) as [?|_]; [lia|].
  destruct (uint_first d Hd) as (ch & s & E & _). split.
  - rewrite E. discriminate.
  - eapply all_weaken; [apply isdecimal_isdigit|apply uint_decimal].
Qed.

(** Splitting at the separator that follows a field without one. *)
Lemma split_field (c : ascii) (a b : string) (k : nat) :
  Str.contains c a = false ->
  Py.split c (a ++ String c b) (S k) = a :: Py.split c b k.
Proof.
  induction a as [|x a IH]; simpl.
  - intros _. rewrite Ascii.eqb_refl. reflexivity.
  - destruct (Ascii.eqb x c); [discriminate|]. intros H.
    rewrite (IH H). reflexivity.
Qed.

Lemma split_exhausted (c : ascii) (s : string) : Py.split c s 0 = [s].
Proof. destruct s; reflexivity. Qed.

Lemma split_no_separator (c : ascii) (s : string) (n : nat) :
  Str.contains c s = false -> Py.split c s n = [s].
Proof.
  induction s as [|a s IH]; simpl; [reflexivity|].
  destruct n; [reflexivity|].
  destruct (Ascii.eqb a c); [discriminate|]. intros H.
  rewrite (IH H). reflexivity.
Qed.

Lemma split_length (c : ascii) (s : string) (n : nat) :
  (1 <= length (Py.split c s n) <= S n)%nat.
Proof.
  revert n. induction s as [|a s IH]; intros n; simpl; [lia|].
  destruct n; [simpl; lia|].
  destruct (Ascii.eqb a c).
  - specialize (IH n). simpl. lia.
  - specialize (IH (S n)). destruct (Py.split c s (S n)); simpl in *; lia.
Qed.

Lemma int_part_digits (a s : string) :
  Py.all Py.isdigit a = true ->
  int_part (a ++ s) = (a ++ int_part s)%string /\
  suffix_part (a ++ s) = suffix_part s.
Proof.
  induction a as [|ch a IH]; [split; reflexivity|]. simpl.
  intros H. apply andb_true_iff in H as [H1 H2]. rewrite H1.
  destruct (IH H2) as [-> ->]. split; reflexivity.
Qed.

Lemma int_part_none (s : string) :
  leading_digit s = false -> int_part s = "" /\ suffix_part s = s.
Proof.
  destruct s as [|ch s]; [split; reflexivity|]. simpl. intros ->.
  split; reflexivity.
Qed.

Lemma int_part_all (s : string) : Py.all Py.isdigit (int_part s) = true.
Proof.
  induction s as [|ch s IH]; [reflexivity|]. simpl.
  destruct (Py.isdigit ch) eqn:E; [|reflexivity]. simpl.
  rewrite E, IH. reflexivity.
Qed.

Lemma suffix_part_first (s : string) :
  leading_digit (suffix_part s) = false.
Proof.
  induction s as [|a s IH]; [reflexivity|]. simpl.
  destruct (Py.isdigit a) eqn:E; [exact IH|]. simpl. exact E.
Qed.

Lemma append_empty_r (s : string) : (s ++ "")%string = s.
Proof.
  induction s as [|ch s IH]; [reflexivity|].
  change (String ch (s ++ "") = String ch s)%string. rewrite IH.
  reflexivity.
Qed.

(** A version number whose patch number is not negative and whose suffix
    does not begin with a digit is read back from its printed form. *)
Lemma parse_printed (v : t) :
  0 <= patch v -> leading_digit (suffix v) = false ->
  parse_version_number (NStr (__str__ v)) = Ok v.
Proof.
  intros Hp Hs. unfold parse_version_number, __str__.
  change (Py.str (major v) ++ "." ++ Py.str (minor v) ++ "."
          ++ Py.str (patch v) ++ suffix v)%string
    with (Py.str (major v)
          ++ String "." (Py.str (minor v)
               ++ String "." (Py.str (patch v) ++ suffix v)))%string.
  rewrite split_field by apply str_no_dot.
  rewrite split_field by apply str_no_dot.
  rewrite split_exhausted.
  cbn [pop List.last removelast rbind fst snd].
  destruct (str_digits _ Hp) as [Hne Hall].
  destruct (int_part_digits _ (suffix v) Hall) as [E1 E2].
  destruct (int_part_none _ Hs) as [E3 E4].
  rewrite E1, E2, E3, E4, append_empty_r.
  destruct (String.eqb_spec (Py.str (patch v)) "") as [E|_];
    [contradiction|].
  cbn [negb rbind app length Nat.sub repeat].
  rewrite !convert_str. cbn [rbind]. destruct v; reflexivity.
Qed.

Lemma digits_nonneg (s : string) (acc : Z) (b : bool) (z : Z) :
  Py.digits acc b s = Some z -> 0 <= acc -> 0 <= z.
Proof.
  revert acc b. induction s as [|ch s IH]; intros acc b; simpl.
  - destruct b; [|discriminate]. intros [= <-]. auto.
  - destruct (Py.isdecimal ch).
    + intros H Hacc. apply (IH _ _ H). lia.
    + destruct (Ascii.eqb ch "_"); [|discriminate].
      destruct b; [|discriminate]. apply IH.
Qed.

(** What [int] makes of a string of digits is not negative. *)
Lemma int_digits_nonneg (s : string) (z : Z) :
  Py.all Py.isdigit s = true -> Py.int s = Ok z -> 0 <= z.
Proof.
  intros Hall. unfold Py.int.
  assert (Hns : Py.all (fun ch => negb (Py.isspace ch)) s = true).
  { eapply all_weaken; [|exact Hall]. intros ch H.
    apply isdigit_plain in H as (-> & _). reflexivity. }
  rewrite lstrip_plain, rstrip_plain by exact Hns.
  assert (Hm : Str.startswith "-" s = false /\
               Str.startswith "+" s = false).
  { destruct s as [|ch s]; [split; reflexivity|]. simpl in Hall.
    apply andb_true_iff in Hall as [H _]. unfold Str.startswith.
    apply isdigit_plain in H as (_ & -> & -> & _). split; reflexivity. }
  destruct Hm as [-> ->]. cbn [fst snd].
  destruct (Py.digits 0 false s) as [z'|] eqn:E; [|discriminate].
  intros [= <-]. apply (digits_nonneg _ _ _ _ E). lia.
Qed.

Lemma convert_cases (s : string) :
  convert s = Raise UserException \/ exists z, convert s = Ok z.
Proof.
  unfold convert, Py.int.
  destruct (Py.digits _ _ _); [right; eexists; reflexivity|left; reflexivity].
Qed.

(** The three fields [parse_version_number] converts: the last one is
    the integer part of the last part of the string, or the padding. *)
Lemma parse_fields (s : string) :
  parse_version_number (NStr s) = Raise UserException \/
  exists a b c last,
    (c = "0"%string \/ c = int_part last) /\
    parse_version_number (NStr s)
    = rbind (convert a) (fun M =>
      rbind (convert b) (fun m =>
      rbind (convert c) (fun p =>
      Ok (mk M m p (suffix_part last))))).
Proof.
  unfold parse_version_number.
  pose proof (split_length "." s 2) as Hlen.
  destruct (Py.split "." s 2) as [|x [|y [|z [|w l]]]];
    cbn [length] in Hlen; try lia;
    cbn [pop List.last removelast rbind fst snd];
    match goal with
    | |- context [int_part ?last] =>
        destruct (String.eqb (int_part last) "");
        cbn [negb rbind app length Nat.sub repeat Nat.eqb];
        first [ left; reflexivity
              | right; eexists _, _, _, last; split;
                [|reflexivity]; auto ]
    end.
Qed.

(** A version number read from a string has a patch number that is not
    negative and a suffix that does not begin with a digit. *)
Lemma parsed_shape (s : string) (v : t) :
  parse_version_number (NStr s) = Ok v ->
  0 <= patch v /\ leading_digit (suffix v) = false.
Proof.
  destruct (parse_fields s) as [->|(a & b & c & last & Hc & ->)];
    [discriminate|].
  destruct (convert a) as [M|]; [|discriminate].
  destruct (convert b) as [m|]; [|discriminate].
  destruct (convert c) as [p|] eqn:Ec; [|discriminate].
  cbn [rbind]. intros [= <-]. cbn [patch suffix].
  split; [|apply suffix_part_first].
  destruct Hc as [->| ->].
  - vm_compute in Ec. injection Ec as <-. lia.
  - unfold convert in Ec.
    destruct (Py.int (int_part last)) as [z|e] eqn:Ei.
    + injection Ec as <-.
      exact (int_digits_nonneg _ _ (int_part_all last) Ei).
    + destruct e; discriminate Ec.
Qed.

End ParseFacts.

(** Property X4.
    A version number whose patch number is not negative and whose suffix
    does not begin with a digit is read back unchanged from the string
    [__str__] prints for it: [parse_version_number(str(v)) == v] on all
    four components.  The major and minor numbers may be negative. *)
Theorem printed_version_parses_back (v : VersionNumber.t) :
  (0 <= VersionNumber.patch v)%Z ->
  VersionNumberIO.leading_digit (VersionNumber.suffix v) = false ->
  VersionNumberIO.parse_version_number
    (VersionNumberIO.NStr (VersionNumberIO.__str__ v)) = Ok v.
Proof. apply parse_printed. Qed.

Lemma printed_version_parses_back_witness :
  VersionNumberIO.parse_version_number
    (VersionNumberIO.NStr
       (VersionNumberIO.__str__ (VersionNumber.mk 3 (-1) 2 "rc1")))
  = Ok (VersionNumber.mk 3 (-1) 2 "rc1").
Proof.
  exact (printed_version_parses_back (VersionNumber.mk 3 (-1) 2 "rc1")
           ltac:(simpl; lia) eq_refl).
Defined.

(** Property X5.
    Whatever [parse_version_number] reads from a string is stable under
    printing and reading again (as the Manifest file of a sysroot is
    written and read): the version number it returns has a patch number
    that is not negative and a suffix that does not begin with a digit,
    and parsing its printed form returns it again. *)
Theorem parsed_version_is_stable (s : string) (v : VersionNumber.t) :
  VersionNumberIO.parse_version_number (VersionNumberIO.NStr s) = Ok v ->
  (0 <= VersionNumber.patch v)%Z /\
  VersionNumberIO.leading_digit (VersionNumber.suffix v) = false /\
  VersionNumberIO.parse_version_number
    (VersionNumberIO.NStr (VersionNumberIO.__str__ v)) = Ok v.
Proof.
  intros H. destruct (parsed_shape s v H) as [Hp Hs].
  split; [exact Hp|]. split; [exact Hs|]. apply parse_printed; assumption.
Qed.

Lemma parsed_version_is_stable_witness :
  VersionNumberIO.parse_version_number
    (VersionNumberIO.NStr
       (VersionNumberIO.__str__ (VersionNumber.mk 3 7 0 "rc1")))
  = Ok (VersionNumber.mk 3 7 0 "rc1").
Proof.
  exact (proj2 (proj2
    (parsed_version_is_stable "3.7rc1" (VersionNumber.mk 3 7 0 "rc1")
       eq_refl))).
Defined.

Section ParseEdgeFacts.

Import VersionNumber VersionNumberIO.
Local Open Scope Z_scope.

Lemma contains_app (c : ascii) (a b : string) :
  Str.contains c (a ++ b) = Str.contains c a || Str.contains c b.
Proof.
  induction a as [|x a IH]; [reflexivity|].
  change (Str.contains c (String x (a ++ b))
          = Str.contains c (String x a) || Str.contains c b).
  simpl. destruct (Ascii.eqb x c); [reflexivity|exact IH].
Qed.

Lemma parse_without_major (s : string) :
  Str.contains "." s = false -> leading_digit s = false ->
  parse_version_number (NStr s) = Raise UserException.
Proof.
  intros Hd Hl. unfold parse_version_number.
  rewrite (split_no_separator _ _ _ Hd).
  cbn [pop List.last removelast rbind fst snd].
  destruct (int_part_none _ Hl) as [-> _]. reflexivity.
Qed.

Lemma parse_outcomes (s : string) :
  parse_version_number (NStr s) = Raise UserException \/
  exists v, parse_version_number (NStr s) = Ok v.
Proof.
  destruct (parse_fields s) as [H|(a & b & c & last & _ & ->)];
    [left; exact H|].
  destruct (convert_cases a) as [->|[M ->]]; [left; reflexivity|].
  destruct (convert_cases b) as [->|[m ->]]; [left; reflexivity|].
  destruct (convert_cases c) as [->|[p ->]]; [left; reflexivity|].
  right. eexists. reflexivity.
Qed.

Lemma parse_major_only (M : Z) (x : string) :
  0 <= M -> Str.contains "." x = false -> leading_digit x = false ->
  parse_version_number (NStr (Py.str M ++ x)) = Ok (mk M 0 0 x).
Proof.
  intros HM Hd Hl. unfold parse_version_number.
  rewrite split_no_separator
    by (rewrite contains_app, str_no_dot, Hd; reflexivity).
  cbn [pop List.last removelast rbind fst snd].
  destruct (str_digits _ HM) as [Hne Hall].
  destruct (int_part_digits _ x Hall) as [-> ->].
  destruct (int_part_none _ Hl) as [-> ->]. rewrite append_empty_r.
  destruct (String.eqb_spec (Py.str M) "") as [E|_]; [contradiction|].
  cbn [negb rbind app length Nat.sub repeat].
  rewrite convert_str. reflexivity.
Qed.

Lemma parse_major_minor (M m : Z) (x : string) :
  0 <= m -> Str.contains "." x = false -> leading_digit x = false ->
  parse_version_number (NStr (Py.str M ++ "." ++ Py.str m ++ x))
  = Ok (mk M m 0 x).
Proof.
  intros Hm Hd Hl. unfold parse_version_number.
  change (Py.str M ++ "." ++ Py.str m ++ x)%string
    with (Py.str M ++ String "." (Py.str m ++ x))%string.
  rewrite split_field by apply str_no_dot.
  rewrite split_no_separator
    by (rewrite contains_app, str_no_dot, Hd; reflexivity).
  cbn [pop List.last removelast rbind fst snd].
  destruct (str_digits _ Hm) as [Hne Hall].
  destruct (int_part_digits _ x Hall) as [-> ->].
  destruct (int_part_none _ Hl) as [-> ->]. rewrite append_empty_r.
  destruct (String.eqb_spec (Py.str m) "") as [E|_]; [contradiction|].
  cbn [negb rbind app length Nat.sub repeat].
  rewrite !convert_str. reflexivity.
Qed.

End ParseEdgeFacts.

(** Property X6.
    [parse_version_number] applied to a string either returns a version
    number or raises [UserException]: the [ValueError] of [int()] never
    escapes and no index is out of range.  A string without a dot that
    does not begin with a digit (the empty string included) has no major
    number and is rejected. *)
Theorem parse_failure_is_user_exception (s : string) :
  (VersionNumberIO.parse_version_number (VersionNumberIO.NStr s)
     = Raise UserException \/
   exists v,
     VersionNumberIO.parse_version_number (VersionNumberIO.NStr s) = Ok v) /\
  (Str.contains "." s = false ->
   VersionNumberIO.leading_digit s = false ->
   VersionNumberIO.parse_version_number (VersionNumberIO.NStr s)
     = Raise UserException).
Proof.
  split; [apply parse_outcomes|apply parse_without_major].
Qed.

Lemma parse_failure_is_user_exception_witness :
  VersionNumberIO.parse_version_number (VersionNumberIO.NStr "rc1")
  = Raise UserException.
Proof.
  exact (proj2 (parse_failure_is_user_exception "rc1") eq_refl eq_refl).
Defined.

(** Property X7.
    Missing minor and patch numbers default to zero: a string made of
    the major number and a suffix reads as [major.0.0suffix], and a
    string made of major and minor numbers and a suffix reads as
    [major.minor.0suffix], for a suffix without a dot that does not begin
    with a digit. *)
Theorem missing_numbers_default_to_zero (M m : Z) (x : string) :
  (0 <= M)%Z -> (0 <= m)%Z ->
  Str.contains "." x = false ->
  VersionNumberIO.leading_digit x = false ->
  VersionNumberIO.parse_version_number
    (VersionNumberIO.NStr (Py.str M ++ x))
  = Ok (VersionNumber.mk M 0 0 x) /\
  VersionNumberIO.parse_version_number
    (VersionNumberIO.NStr (Py.str M ++ "." ++ Py.str m ++ x))
  = Ok (VersionNumber.mk M m 0 x).
Proof.
  intros HM Hm Hd Hl. split.
  - apply parse_major_only; assumption.
  - apply parse_major_minor; assumption.
Qed.

Lemma missing_numbers_default_to_zero_witness :
  VersionNumberIO.parse_version_number (VersionNumberIO.NStr "3.7rc1")
  = Ok (VersionNumber.mk 3 7 0 "rc1").
Proof.
  exact (proj2 (missing_numbers_default_to_zero 3 7 "rc1"
                  ltac:(lia) ltac:(lia) eq_refl eq_refl)).
Defined.

(** Property X8.
    An encoded integer is decoded into three numbers between 0 and 255
    and an empty suffix; the integer [0xMMmmpp] decodes to [MM.mm.pp],
    and the bits above the low 24 are ignored. *)
Theorem encoded_version_decoded (n M m p k : Z) :
  (0 <= M <= 255)%Z -> (0 <= m <= 255)%Z -> (0 <= p <= 255)%Z ->
  (exists v,
     VersionNumberIO.parse_version_number (VersionNumberIO.NInt n) = Ok v /\
     (0 <= VersionNumber.major v <= 255)%Z /\
     (0 <= VersionNumber.minor v <= 255)%Z /\
     (0 <= VersionNumber.patch v <= 255)%Z /\
     VersionNumber.suffix v = "") /\
  VersionNumberIO.parse_version_number
    (VersionNumberIO.NInt (M * 65536 + m * 256 + p + k * 16777216))
  = Ok (VersionNumber.mk M m p "").
Proof.
  intros HM Hm Hp.
  assert (Hland : forall a, Z.land a 255 = (a mod 256)%Z).
  { intros a. change 255%Z with (Z.ones 8).
    rewrite Z.land_ones by lia. reflexivity. }
  unfold VersionNumberIO.parse_version_number. split.
  - eexists. split; [reflexivity|]. cbn [VersionNumber.major
      VersionNumber.minor VersionNumber.patch VersionNumber.suffix].
    rewrite !Hland.
    repeat split; try apply Z.mod_pos_bound; try lia;
      match goal with
      | |- (?a mod 256 <= 255)%Z =>
          pose proof (Z.mod_pos_bound a 256 ltac:(lia)); lia
      end.
  - rewrite !Hland, !Z.shiftr_div_pow2 by lia.
    change (2 ^ 16)%Z with 65536%Z. change (2 ^ 8)%Z with 256%Z.
    f_equal. f_equal; Z.div_mod_to_equations; lia.
Qed.

Lemma encoded_version_decoded_witness :
  VersionNumberIO.parse_version_number (VersionNumberIO.NInt 198402)
  = Ok (VersionNumber.mk 3 7 2 "").
Proof.
  exact (proj2 (encoded_version_decoded 0 3 7 2 0
                  ltac:(lia) ltac:(lia) ltac:(lia))).
Defined.

(** ** Platforms and architectures *)

(** Property X9.
    The registry lookups invert the names: an architecture name selects
    that architecture, a platform name selects that platform, and a
    platform name given where an architecture is expected selects the
    first architecture registered for the platform. *)
Theorem registry_lookups_invert_names
    (a : Platforms.Architecture) (p : Platforms.Platform) :
  Platforms.architecture (Platforms.arch_name a) = Ok a /\
  Platforms.platform (Platforms.platform_name p) = Ok p /\
  exists b,
    Platforms.architecture (Platforms.platform_name p) = Ok b /\
    find (fun c => Platforms.platform_is (Platforms.arch_platform c) p)
      Platforms.all_architectures = Some b.
Proof.
  split; [destruct a; reflexivity|].
  split; [destruct p; reflexivity|].
  destruct p; eexists; split; reflexivity.
Qed.

(** Property X10.
    The single-name forms of a target predicate.  A platform name covers
    exactly the architectures of that platform; ['!'] before a platform
    name covers exactly the others; an architecture name covers exactly
    that architecture; ['!'] before an architecture name is rejected with
    [UserException]; an empty string and an empty sequence cover every
    architecture. *)
Theorem single_name_predicates
    (a b : Platforms.Architecture) (p : Platforms.Platform) :
  Platforms.is_targeted a (Platforms.TStr (Platforms.platform_name p))
    = Ok (Platforms.platform_is (Platforms.arch_platform a) p) /\
  Platforms.is_targeted a
    (Platforms.TStr ("!" ++ Platforms.platform_name p))
    = Ok (negb (Platforms.platform_is (Platforms.arch_platform a) p)) /\
  Platforms.is_targeted a (Platforms.TStr (Platforms.arch_name b))
    = Ok (Platforms.arch_is a b) /\
  Platforms.is_targeted a (Platforms.TStr ("!" ++ Platforms.arch_name b))
    = Raise UserException /\
  Platforms.is_targeted a (Platforms.TStr "") = Ok true /\
  Platforms.is_targeted a (Platforms.TSeq []) = Ok true /\
  (Platforms.arch_is a b = true <-> a = b) /\
  (Platforms.platform_is (Platforms.arch_platform a) p = true
   <-> Platforms.arch_platform a = p).
Proof.
  split; [destruct a, p; reflexivity|].
  split; [destruct a, p; reflexivity|].
  split; [destruct a, b; reflexivity|].
  split; [destruct b; reflexivity|].
  split; [reflexivity|]. split; [reflexivity|].
  split.
  - destruct a, b; split; intros H; try reflexivity; discriminate H.
  - destruct a, p; split; intros H; try reflexivity; discriminate H.
Qed.

(** Property X11.
    The hosts of a target.  [verify_as_host] accepts a host for a target
    exactly when the host is a Linux, macOS or Windows architecture and
    the target is the host itself, or the target is an Android
    architecture and the host is one of linux-64, macos-64, win-32 and
    win-64, or the target is ios-64 and the host is macos-64; otherwise it
    raises [UserException].  An Android or iOS architecture hosts nothing,
    itself included, and the only warning is the one for a Windows host
    of an Android target. *)
Theorem hosts_of_a_target (h t : Platforms.Architecture) :
  ((exists w, Hosts.verify_as_host h t = Ok w) <->
   (h = t /\ Platforms.arch_platform h <> Platforms.Android
          /\ Platforms.arch_platform h <> Platforms.iOS) \/
   (Platforms.arch_platform t = Platforms.Android /\
    (h = Platforms.Linux_x86_64 \/ h = Platforms.macOS_x86_64 \/
     Platforms.arch_platform h = Platforms.Windows)) \/
   (Platforms.arch_platform t = Platforms.iOS /\
    h = Platforms.macOS_x86_64)) /\
  (Hosts.verify_as_host h t = Raise UserException \/
   Hosts.verify_as_host h t = Ok [] \/
   (Platforms.arch_platform h = Platforms.Windows /\
    Platforms.arch_platform t = Platforms.Android /\
    Hosts.verify_as_host h t
    = Ok ["using Windows to host Android deployment is untested"])).
Proof.
  split.
  - destruct h, t; unfold Hosts.verify_as_host; simpl;
      (split;
       [ intros [w H]; try discriminate H;
         first [ left; repeat split; (reflexivity || discriminate)
               | right; left; split; [reflexivity|];
                 first [ left; reflexivity
                       | right; left; reflexivity
                       | right; right; reflexivity ]
               | right; right; split; reflexivity ]
       | intros [(H1 & H2 & H3)|[(H1 & [H2|[H2|H2]])|(H1 & H2)]];
         try discriminate; try congruence;
         try (eexists; reflexivity) ]).
  - destruct h, t; unfold Hosts.verify_as_host; simpl;
      first [ left; reflexivity
            | right; left; reflexivity
            | right; right; repeat split ].
Qed.

Section HostFacts.

Import Platforms Hosts.

Lemma msvc_optional (env : environ) :
  msvc_target env true = Ok None \/
  msvc_target env true = Ok (Some "32") \/
  msvc_target env true = Ok (Some "64").
Proof.
  unfold msvc_target.
  destruct (String.eqb _ "0"); [left; reflexivity|].
  destruct (String.eqb _ "14").
  { destruct (differs _ _); auto. }
  destruct (Str.mem _ _); [|left; reflexivity].
  destruct (differs _ _); auto.
Qed.

Lemma host_name_cases (get_platform : string) (env : environ) (n : string) :
  host_name get_platform env = Ok n ->
  In n ["linux-32"; "linux-64"; "macos-32"; "macos-64"; "win-32"; "win-64"].
Proof.
  unfold host_name.
  destruct (String.eqb _ "linux").
  { destruct (_ !! 1); [|discriminate].
    destruct (String.eqb _ _); intros [= <-]; simpl; auto. }
  destruct (String.eqb _ "macosx").
  { destruct (_ !! 2); [|discriminate].
    destruct (String.eqb _ _); intros [= <-]; simpl; auto. }
  destruct (Str.mem _ _); [|discriminate].
  destruct (msvc_optional env) as [->|[->| ->]]; cbn [rbind].
  - destruct (_ && _); intros [= <-]; simpl; auto 10.
  - intros [= <-]; simpl; auto 10.
  - intros [= <-]; simpl; auto 10.
Qed.

End HostFacts.

(** Property X12.
    The host architecture.  When [Architecture.architecture()] determines
    the host it returns one of linux-32, linux-64, macos-64, win-32 and
    win-64, never an Android or iOS architecture; a platform string whose
    first field is not [linux], [macosx], [win32] or [win] is rejected
    with [UserException]; and so is a [macosx] platform string whose
    machine field is not [x86_64], because the name [macos-32] it leads to
    is not a registered architecture. *)
Theorem host_is_a_desktop_architecture (env : Hosts.environ) :
  (forall gp a,
     Hosts.host_architecture gp env = Ok a ->
     In a [Platforms.Linux_x86_32; Platforms.Linux_x86_64;
           Platforms.macOS_x86_64; Platforms.Windows_x86_32;
           Platforms.Windows_x86_64]) /\
  (forall gp,
     Str.mem (nth 0 (Str.split "-" gp) "")
       ["linux"; "macosx"; "win32"; "win"] = false ->
     Hosts.host_architecture gp env = Raise UserException) /\
  (forall release machine,
     Str.contains "-" release = false ->
     Str.contains "-" machine = false ->
     String.eqb machine "x86_64" = false ->
     Hosts.host_architecture ("macosx-" ++ release ++ "-" ++ machine) env
     = Raise UserException).
Proof.
  split; [|split].
  - intros get_platform a H. unfold Hosts.host_architecture in H.
    destruct (Hosts.host_name get_platform env) as [n|e] eqn:E;
      [|discriminate H].
    apply host_name_cases in E. cbn [rbind] in H. simpl in E.
    destruct E as [<-|[<-|[<-|[<-|[<-|[<-|[]]]]]]];
      vm_compute in H; try discriminate H; injection H as <-;
      simpl; auto 10.
  - intros gp Hgp. unfold Hosts.host_architecture, Hosts.host_name.
    unfold Str.mem in Hgp. cbn [existsb] in Hgp.
    apply orb_false_iff in Hgp as [H1 Hgp].
    apply orb_false_iff in Hgp as [H2 Hgp].
    apply orb_false_iff in Hgp as [H3 Hgp].
    apply orb_false_iff in Hgp as [H4 _].
    rewrite H1, H2. unfold Str.mem. cbn [existsb].
    rewrite H3, H4. reflexivity.
  - intros release machine Hr Hm Hx.
    unfold Hosts.host_architecture, Hosts.host_name.
    assert (E : Str.split "-" ("macosx-" ++ release ++ "-" ++ machine)
                = ["macosx"; release; machine]).
    { change ("macosx-" ++ release ++ "-" ++ machine)%string
        with ("macosx" ++ String "-" (release ++ String "-" machine))%string.
      assert (S : forall a b, Str.contains "-" a = false ->
                Str.split "-" (a ++ String "-" b) = a :: Str.split "-" b).
      { intros x y. induction x as [|c x IH]; simpl.
        - reflexivity.
        - destruct (Ascii.eqb c "-"); [discriminate|]. intros Hc.
          rewrite (IH Hc). reflexivity. }
      rewrite S by reflexivity. rewrite S by exact Hr.
      rewrite (split_without_separator _ _ Hm). reflexivity. }
    rewrite E. cbn [nth lookup list_lookup]. simpl String.eqb at 1 2.
    cbv iota. rewrite Hx. reflexivity.
Qed.

Lemma host_is_a_desktop_architecture_witness :
  In Platforms.Linux_x86_64
    [Platforms.Linux_x86_32; Platforms.Linux_x86_64;
     Platforms.macOS_x86_64; Platforms.Windows_x86_32;
     Platforms.Windows_x86_64].
Proof.
  exact (proj1 (host_is_a_desktop_architecture
                  (Hosts.mkEnviron None None None))
           "linux-x86_64" Platforms.Linux_x86_64 eq_refl).
Defined.

(** ** Names of parts *)

Section ScopedNameFacts.

Import Parts.

Lemma split1_scoped (n : string) :
  Str.contains ":" n = true ->
  exists c u, Str.split1 ":" n = [c; u] /\ get_name c u = n /\
    Str.contains ":" c = false.
Proof.
  unfold get_name. induction n as [|x n IH]; simpl; [discriminate|].
  destruct (Ascii.eqb_spec x ":") as [->|Hx].
  - intros _. exists "", n. repeat split.
  - intros H. destruct (IH H) as (c & u & -> & E & Hc).
    exists (String x c), u. simpl. rewrite <- E.
    destruct (Ascii.eqb_spec x ":"); [contradiction|]. repeat split.
    exact Hc.
Qed.

Lemma split1_unscoped (n : string) :
  Str.contains ":" n = false -> Str.split1 ":" n = [n].
Proof.
  induction n as [|x n IH]; simpl; [reflexivity|].
  destruct (Ascii.eqb x ":"); [discriminate|]. intros H.
  rewrite (IH H). reflexivity.
Qed.

Lemma get_name_scoped (c u : string) : is_scoped_name (get_name c u) = true.
Proof.
  unfold is_scoped_name, get_name. induction c as [|x c IH]; [reflexivity|].
  change (Str.contains ":" (String x (c ++ ":" ++ u)) = true). simpl.
  destruct (Ascii.eqb x ":"); [reflexivity|exact IH].
Qed.

End ScopedNameFacts.

(** Property X13.
    Scoped names.  [get_name] followed by [get_name_parts] gives back
    the provider name and the unscoped name, provided the provider name
    has no colon, and the name [get_name] builds is always scoped;
    conversely a scoped name is split at its first colon into two parts
    from which [get_name] rebuilds it.  A name without a colon is its own
    single part, so [get_unscoped_name] raises [IndexError] for it and
    [get_component_name] returns the whole name. *)
Theorem scoped_names_round_trip (c u n : string) :
  Str.contains ":" c = false ->
  (Parts.get_name_parts (Parts.get_name c u) = [c; u] /\
   PartNames.get_component_name (Parts.get_name c u) = Ok c /\
   Parts.get_unscoped_name (Parts.get_name c u) = Ok u /\
   Parts.is_scoped_name (Parts.get_name c u) = true) /\
  (Parts.is_scoped_name n = true ->
   exists c' u',
     Parts.get_name_parts n = [c'; u'] /\ Parts.get_name c' u' = n /\
     Str.contains ":" c' = false) /\
  (Parts.is_scoped_name n = false ->
   Parts.get_name_parts n = [n] /\
   Parts.get_unscoped_name n = Raise IndexError /\
   PartNames.get_component_name n = Ok n).
Proof.
  intros Hc. split; [|split].
  - unfold PartNames.get_component_name, Parts.get_unscoped_name.
    rewrite (get_name_parts_get_name c u Hc).
    repeat split. apply get_name_scoped.
  - apply split1_scoped.
  - intros H. unfold PartNames.get_component_name, Parts.get_unscoped_name,
      Parts.get_name_parts.
    rewrite (split1_unscoped n H). repeat split.
Qed.

Lemma scoped_names_round_trip_witness :
  Parts.get_name_parts (Parts.get_name "Python" "os.path")
  = ["Python"; "os.path"].
Proof.
  exact (proj1 (proj1 (scoped_names_round_trip "Python" "os.path" ""
                         eq_refl))).
Defined.

(** ** The search path *)

Section SearchPathFacts.

Lemma split_first_field (c : ascii) (a b : string) :
  Str.contains c a = false ->
  Str.split c (a ++ String c b) = a :: Str.split c b.
Proof.
  induction a as [|x a IH]; simpl.
  - rewrite Ascii.eqb_refl. reflexivity.
  - destruct (Ascii.eqb x c); [discriminate|]. intros H.
    rewrite (IH H). reflexivity.
Qed.

(** Joining the fields of a string with the separator gives the string
    back. *)
Lemma join_split (c : ascii) (s : string) :
  Str.join (String c "") (Str.split c s) = s.
Proof.
  induction s as [|x s IH]; [reflexivity|]. simpl.
  destruct (Ascii.eqb_spec x c) as [->|Hx].
  - pose proof (split_nonempty c s) as Hne.
    destruct (Str.split c s) as [|f fs] eqn:E; [contradiction|].
    change (Str.join (String c "") ("" :: f :: fs))
      with (String c (Str.join (String c "") (f :: fs))).
    rewrite IH. reflexivity.
  - pose proof (split_nonempty c s) as Hne.
    destruct (Str.split c s) as [|f fs] eqn:E; [contradiction|].
    destruct fs as [|g fs].
    + simpl in IH. simpl. rewrite IH. reflexivity.
    + change (Str.join (String c "") (String x f :: g :: fs))
        with (String x (f ++ String c (Str.join (String c "") (g :: fs)))).
      change (Str.join (String c "") (f :: g :: fs))
        with (f ++ String c (Str.join (String c "") (g :: fs)))%string in IH.
      rewrite IH. reflexivity.
Qed.

Lemma join_cons (c : ascii) (x s : string) :
  Str.join (String c "") (x :: Str.split c s) = (x ++ String c s)%string.
Proof.
  pose proof (split_nonempty c s) as Hne. pose proof (join_split c s) as J.
  destruct (Str.split c s) as [|f fs] eqn:E; [contradiction|].
  change (Str.join (String c "") (x :: f :: fs))
    with (x ++ String c (Str.join (String c "") (f :: fs)))%string.
  rewrite J. reflexivity.
Qed.

End SearchPathFacts.

(** Property X14.
    [add_to_path] returns the original [PATH]; afterwards the directory
    is one of the entries of [PATH]; a second call changes nothing; and a
    directory that was not yet an entry becomes the first entry, before
    the unchanged original entries.  This holds for a directory name
    without the path separator; an unset [PATH] raises [KeyError]. *)
Theorem add_to_path_is_idempotent (pathsep : ascii) (name PATH : string) :
  Str.contains pathsep name = false ->
  (exists new,
     SearchPath.add_to_path pathsep name (Some PATH) = Ok (new, PATH) /\
     Str.mem name (Str.split pathsep new) = true /\
     SearchPath.add_to_path pathsep name (Some new) = Ok (new, new) /\
     (Str.mem name (Str.split pathsep PATH) = true -> new = PATH) /\
     (Str.mem name (Str.split pathsep PATH) = false ->
      Str.split pathsep new = name :: Str.split pathsep PATH)) /\
  SearchPath.add_to_path pathsep name None = Raise KeyError.
Proof.
  intros Hn. split; [|reflexivity].
  unfold SearchPath.add_to_path.
  destruct (Str.mem name (Str.split pathsep PATH)) eqn:E; cbn [negb].
  - exists PATH. rewrite E. cbn [negb]. repeat split; auto.
    intros H. discriminate H.
  - rewrite join_cons. eexists. split; [reflexivity|].
    rewrite (split_first_field _ _ _ Hn).
    assert (M : Str.mem name (name :: Str.split pathsep PATH) = true).
    { unfold Str.mem. simpl. rewrite String.eqb_refl. reflexivity. }
    rewrite M. cbn [negb]. repeat split; auto.
    intros H. discriminate H.
Qed.

Lemma add_to_path_is_idempotent_witness :
  exists new,
    SearchPath.add_to_path ":" "/opt/ndk/bin" (Some "/usr/bin:/bin")
      = Ok (new, "/usr/bin:/bin") /\
    Str.mem "/opt/ndk/bin" (Str.split ":" new) = true /\
    SearchPath.add_to_path ":" "/opt/ndk/bin" (Some new) = Ok (new, new) /\
    (Str.mem "/opt/ndk/bin" (Str.split ":" "/usr/bin:/bin") = true ->
     new = "/usr/bin:/bin") /\
    (Str.mem "/opt/ndk/bin" (Str.split ":" "/usr/bin:/bin") = false ->
     Str.split ":" new = "/opt/ndk/bin" :: Str.split ":" "/usr/bin:/bin").
Proof.
  exact (proj1 (add_to_path_is_idempotent ":" "/opt/ndk/bin"
                  "/usr/bin:/bin" eq_refl)).
Defined.

(** ** Normalisation of values and dependencies *)

Section NormalisationFacts.

Import Parts Platforms Sysroot.

Variable target : Architecture.

Lemma split1_first (c : ascii) (a b : string) :
  Str.contains c a = false ->
  Str.split1 c (a ++ String c b) = [a; b].
Proof.
  induction a as [|x a IH]; simpl.
  - rewrite Ascii.eqb_refl. reflexivity.
  - destruct (Ascii.eqb x c); [discriminate|]. intros H.
    rewrite (IH H). reflexivity.
Qed.

Lemma contains_first (c : ascii) (a b : string) :
  Str.contains c (a ++ String c b) = true.
Proof.
  induction a as [|x a IH]; simpl.
  - rewrite Ascii.eqb_refl. reflexivity.
  - destruct (Ascii.eqb x c); [reflexivity|exact IH].
Qed.

Lemma targeted_value_plain (value : string) :
  Str.contains "#" value = false ->
  _targeted_value target value = Ok (Some value).
Proof. intros H. unfold _targeted_value. rewrite H. reflexivity. Qed.

Lemma targeted_value_gated (t v : string) :
  Str.contains "#" t = false ->
  _targeted_value target (t ++ String "#" v)
  = rbind (is_targeted target (TStr t)) (fun covered =>
      Ok (if covered : bool then Some v else None)).
Proof.
  intros H. unfold _targeted_value.
  rewrite contains_first, (split1_first _ _ _ H). reflexivity.
Qed.

Lemma resolved_values_plain (values : list string) :
  forallb (fun v => negb (Str.contains "#" v)) values = true ->
  resolved_values target values = Ok values.
Proof.
  induction values as [|v vs IH]; [reflexivity|]. simpl.
  intros H. apply andb_true_iff in H as [H1 H2].
  apply negb_true_iff in H1.
  rewrite (targeted_value_plain _ H1), (IH H2). reflexivity.
Qed.

Lemma normalised_deps_scoped (self_name : string) (deps ds : list string) :
  _normalised_deps target self_name deps = Ok ds ->
  Forall (fun d => is_scoped_name d = true) ds /\ length ds <= length deps.
Proof.
  revert ds. induction deps as [|dep deps IH]; intros ds; simpl.
  - intros [= <-]. split; [constructor|simpl; lia].
  - destruct (if is_scoped_name dep then _ else _) as [[c d]|e];
      [|discriminate].
    cbn [rbind fst snd].
    destruct (_targeted_value target d) as [d'|e]; [|discriminate].
    cbn [rbind].
    destruct (_normalised_deps target self_name deps) as [rest|e];
      [|discriminate].
    cbn [rbind]. destruct (IH rest eq_refl) as [IH1 IH2].
    destruct d' as [d'|]; intros [= <-].
    + split; [constructor; [apply get_name_scoped|exact IH1]|simpl; lia].
    + split; [exact IH1|simpl; lia].
Qed.

Lemma normalised_deps_plain (self_name : string) (deps : list string) :
  forallb (fun d => negb (Str.contains "#" d)) deps = true ->
  _normalised_deps target self_name deps
  = Ok (map (fun d => if is_scoped_name d then d
                      else get_name self_name d) deps).
Proof.
  induction deps as [|dep deps IH]; [reflexivity|]. simpl.
  intros H. apply andb_true_iff in H as [H1 H2].
  apply negb_true_iff in H1. rewrite (IH H2).
  destruct (is_scoped_name dep) eqn:E.
  - destruct (split1_scoped dep E) as (c & u & Hs & Hn & _).
    unfold get_name_parts. rewrite Hs. cbn [rbind fst snd].
    assert (Hu : Str.contains "#" u = false).
    { rewrite <- Hn in H1. unfold get_name in H1.
      rewrite contains_app in H1. apply orb_false_iff in H1 as [_ H1].
      change (":" ++ u)%string with (String ":" u) in H1. simpl in H1.
      exact H1. }
    rewrite (targeted_value_plain _ Hu). cbn [rbind]. rewrite Hn.
    reflexivity.
  - cbn [rbind fst snd]. rewrite (targeted_value_plain _ H1).
    reflexivity.
Qed.

End NormalisationFacts.

(** Property X15.
    A target-gated value.  A value without ['#'] is kept as it is for
    every target, and never raises.  In [gate#value] the text before the
    first ['#'] is the target predicate and the rest, which may contain
    further ['#'], is the value: it is kept when the predicate covers the
    target and dropped otherwise, and an error of the predicate is the
    error of the call.  For the name of a platform as the gate the value is
    kept exactly on the architectures of that platform, and an empty gate
    keeps the value on every target. *)
Theorem gate_is_the_text_before_the_first_hash
    (target : Platforms.Architecture) (p : Platforms.Platform)
    (gate value : string) :
  Str.contains "#" gate = false ->
  Sysroot._targeted_value target (gate ++ "#" ++ value)
    = rbind (Platforms.is_targeted target (Platforms.TStr gate))
        (fun covered => Ok (if covered : bool then Some value else None)) /\
  Sysroot._targeted_value target gate = Ok (Some gate) /\
  Sysroot._targeted_value target
    (Platforms.platform_name p ++ "#" ++ value)
    = Ok (if Platforms.platform_is (Platforms.arch_platform target) p
          then Some value else None) /\
  Sysroot._targeted_value target ("#" ++ value) = Ok (Some value).
Proof.
  intros H. split; [|split; [|split]].
  - apply targeted_value_gated. exact H.
  - apply targeted_value_plain. exact H.
  - change (Platforms.platform_name p ++ "#" ++ value)%string
      with (Platforms.platform_name p ++ String "#" value)%string.
    rewrite targeted_value_gated by (destruct p; reflexivity).
    destruct target, p; reflexivity.
  - apply (targeted_value_gated target "" value eq_refl).
Qed.

Lemma gate_is_the_text_before_the_first_hash_witness :
  Sysroot._targeted_value Platforms.Windows_x86_64 ("win#-DA#B")
  = Ok (Some "-DA#B").
Proof.
  exact (proj1 (gate_is_the_text_before_the_first_hash
                  Platforms.Windows_x86_64 Platforms.Windows "win" "-DA#B"
                  eq_refl)).
Defined.

(** Property X16.
    [_normalised_values] never returns an empty list: when no value is
    given or none is left for the target the result is [None].  Values
    without a gate are returned unchanged and in order. *)
Theorem normalised_values_are_none_or_non_empty
    (target : Platforms.Architecture) (values : option (list string))
    (vs : list string) :
  match Sysroot._normalised_values target values with
  | Ok (Some []) => False
  | _ => True
  end /\
  Sysroot._normalised_values target None = Ok None /\
  Sysroot._normalised_values target (Some []) = Ok None /\
  (forallb (fun v => negb (Str.contains "#" v)) vs = true ->
   Sysroot._normalised_values target (Some vs)
   = Ok (match vs with [] => None | _ :: _ => Some vs end)).
Proof.
  split; [|split; [reflexivity|split; [reflexivity|]]].
  - unfold Sysroot._normalised_values.
    destruct (match values with Some _ => _ | None => _ end) as [[|x l]|e];
      exact I.
  - intros H. unfold Sysroot._normalised_values.
    rewrite (resolved_values_plain target vs H). reflexivity.
Qed.

Lemma normalised_values_are_none_or_non_empty_witness :
  Sysroot._normalised_values Platforms.Linux_x86_64 (Some ["-lz"; "-lm"])
  = Ok (Some ["-lz"; "-lm"]).
Proof.
  exact (proj2 (proj2 (proj2
    (normalised_values_are_none_or_non_empty Platforms.Linux_x86_64 None
       ["-lz"; "-lm"]))) eq_refl).
Defined.

(** Property X17.
    Every dependency [_normalised_deps] returns is a scoped name, and it
    returns at most as many as it was given (a gated dependency that is
    not for the target is dropped).  Dependencies without a gate are all
    kept, in order: a scoped one unchanged, an unscoped one prefixed with
    the name of the provider; so normalising such a list a second time
    changes nothing. *)
Theorem normalised_dependencies_are_scoped
    (target : Platforms.Architecture) (self_name : string)
    (deps : list string) :
  (forall ds,
     Sysroot._normalised_deps target self_name deps = Ok ds ->
     Forall (fun d => Parts.is_scoped_name d = true) ds /\
     length ds <= length deps) /\
  (forallb (fun d => negb (Str.contains "#" d)) deps = true ->
   let ds := map (fun d => if Parts.is_scoped_name d then d
                           else Parts.get_name self_name d) deps in
   Sysroot._normalised_deps target self_name deps = Ok ds /\
   (Str.contains "#" self_name = false ->
    Sysroot._normalised_deps target self_name ds = Ok ds)).
Proof.
  split; [intros ds; apply normalised_deps_scoped|].
  intros H ds.
  pose proof (normalised_deps_plain target self_name deps H) as E.
  fold ds in E. split; [exact E|]. intros Hself.
  destruct (normalised_deps_scoped target self_name deps ds E) as [Hs _].
  assert (Hg : forallb (fun d => negb (Str.contains "#" d)) ds = true).
  { unfold ds. clear E Hs ds. induction deps as [|d deps IH]; [reflexivity|].
    simpl in H. apply andb_true_iff in H as [H1 H2]. simpl.
    rewrite (IH H2), andb_true_r.
    destruct (Parts.is_scoped_name d); [exact H1|].
    apply negb_true_iff in H1. apply negb_true_iff.
    unfold Parts.get_name. rewrite contains_app, Hself.
    change (":" ++ d)%string with (String ":" d). simpl. exact H1. }
  rewrite (normalised_deps_plain target self_name ds Hg). f_equal.
  clear E Hg. induction Hs as [|d l Hd _ IH]; [reflexivity|].
  simpl. rewrite Hd, IH. reflexivity.
Qed.

Lemma normalised_dependencies_are_scoped_witness :
  Sysroot._normalised_deps Platforms.Linux_x86_64 "Python"
    ["os"; "Qt:QtCore"]
  = Ok ["Python:os"; "Qt:QtCore"].
Proof.
  exact (proj1 (proj2 (normalised_dependencies_are_scoped
                         Platforms.Linux_x86_64 "Python"
                         ["os"; "Qt:QtCore"]) eq_refl)).
Defined.

(** ** Availability of a part *)

Section ReturnFacts.

Import Parts Sysroot Session.

Lemma bind_done {A B} (m : M A) (k : A -> M B) (s : state) (b : B)
    (s' : state) :
  bind m k s = Done b s' ->
  exists a s1, m s = Done a s1 /\ k a s1 = Done b s'.
Proof.
  unfold bind. destruct (m s) as [a s1| |]; [eauto|discriminate..].
Qed.

Lemma ret_done {A} (a b : A) (s s' : state) :
  ret a s = Done b s' -> a = b /\ s = s'.
Proof. intros [= -> ->]. auto. Qed.

(** A loop that returns has kept its invariant. *)
Lemma for_each_done {A S} (Inv : S -> state -> Prop)
    (body : A -> S -> M (ctl * S)) (xs : list A) :
  (forall x acc s r s',
     In x xs -> Inv acc s -> body x acc s = Done r s' -> Inv (snd r) s') ->
  forall acc s a s',
    Inv acc s -> for_each xs body acc s = Done a s' -> Inv a s'.
Proof.
  induction xs as [|x xs IH]; intros Hbody acc s a s' HI H.
  - apply ret_done in H as [<- <-]. exact HI.
  - simpl in H. apply bind_done in H as ([c acc1] & s1 & H1 & H2).
    pose proof (Hbody _ _ _ _ _ (or_introl eq_refl) HI H1) as HI1.
    simpl in HI1. destruct c.
    + refine (IH _ _ _ _ _ HI1 H2). intros y ? ? ? ? Hy.
      apply Hbody. right. exact Hy.
    + apply ret_done in H2 as [<- <-]. exact HI1.
Qed.

(** Completion and a property of the returned value combine. *)
Lemma completes_and {A} (s : state) (m : M A) (Q R : A -> state -> Prop) :
  completes s m Q ->
  (forall a s', m s = Done a s' -> R a s') ->
  completes s m R.
Proof.
  unfold completes. intros H HR.
  destruct (m s) as [a s'| |]; [apply HR; reflexivity|exact I|exact H].
Qed.

Section Loop.

Variable add_part :
  nat -> string -> loc -> option nat -> Dict.t loc -> M unit.
Variable parts_of : nat -> M (Dict.t (option loc)).

Ltac done_inv H :=
  repeat first
    [ apply ret_done in H as [<- <-]
    | let a := fresh "a" in let s := fresh "s" in let H1 := fresh "H" in
      apply bind_done in H as (a & s & H1 & H) ].

(** A round of the loop of [_add_part] leaves the local variable [part]
    as it is or sets it to [None]; it breaks only with [None]. *)
Lemma check_dep_part (i : nat) (self : Component) (openssl : option nat)
    (pv : Dict.t loc) (dep : string) (acc : option loc * list string)
    (s : state) (r : ctl * (option loc * list string)) (s' : state) :
  check_dep add_part parts_of i self openssl pv dep acc s = Done r s' ->
  (fst (snd r) = fst acc \/ fst (snd r) = None) /\
  (fst r = Break -> fst (snd r) = None).
Proof.
  unfold check_dep.
  destruct (get_name_parts dep) as [|c [|u [|]]]; try discriminate.
  destruct (classify openssl dep c u) as [[required d]|];
    [|intros H; apply ret_done in H as [<- <-]; split; [auto|discriminate]].
  destruct (String.eqb (cname self) c).
  - destruct (Dict.get d pv) as [l|].
    + intros H. apply bind_done in H as (? & s1 & _ & H).
      apply bind_done in H as (memo & s2 & _ & H).
      destruct (Dict.get d memo) as [[l'|]|]; [| |discriminate].
      * apply ret_done in H as [<- <-]. split; [auto|discriminate].
      * destruct required; apply ret_done in H as [<- <-];
          (split; [auto|try discriminate; auto]).
    + destruct required; intros H; apply ret_done in H as [<- <-];
        (split; [auto|try discriminate; auto]).
  - intros H. apply bind_done in H as (other & s1 & _ & H).
    apply bind_done in H as (provided & s2 & _ & H).
    destruct provided; [|destruct required];
      apply ret_done in H as [<- <-]; (split; [auto|discriminate]).
Qed.

(** A dependency that never blocks leaves the local variable [part] as
    it is. *)
Lemma check_dep_never_blocks (i : nat) (self : Component)
    (openssl : option nat) (pv : Dict.t loc) (dep : string)
    (acc : option loc * list string) (s : state)
    (r : ctl * (option loc * list string)) (s' : state) :
  Deps.never_blocks openssl dep = true ->
  check_dep add_part parts_of i self openssl pv dep acc s = Done r s' ->
  fst (snd r) = fst acc.
Proof.
  unfold check_dep, Deps.never_blocks.
  destruct (get_name_parts dep) as [|c [|u [|]]]; try discriminate.
  unfold classify. intros Hnb.
  destruct (Str.startswith "?" u).
  - destruct (String.eqb (cname self) c).
    + destruct (Dict.get _ pv) as [l|].
      * intros H. apply bind_done in H as (? & s1 & _ & H).
        apply bind_done in H as (memo & s2 & _ & H).
        destruct (Dict.get _ memo) as [[l'|]|]; [| |discriminate];
          apply ret_done in H as [<- <-]; reflexivity.
      * intros H. apply ret_done in H as [<- <-]. reflexivity.
    + intros H. apply bind_done in H as (other & s1 & _ & H).
      apply bind_done in H as (provided & s2 & _ & H).
      destruct provided; apply ret_done in H as [<- <-]; reflexivity.
  - simpl in Hnb. destruct (Str.startswith "!" u); [|discriminate].
    destruct openssl; [|discriminate].
    intros H. apply ret_done in H as [<- <-]. reflexivity.
Qed.

(** A required dependency on a part of the same provider that the
    provider does not provide ends the loop with [None]. *)
Lemma check_dep_missing (i : nat) (self : Component)
    (openssl : option nat) (pv : Dict.t loc) (u : string)
    (acc : option loc * list string) (s : state) :
  Str.contains ":" (cname self) = false ->
  Str.startswith "?" u = false -> Str.startswith "!" u = false ->
  Dict.get (get_name (cname self) u) pv = None ->
  check_dep add_part parts_of i self openssl pv (get_name (cname self) u)
    acc s
  = Done (Break, (None, snd acc)) s.
Proof.
  intros Hc H1 H2 Hpv. unfold check_dep.
  rewrite (get_name_parts_get_name _ _ Hc), (classify_plain _ _ _ _ H1 H2).
  rewrite String.eqb_refl, Hpv. reflexivity.
Qed.

Lemma loop_with_missing (i : nat) (self : Component)
    (openssl : option nat) (pv : Dict.t loc) (u : string)
    (pre post : list string) :
  Str.contains ":" (cname self) = false ->
  Str.startswith "?" u = false -> Str.startswith "!" u = false ->
  Dict.get (get_name (cname self) u) pv = None ->
  forall acc s r s',
    for_each (pre ++ get_name (cname self) u :: post)
      (check_dep add_part parts_of i self openssl pv) acc s = Done r s' ->
    fst r = None.
Proof.
  intros Hc H1 H2 Hpv. induction pre as [|d pre IH]; intros acc s r s' H.
  - cbn [app for_each] in H. unfold bind in H.
    rewrite (check_dep_missing _ _ _ _ _ _ _ Hc H1 H2 Hpv) in H.
    apply ret_done in H as [<- <-]. reflexivity.
  - cbn [app for_each] in H.
    apply bind_done in H as ([c acc1] & s1 & Hd & H).
    destruct c.
    + exact (IH _ _ _ _ H).
    + apply ret_done in H as [<- <-].
      exact (proj2 (check_dep_part _ _ _ _ _ _ _ _ _ Hd) eq_refl).
Qed.

(** What [_add_part] memoizes for a name it has not memoized yet: the
    value the loop over the dependencies leaves in [part]. *)
Lemma add_part_body_done (i : nat) (name : string) (part : loc)
    (openssl : option nat) (pv : Dict.t loc) (s : state)
    (self : Component) (memo : Dict.t (option loc)) (p : Part)
    (s' : state) :
  components s !! i = Some self -> _parts self = Some memo ->
  Dict.mem name memo = false -> store s !! part = Some p ->
  _add_part_body add_part parts_of i name part openssl pv s = Done tt s' ->
  exists r s1 s2,
    for_each (deps p) (check_dep add_part parts_of i self openssl pv)
      (Some part, []) s1 = Done r s2 /\
    Deps.memo_at s' i name (fst r).
Proof.
  intros Hi Hm Hmem Hp H. unfold _add_part_body in H.
  apply bind_done in H as (self0 & s0 & H0 & H).
  unfold component in H0. rewrite Hi in H0. injection H0 as <- <-.
  apply bind_done in H as (memo0 & s0 & H0 & H).
  unfold self_parts in H0. rewrite Hi, Hm in H0. injection H0 as <- <-.
  rewrite Hmem in H.
  apply bind_done in H as (? & s1 & H1 & H).
  unfold set_parts in H1. rewrite Hi in H1. injection H1 as <-.
  apply bind_done in H as (p0 & s1' & H1 & H).
  unfold read in H1. rewrite <- H0 in H1. simpl in H1. rewrite Hp in H1.
  injection H1 as <- <-.
  apply bind_done in H as (r & s2 & Hloop & H).
  exists r, s1, s2. rewrite <- H0. split; [exact Hloop|].
  apply bind_done in H as (? & s3 & _ & H).
  apply bind_done in H as (memo3 & s4 & H4 & H).
  unfold self_parts in H4.
  destruct (components s3 !! i) as [c3|] eqn:E3; [|discriminate].
  destruct (_parts c3); [|discriminate]. injection H4 as <- <-.
  unfold set_parts in H. rewrite E3 in H. injection H as <-.
  eexists _, _. simpl.
  split; [apply list_lookup_insert_eq; eapply lookup_lt_Some; eauto|].
  split; [reflexivity|apply dict_get_set_eq].
Qed.

End Loop.

End ReturnFacts.

(** ** The provisional entry of the memo *)

Section ProvisionalFacts.

Import Parts Sysroot Session.

Variable target : Platforms.Architecture.
Variables (i : nat) (name : string) (part : loc).

Local Abbreviation held := (fun s => Deps.memo_at s i name (Some part)).

Lemma completes_done {A} (s : state) (m : M A) (Q : A -> state -> Prop)
    (a : A) (s' : state) :
  completes s m Q -> m s = Done a s' -> Q a s'.
Proof. unfold completes. intros H E. rewrite E in H. exact H. Qed.

Lemma held_components (s s' : state) :
  components s' = components s -> held s -> held s'.
Proof. intros E. unfold Deps.memo_at. rewrite E. auto. Qed.

(** Assigning the memo of a provider: of another provider, or a memo
    that has the entry. *)
Lemma set_parts_keeps (i' : nat) (d : Dict.t (option loc)) (s s' : state) :
  i' <> i \/ Dict.get name d = Some (Some part) ->
  held s -> set_parts i' d s = Done tt s' -> held s'.
Proof.
  intros Hd (c & m & Hc & Hm & Hn). unfold set_parts.
  destruct (components s !! i') as [c'|] eqn:E; [|discriminate].
  intros [= <-]. unfold Deps.memo_at. simpl.
  destruct (Nat.eq_dec i' i) as [->|Hne].
  - destruct Hd as [Hd|Hd]; [contradiction|].
    eexists _, d.
    split; [apply list_lookup_insert_eq; eapply lookup_lt_Some; eauto|].
    split; [reflexivity|exact Hd].
  - exists c, m. rewrite list_lookup_insert_ne by exact Hne. auto.
Qed.

Section KeptBodies.

Variable add_part :
  nat -> string -> loc -> option nat -> Dict.t loc -> M unit.
Variable parts_of : nat -> M (Dict.t (option loc)).

Hypothesis add_part_keeps :
  forall i' n l o pv, Deps.keeps held (add_part i' n l o pv).
Hypothesis parts_of_keeps : forall j, Deps.keeps held (parts_of j).

Lemma check_dep_keeps (i' : nat) (self : Component) (openssl : option nat)
    (pv : Dict.t loc) (dep : string) (acc : option loc * list string) :
  Deps.keeps held (check_dep add_part parts_of i' self openssl pv dep acc).
Proof.
  intros s r s' HI. unfold check_dep.
  destruct (get_name_parts dep) as [|c [|u [|]]]; try discriminate.
  destruct (classify openssl dep c u) as [[required d]|];
    [|intros H; apply ret_done in H as [_ <-]; exact HI].
  destruct (String.eqb (cname self) c).
  - destruct (Dict.get d pv) as [l|].
    + intros H. apply bind_done in H as (? & s1 & H1 & H).
      apply add_part_keeps in H1; [|exact HI].
      apply bind_done in H as (memo & s2 & H2 & H).
      assert (s2 = s1) as ->.
      { unfold self_parts in H2.
        destruct (components s1 !! i') as [c1|]; [|discriminate].
        destruct (_parts c1); [|discriminate]. congruence. }
      destruct (Dict.get d memo) as [[l'|]|]; [| |discriminate].
      * apply ret_done in H as [_ <-]. exact H1.
      * destruct required; apply ret_done in H as [_ <-]; exact H1.
    + destruct required; intros H; apply ret_done in H as [_ <-]; exact HI.
  - intros H. apply bind_done in H as (other & s1 & H1 & H).
    injection H1 as _ <-.
    apply bind_done in H as (provided & s2 & H2 & H).
    assert (HI2 : held s2).
    { destruct other as [j|].
      - apply bind_done in H2 as (ps & s3 & H3 & H2).
        apply ret_done in H2 as [_ <-].
        exact (parts_of_keeps j _ _ _ HI H3).
      - apply ret_done in H2 as [_ <-]. exact HI. }
    destruct provided; [|destruct required];
      apply ret_done in H as [_ <-]; exact HI2.
Qed.

Lemma add_part_body_keeps (i' : nat) (n : string) (l : loc)
    (openssl : option nat) (pv : Dict.t loc) :
  Deps.keeps held (_add_part_body add_part parts_of i' n l openssl pv).
Proof.
  intros s a s' HI H. unfold _add_part_body in H.
  apply bind_done in H as (self & s0 & H0 & H).
  assert (s0 = s) as ->.
  { unfold component in H0. destruct (components s !! i'); congruence. }
  apply bind_done in H as (memo & s0 & H1 & H).
  assert (s0 = s /\ (i' = i -> Dict.get name memo = Some (Some part)))
    as [-> Hmemo].
  { unfold self_parts in H1.
    destruct (components s !! i') as [c|] eqn:Ec; [|discriminate].
    destruct (_parts c) as [m|] eqn:Em; [|discriminate].
    injection H1 as <- <-. split; [reflexivity|]. intros ->.
    destruct HI as (c' & m' & Hc' & Hm' & Hn). congruence. }
  destruct (Dict.mem n memo) eqn:Hmem.
  { apply ret_done in H as [_ <-]. exact HI. }
  assert (Hne : i' = i -> n <> name).
  { intros E ->. unfold Dict.mem in Hmem. rewrite (Hmemo E) in Hmem.
    discriminate. }
  apply bind_done in H as ([] & s1 & H2 & H).
  assert (HI1 : held s1).
  { refine (set_parts_keeps _ _ _ _ _ HI H2).
    destruct (Nat.eq_dec i' i) as [E|E]; [right|left; exact E].
    rewrite dict_get_set_ne by (apply Hne; exact E). exact (Hmemo E). }
  apply bind_done in H as (p & s2 & H3 & H).
  assert (s2 = s1) as ->.
  { unfold read in H3. destruct (store s1 !! l); congruence. }
  apply bind_done in H as (r & s2 & Hloop & H).
  assert (HI2 : held s2).
  { refine (for_each_done (fun _ s => held s) _ _ _ _ _ _ _ HI1 Hloop).
    intros x acc s3 r3 s3' _ HI3 Hx.
    exact (check_dep_keeps _ _ _ _ _ _ _ _ _ HI3 Hx). }
  apply bind_done in H as ([] & s3 & H4 & H).
  assert (HI3 : held s3).
  { destruct (fst r) as [l'|].
    - refine (held_components _ _ _ HI2).
      exact (completes_done _ _ _ _ _ (completes_write s2 l' _) H4).
    - apply ret_done in H4 as [_ <-]. exact HI2. }
  apply bind_done in H as (memo3 & s4 & H5 & H).
  assert (s4 = s3 /\ (i' = i -> Dict.get name memo3 = Some (Some part)))
    as [-> Hmemo3].
  { unfold self_parts in H5.
    destruct (components s3 !! i') as [c|] eqn:Ec; [|discriminate].
    destruct (_parts c) as [m|] eqn:Em; [|discriminate].
    injection H5 as <- <-. split; [reflexivity|]. intros ->.
    destruct HI3 as (c' & m' & Hc' & Hm' & Hn). congruence. }
  destruct a. refine (set_parts_keeps _ _ _ _ _ HI3 H).
  destruct (Nat.eq_dec i' i) as [E|E]; [right|left; exact E].
  rewrite dict_get_set_ne by (apply Hne; exact E). exact (Hmemo3 E).
Qed.

Lemma parts_body_keeps (j : nat) :
  Deps.keeps held (parts_body target add_part j).
Proof.
  intros s d s' HI H. unfold parts_body in H.
  apply bind_done in H as (self & s0 & H0 & H).
  assert (s0 = s /\ components s !! j = Some self) as [-> Hj].
  { unfold component in H0. destruct (components s !! j); [|discriminate].
    injection H0 as <- <-. auto. }
  destruct (_parts self) as [m|] eqn:Em.
  { apply ret_done in H as [_ <-]. exact HI. }
  assert (Hne : j <> i).
  { intros ->. destruct HI as (c' & m' & Hc' & Hm' & _). congruence. }
  apply bind_done in H as ([] & s1 & H1 & H).
  pose proof (set_parts_keeps _ _ _ _ (or_introl Hne) HI H1) as HI1.
  apply bind_done in H as (openssl & s2 & H2 & H).
  injection H2 as _ <-.
  apply bind_done in H as (pv & s2 & H2 & H).
  assert (HI2 : held s2).
  { refine (for_each_done (fun _ s => held s) _ _ _ _ _ _ _ HI1 H2).
    intros x acc s3 r3 s3' _ HI3 Hx. refine (held_components _ _ _ HI3).
    exact (proj1 (completes_done _ _ _ _ _
                    (completes_provide target s3 self x acc) Hx)). }
  apply bind_done in H as ([] & s3 & H3 & H).
  assert (HI3 : held s3).
  { refine (for_each_done (fun _ s => held s) _ _ _ _ _ _ _ HI2 H3).
    intros x acc s4 r4 s4' _ HI4 Hx.
    apply bind_done in Hx as (? & s5 & Hx & Hr).
    apply ret_done in Hr as [_ <-].
    exact (add_part_keeps _ _ _ _ _ _ _ _ HI4 Hx). }
  apply bind_done in H as (memo & s4 & H4 & H).
  assert (s4 = s3) as ->.
  { unfold self_parts in H4.
    destruct (components s3 !! j) as [c3|]; [|discriminate].
    destruct (_parts c3); congruence. }
  apply bind_done in H as ([] & s4 & H5 & H).
  apply ret_done in H as [_ <-].
  exact (set_parts_keeps _ _ _ _ (or_introl Hne) HI3 H5).
Qed.

End KeptBodies.

(** The resolver never takes the entry out of the memo. *)
Lemma resolver_keeps (fuel : nat) :
  (forall i' n l o pv, Deps.keeps held (_add_part target fuel i' n l o pv)) /\
  (forall j, Deps.keeps held (parts target fuel j)).
Proof.
  induction fuel as [|fuel [IHa IHp]].
  - split; intros; intros s a s' _ H; discriminate H.
  - split.
    + intros i' n l o pv. rewrite add_part_S.
      apply add_part_body_keeps; assumption.
    + intros j. rewrite parts_S. apply parts_body_keeps; assumption.
Qed.

Section Agreement.

Variable fuel : nat.
Variable f : nat -> string -> loc -> option nat -> Dict.t loc -> M unit.
Variable g : nat -> M (Dict.t (option loc)).

Hypothesis f_agrees :
  forall i' n l o pv s,
    held s -> f i' n l o pv s = _add_part target fuel i' n l o pv s.
Hypothesis g_agrees :
  forall j s, held s -> g j s = parts target fuel j s.

Lemma check_dep_agrees (i' : nat) (self : Component) (openssl : option nat)
    (pv : Dict.t loc) (dep : string) (acc : option loc * list string)
    (s : state) :
  held s ->
  check_dep f g i' self openssl pv dep acc s
  = check_dep (_add_part target fuel) (parts target fuel) i' self openssl pv
      dep acc s.
Proof.
  intros HI. unfold check_dep.
  destruct (get_name_parts dep) as [|c [|u [|]]]; try reflexivity.
  destruct (classify openssl dep c u) as [[required d]|]; [|reflexivity].
  destruct (String.eqb (cname self) c).
  - destruct (Dict.get d pv) as [l|]; [|reflexivity].
    unfold bind. rewrite (f_agrees _ _ _ _ _ _ HI). reflexivity.
  - unfold bind, get_component.
    destruct (index_of c (components s)) as [j|]; [|reflexivity].
    rewrite (g_agrees _ _ HI). reflexivity.
Qed.

Lemma loop_agrees (i' : nat) (self : Component) (openssl : option nat)
    (pv : Dict.t loc) (ds : list string) :
  forall (acc : option loc * list string) (s : state),
    held s ->
    for_each ds (check_dep f g i' self openssl pv) acc s
    = for_each ds
        (check_dep (_add_part target fuel) (parts target fuel) i' self
           openssl pv) acc s.
Proof.
  induction ds as [|d ds IH]; intros acc s HI; [reflexivity|].
  cbn [for_each]. unfold bind. rewrite (check_dep_agrees _ _ _ _ _ _ _ HI).
  destruct (check_dep _ _ i' self openssl pv d acc s)
    as [[c acc'] s'| |] eqn:E; [|reflexivity..].
  destruct c; [|reflexivity]. apply IH.
  destruct (resolver_keeps fuel) as [Ka Kp].
  exact (check_dep_keeps _ _ Ka Kp _ _ _ _ _ _ _ _ _ HI E).
Qed.

End Agreement.

Lemma bind_agrees {A B} (m m' : M A) (k : A -> M B) (s : state) :
  m s = m' s -> bind m k s = bind m' k s.
Proof. unfold bind. intros ->. reflexivity. Qed.

(** [_add_part] for a name that is not memoized, up to the loop over the
    dependencies: the name is memoized with the part, then the part is
    read and its dependencies are visited. *)
Lemma add_part_body_enters
    (add_part : nat -> string -> loc -> option nat -> Dict.t loc -> M unit)
    (parts_of : nat -> M (Dict.t (option loc)))
    (cs : list Component) (self : Component) (st : list Part)
    (memo : Dict.t (option loc)) (openssl : option nat) (pv : Dict.t loc) :
  i < length cs -> Dict.mem name memo = false ->
  _add_part_body add_part parts_of i name part openssl pv
    (memoized st cs i self memo)
  = bind (read part) (fun p =>
      bind (for_each (deps p)
              (check_dep add_part parts_of i
                 (mkComponent (cname self) (version self) (provides self)
                    (Some memo))
                 openssl pv)
              (Some part, []))
        (fun r =>
           bind match fst r with
                | Some l => write l (set_deps (snd r))
                | None => ret tt
                end
             (fun _ =>
                bind (self_parts i) (fun memo' =>
                  set_parts i (Dict.set name (fst r) memo')))))
      (memoized st cs i self (Dict.set name (Some part) memo)).
Proof.
  intros Hl Hmem. unfold _add_part_body.
  unfold bind at 1. rewrite component_memoized by exact Hl.
  unfold bind at 1. rewrite self_parts_memoized by exact Hl.
  rewrite Hmem.
  unfold bind at 1. rewrite set_parts_memoized by exact Hl.
  reflexivity.
Qed.

End ProvisionalFacts.

(** ** Parts that require each other *)

Section ClosedFacts.

Import Parts Sysroot Session.

Variable target : Platforms.Architecture.
Variables (cs : list Component) (i : nat) (self : Component).
Variables (st : list Part) (pv : Dict.t loc) (openssl : option nat).
Variable names : list string.

Hypothesis Hi : i < length cs.
Hypothesis Hclosed : Deps.closed st (cname self) pv names = true.

Lemma gains_refl (m : Dict.t (option loc)) : Deps.gains pv names m m.
Proof. intros x. left. reflexivity. Qed.

Lemma gains_trans (m1 m2 m3 : Dict.t (option loc)) :
  Deps.gains pv names m1 m2 -> Deps.gains pv names m2 m3 ->
  Deps.gains pv names m1 m3.
Proof.
  intros H12 H23 x.
  destruct (H23 x) as [E|(E & Hx & l & Hl & E')].
  - rewrite E. apply H12.
  - destruct (H12 x) as [E2|(_ & _ & l2 & _ & E2)]; [|congruence].
    right. rewrite <- E2. eauto 6.
Qed.

Lemma gains_set (m : Dict.t (option loc)) (n : string) (l : loc) :
  Str.mem n names = true -> Dict.get n pv = Some l ->
  Dict.get n m = None \/ Dict.get n m = Some (Some l) ->
  Deps.gains pv names m (Dict.set n (Some l) m).
Proof.
  intros Hn Hl Hm x. destruct (String.eqb_spec n x) as [<-|Hne].
  - rewrite dict_get_set_eq. destruct Hm as [E|E]; [right; eauto 6|].
    left. symmetry. exact E.
  - left. apply dict_get_set_ne. exact Hne.
Qed.

Lemma gains_mem (m m' : Dict.t (option loc)) (x : string) :
  Deps.gains pv names m m' -> Dict.mem x m = true -> Dict.mem x m' = true.
Proof.
  intros H. unfold Dict.mem.
  destruct (H x) as [->|(-> & _)]; [auto|discriminate].
Qed.

Lemma gains_available (m m' : Dict.t (option loc)) :
  Deps.gains pv names m m' ->
  Deps.none_unavailable names m = true ->
  Deps.none_unavailable names m' = true.
Proof.
  unfold Deps.none_unavailable. rewrite !forallb_forall.
  intros H Hm x Hx. specialize (Hm x Hx).
  destruct (H x) as [->|(_ & _ & l & _ & ->)]; [exact Hm|reflexivity].
Qed.

Lemma mem_names (x : string) (l : list string) :
  Str.mem x l = true <-> In x l.
Proof.
  unfold Str.mem. rewrite existsb_exists. split.
  - intros (y & Hy & E). apply String.eqb_eq in E. subst. exact Hy.
  - intros H. exists x. split; [exact H|apply String.eqb_refl].
Qed.

(** What [closed] says of one of the names. *)
Lemma closed_name (n : string) :
  Str.mem n names = true ->
  exists l p,
    Dict.get n pv = Some l /\ st !! l = Some p /\
    forall d, In d (deps p) ->
      Deps.plain_local (cname self) d = true /\ Str.mem d names = true.
Proof.
  intros Hn. apply mem_names in Hn.
  unfold Deps.closed in Hclosed. rewrite forallb_forall in Hclosed.
  specialize (Hclosed n Hn).
  destruct (Dict.get n pv) as [l|]; [|discriminate].
  destruct (st !! l) as [p|] eqn:Ep; [|discriminate].
  exists l, p. split; [reflexivity|]. split; [exact Ep|].
  intros d Hd. rewrite forallb_forall in Hclosed.
  specialize (Hclosed d Hd). apply andb_true_iff in Hclosed. exact Hclosed.
Qed.

(** A round of the loop for a required dependency on a part of the
    provider itself. *)
Lemma check_dep_plain_local
    (add_part : nat -> string -> loc -> option nat -> Dict.t loc -> M unit)
    (parts_of : nat -> M (Dict.t (option loc)))
    (self' : Component) (d : string) (acc : option loc * list string) :
  Deps.plain_local (cname self') d = true ->
  check_dep add_part parts_of i self' openssl pv d acc
  = match Dict.get d pv with
    | None => ret (Break, (None, snd acc))
    | Some dep_part =>
        bind (add_part i d dep_part openssl pv) (fun _ =>
          bind (self_parts i) (fun memo =>
            match Dict.get d memo with
            | None => raise KeyError
            | Some None => ret (Break, (None, snd acc))
            | Some (Some _) => ret (Next, (fst acc, snd acc ++ [d]))
            end))
    end.
Proof.
  unfold Deps.plain_local, check_dep, classify.
  destruct (get_name_parts d) as [|c [|u [|]]]; try discriminate.
  intros H. apply andb_true_iff in H as [H H2].
  apply andb_true_iff in H as [H0 H1].
  apply negb_true_iff in H1, H2. rewrite H1, H2, H0. reflexivity.
Qed.

Section Resolution.

Variable fuel : nat.

(** What the recursive calls do, for the loop over the dependencies. *)
Hypothesis IH :
  forall m n l,
    Str.mem n names = true -> Dict.get n pv = Some l ->
    Deps.none_unavailable names m = true ->
    todo pv m < fuel ->
    exists m',
      _add_part target fuel i n l openssl pv (memoized st cs i self m)
      = Done tt (memoized st cs i self m') /\
      Deps.gains pv names m m' /\ Dict.mem n m' = true.

Lemma closed_loop (self' : Component) (part : loc) (ds : list string) :
  cname self' = cname self ->
  (forall d, In d ds ->
     Deps.plain_local (cname self) d = true /\ Str.mem d names = true) ->
  forall (kept : list string) (m : Dict.t (option loc)),
    Deps.none_unavailable names m = true ->
    todo pv m < fuel ->
    exists m',
      for_each ds
        (check_dep (_add_part target fuel) (parts target fuel) i self'
           openssl pv)
        (Some part, kept) (memoized st cs i self m)
      = Done (Some part, kept ++ ds) (memoized st cs i self m') /\
      Deps.gains pv names m m' /\
      forall d, In d ds -> Dict.mem d m' = true.
Proof.
  intros Hname. induction ds as [|d ds IHds]; intros Hds kept m Hm Hfuel.
  - exists m. rewrite app_nil_r. split; [reflexivity|].
    split; [apply gains_refl|]. intros d [].
  - destruct (Hds d (or_introl eq_refl)) as [Hplain Hd].
    destruct (closed_name d Hd) as (l & p & Hl & _ & _).
    destruct (IH m d l Hd Hl Hm Hfuel) as (m1 & Hrun & G1 & Hmem1).
    assert (Hm1 : Deps.none_unavailable names m1 = true)
      by (eapply gains_available; eassumption).
    assert (Hfuel1 : todo pv m1 < fuel).
    { pose proof (todo_mono pv m m1 (fun x => gains_mem m m1 x G1)). lia. }
    destruct (IHds (fun x Hx => Hds x (or_intror Hx)) (kept ++ [d]) m1
                Hm1 Hfuel1) as (m2 & Hloop & G2 & Hmem2).
    exists m2. split; [|split].
    + cbn [for_each]. unfold bind at 1.
      rewrite check_dep_plain_local by (rewrite Hname; exact Hplain).
      rewrite Hl. unfold bind at 1. rewrite Hrun.
      unfold bind at 1. rewrite self_parts_memoized by exact Hi.
      assert (E : exists l', Dict.get d m1 = Some (Some l')).
      { unfold Dict.mem in Hmem1.
        unfold Deps.none_unavailable in Hm1. rewrite forallb_forall in Hm1.
        specialize (Hm1 d (proj1 (mem_names d names) Hd)).
        destruct (Dict.get d m1) as [[l'|]|]; try discriminate. eauto. }
      destruct E as (l' & ->). unfold ret at 1. cbn [fst snd].
      rewrite Hloop. rewrite <- app_assoc. reflexivity.
    + eapply gains_trans; eassumption.
    + intros x [<-|Hx]; [|exact (Hmem2 x Hx)].
      exact (gains_mem m1 m2 d G2 Hmem1).
Qed.

End Resolution.

(** [_add_part] for one of the names: it returns, the part is memoized
    with every part it requires, and the parts are as they were. *)
Lemma closed_add_part (fuel : nat) :
  forall m n l,
    Str.mem n names = true -> Dict.get n pv = Some l ->
    Deps.none_unavailable names m = true ->
    todo pv m < fuel ->
    exists m',
      _add_part target fuel i n l openssl pv (memoized st cs i self m)
      = Done tt (memoized st cs i self m') /\
      Deps.gains pv names m m' /\ Dict.mem n m' = true /\
      (Dict.mem n m = false ->
       forall p d, st !! l = Some p -> In d (deps p) -> Dict.mem d m' = true).
Proof.
  induction fuel as [|fuel IH]; intros m n l Hn Hl Hm Hfuel; [lia|].
  rewrite add_part_S. unfold _add_part_body.
  unfold bind at 1. rewrite component_memoized by exact Hi.
  unfold bind at 1. rewrite self_parts_memoized by exact Hi.
  destruct (Dict.mem n m) eqn:Hmem.
  { exists m. split; [reflexivity|]. split; [apply gains_refl|].
    split; [exact Hmem|discriminate]. }
  destruct (closed_name n Hn) as (l0 & p & Hl0 & Hp & Hdeps).
  rewrite Hl in Hl0. injection Hl0 as <-.
  assert (Hnone : Dict.get n m = None).
  { unfold Dict.mem in Hmem. destruct (Dict.get n m); [discriminate|].
    reflexivity. }
  assert (G1 : Deps.gains pv names m (Dict.set n (Some l) m))
    by (apply gains_set; auto).
  assert (Hfuel1 : todo pv (Dict.set n (Some l) m) < fuel).
  { pose proof (todo_set pv m n (Some l) (dict_get_mem _ _ _ Hl) Hmem). lia. }
  destruct (closed_loop fuel
              (fun m n l Hn Hl Hm Hf =>
                 match IH m n l Hn Hl Hm Hf with
                 | ex_intro _ m' (conj H1 (conj H2 (conj H3 _))) =>
                     ex_intro _ m' (conj H1 (conj H2 H3))
                 end)
              (mkComponent (cname self) (version self) (provides self)
                 (Some m))
              l (deps p) eq_refl Hdeps [] (Dict.set n (Some l) m)
              (gains_available _ _ G1 Hm) Hfuel1)
    as (m2 & Hloop & G2 & Hmem2).
  exists (Dict.set n (Some l) m2).
  assert (E2 : Dict.get n m2 = Some (Some l)).
  { destruct (G2 n) as [E|(E & _)]; rewrite dict_get_set_eq in E;
      [exact E|discriminate]. }
  split; [|split; [|split]].
  - unfold bind at 1. rewrite set_parts_memoized by exact Hi.
    unfold bind at 1. rewrite (read_memoized _ _ _ _ _ _ _ Hp).
    unfold bind at 1. rewrite Hloop. cbn [fst snd app].
    unfold bind at 1. rewrite (write_memoized _ _ _ _ _ _ _ _ Hp).
    rewrite set_deps_same, (list_insert_id _ _ _ Hp).
    unfold bind at 1. rewrite self_parts_memoized by exact Hi.
    rewrite set_parts_memoized by exact Hi. reflexivity.
  - eapply gains_trans; [exact G1|]. eapply gains_trans; [exact G2|].
    apply gains_set; auto.
  - unfold Dict.mem. rewrite dict_get_set_eq. reflexivity.
  - intros _ p' d Hp' Hd. rewrite Hp in Hp'. injection Hp' as <-.
    rewrite dict_mem_set, (Hmem2 d Hd). apply orb_true_r.
Qed.

End ClosedFacts.

(** Claim C4.  [_add_part] enters a name in the memo, with the part it
    was given, before it visits the dependencies of the part, and the
    entry stays while they are visited.

    - Every call made for a dependency (the recursive call, and the
      reading of the parts of another provider) is made in a state in
      which the memo has the name with the part: putting in the place of
      these calls anything that agrees with them in such states does not
      change what [_add_part] does.
    - Consequently cycles do no harm.  Let [names] be names of parts of a
      provider, each in its local dict and each requiring only parts
      among [names], in any way; none is memoized as unavailable.  Let
      [a], not memoized, be one of them and require [b], not memoized
      either (which may require [a] in turn).  With a budget beyond the
      number of names still to memoize, [_add_part] for [a] returns, with
      [a] and [b] memoized as available; the memo has gained only names
      of [names], each as available, and no part has lost a dependency.
    - In the session of one provider whose only parts [a] and [b]
      require each other, the [parts] property returns both.
    - When [a] requires, after [b], a part that the provider does not
      provide, [parts] returns [b] without [a]: [b] was judged by the
      entry of [a] that was in the memo when [b] was visited. *)
Theorem mutual_cycle_resolves_available (target : Platforms.Architecture) :
  (forall (fuel i : nat) (name : string) (part : nat)
          (openssl : option nat) (pv : Dict.t nat) (s : Sysroot.state)
          (self : Sysroot.Component) (memo : Dict.t (option nat))
          (f : nat -> string -> nat -> option nat -> Dict.t nat ->
               Sysroot.M unit)
          (g : nat -> Sysroot.M (Dict.t (option nat))),
     Sysroot.components s !! i = Some self ->
     Sysroot._parts self = Some memo ->
     Dict.mem name memo = false ->
     (forall i' n l o pv' s',
        Deps.memo_at s' i name (Some part) ->
        f i' n l o pv' s' = Sysroot._add_part target fuel i' n l o pv' s') ->
     (forall j s',
        Deps.memo_at s' i name (Some part) ->
        g j s' = Sysroot.parts target fuel j s') ->
     Sysroot._add_part target (S fuel) i name part openssl pv s
     = Sysroot._add_part_body f g i name part openssl pv s) /\
  (forall (fuel i : nat) (s : Sysroot.state) (self : Sysroot.Component)
          (memo : Dict.t (option nat)) (pv : Dict.t nat)
          (openssl : option nat) (names : list string) (a b : string)
          (lA lB : nat) (pA : Parts.Part),
     Sysroot.components s !! i = Some self ->
     Sysroot._parts self = Some memo ->
     Deps.closed (Sysroot.store s) (Sysroot.cname self) pv names = true ->
     Deps.none_unavailable names memo = true ->
     In a names ->
     Dict.get a pv = Some lA -> Dict.get b pv = Some lB ->
     Sysroot.store s !! lA = Some pA -> In b (Parts.deps pA) ->
     Dict.get a memo = None -> Dict.get b memo = None ->
     Session.todo pv memo < fuel ->
     exists memo',
       Sysroot._add_part target fuel i a lA openssl pv s
       = Sysroot.Done tt
           (Sysroot.memoized (Sysroot.store s) (Sysroot.components s) i
              self memo') /\
       Dict.get a memo' = Some (Some lA) /\
       Dict.get b memo' = Some (Some lB) /\
       Deps.gains pv names memo memo') /\
  (forall fuel, 4 <= fuel ->
     Scenario.resolved (Sysroot.parts target fuel 0 Scenario.cycle_session)
     = Some [("P:a", Some (Parts.set_name "P:a"
                             (Scenario.with_deps ["P:b"] Scenario.part0)));
             ("P:b", Some (Parts.set_name "P:b"
                             (Scenario.with_deps ["P:a"] Scenario.part0)))]) /\
  (forall fuel, 4 <= fuel ->
     Scenario.resolved
       (Sysroot.parts target fuel 0 Scenario2.cycle_then_failure)
     = Some [("P:b", Some (Parts.set_name "P:b"
                             (Scenario.with_deps ["P:a"] Scenario.part0)))]).
Proof.
  split; [|split; [|split]].
  - intros fuel i name part openssl pv s self memo f g Hi Hm Hmem Hf Hg.
    rewrite add_part_S.
    assert (Hlen : i < length (Sysroot.components s))
      by (eapply lookup_lt_Some; eauto).
    rewrite (memoized_intro s i self memo Hi Hm).
    generalize (Sysroot.store s) (Sysroot.components s) Hlen.
    intros st cs Hl.
    rewrite !add_part_body_enters by assumption.
    unfold Sysroot.bind at 1 5.
    destruct (Sysroot.read part _) as [p s1| |] eqn:Er; [|reflexivity..].
    assert (s1 = Sysroot.memoized st cs i self
                   (Dict.set name (Some part) memo)) as ->.
    { unfold Sysroot.read in Er. simpl in Er.
      destruct (st !! part); congruence. }
    apply bind_agrees. symmetry.
    apply (loop_agrees target i name part fuel f g Hf Hg).
    eexists _, _. simpl.
    split; [apply list_lookup_insert_eq; exact Hl|].
    split; [reflexivity|apply dict_get_set_eq].
  - intros fuel i s self memo pv openssl names a b lA lB pA
      Hi Hm Hclosed Hnone Ha HlA HlB HpA Hb HmA HmB Hfuel.
    assert (Hlen : i < length (Sysroot.components s))
      by (eapply lookup_lt_Some; eauto).
    assert (HmemA : Dict.mem a memo = false)
      by (unfold Dict.mem; rewrite HmA; reflexivity).
    destruct (closed_add_part target (Sysroot.components s) i self
                (Sysroot.store s) pv openssl names Hlen Hclosed fuel memo
                a lA (proj2 (mem_names a names) Ha) HlA Hnone Hfuel)
      as (memo' & Hrun & G & HmemA' & Hdeps).
    exists memo'. rewrite (memoized_intro s i self memo Hi Hm) at 1.
    split; [exact Hrun|].
    assert (Hnew : forall x l,
              Dict.get x memo = None -> Dict.mem x memo' = true ->
              Dict.get x pv = Some l -> Dict.get x memo' = Some (Some l)).
    { intros x l Hx Hmem Hl. unfold Dict.mem in Hmem.
      destruct (G x) as [E|(_ & _ & l' & Hl' & E)].
      - rewrite E, Hx in Hmem. discriminate.
      - congruence. }
    split; [|split; [|exact G]].
    + apply Hnew; [exact HmA|exact HmemA'|exact HlA].
    + apply Hnew; [exact HmB| |exact HlB].
      exact (Hdeps HmemA pA b HpA Hb).
  - intros fuel Hfuel. with_fuel fuel 4. vm_compute. reflexivity.
  - intros fuel Hfuel. with_fuel fuel 4. vm_compute. reflexivity.
Qed.

Lemma mutual_cycle_resolves_available_witness :
  (Sysroot._add_part Platforms.Linux_x86_64 5 0 "P:a" 0 None
     [("P:a", 0); ("P:b", 1); ("P:c", 2); ("P:d", 3)]
     Scenario2.cycle_and_others
   = Sysroot._add_part_body
       (fun i' n l o pv' =>
          Deps.expecting 0 "P:a" 0
            (Sysroot._add_part Platforms.Linux_x86_64 4 i' n l o pv'))
       (fun j =>
          Deps.expecting 0 "P:a" 0 (Sysroot.parts Platforms.Linux_x86_64 4 j))
       0 "P:a" 0 None [("P:a", 0); ("P:b", 1); ("P:c", 2); ("P:d", 3)]
       Scenario2.cycle_and_others) /\
  exists memo',
    Sysroot._add_part Platforms.Linux_x86_64 5 0 "P:a" 0 None
      [("P:a", 0); ("P:b", 1); ("P:c", 2); ("P:d", 3)]
      Scenario2.cycle_and_others
    = Sysroot.Done tt
        (Sysroot.memoized (Sysroot.store Scenario2.cycle_and_others)
           (Sysroot.components Scenario2.cycle_and_others) 0
           (Sysroot.mkComponent "P" Scenario.v1
              [("a", Sysroot.Single 0); ("b", Sysroot.Single 1);
               ("c", Sysroot.Single 2); ("d", Sysroot.Single 3)] (Some []))
           memo') /\
    Dict.get "P:a" memo' = Some (Some 0) /\
    Dict.get "P:b" memo' = Some (Some 1) /\
    Deps.gains [("P:a", 0); ("P:b", 1); ("P:c", 2); ("P:d", 3)]
      ["P:a"; "P:b"; "P:c"; "P:d"] [] memo'.
Proof.
  split.
  - apply (proj1 (mutual_cycle_resolves_available Platforms.Linux_x86_64)
             4 0 "P:a" 0 None [("P:a", 0); ("P:b", 1); ("P:c", 2); ("P:d", 3)]
             Scenario2.cycle_and_others
             (Sysroot.mkComponent "P" Scenario.v1
                [("a", Sysroot.Single 0); ("b", Sysroot.Single 1);
                 ("c", Sysroot.Single 2); ("d", Sysroot.Single 3)]
                (Some []))
             []); try reflexivity.
    + intros i' n l o pv' s' (c & m & Hc & Hm & Hn).
      unfold Deps.expecting. rewrite Hc, Hm, Hn. reflexivity.
    + intros j s' (c & m & Hc & Hm & Hn).
      unfold Deps.expecting. rewrite Hc, Hm, Hn. reflexivity.
  - apply (proj1 (proj2 (mutual_cycle_resolves_available
                           Platforms.Linux_x86_64))
             5 0 Scenario2.cycle_and_others
             (Sysroot.mkComponent "P" Scenario.v1
                [("a", Sysroot.Single 0); ("b", Sysroot.Single 1);
                 ("c", Sysroot.Single 2); ("d", Sysroot.Single 3)]
                (Some []))
             [] [("P:a", 0); ("P:b", 1); ("P:c", 2); ("P:d", 3)] None
             ["P:a"; "P:b"; "P:c"; "P:d"] "P:a" "P:b" 0 1
             (Parts.set_name "P:a"
                (Scenario.with_deps ["P:c"; "P:b"] Scenario.part0)));
      try reflexivity.
    + left. reflexivity.
    + right. left. reflexivity.
    + unfold Session.todo. simpl. lia.
Defined.

(** Property X18.
    A part all of whose dependencies are optional ones, or negative ones
    in a sysroot that has OpenSSL, is available whatever its provider and
    the other providers provide: with a budget beyond the depth of
    recursion still ahead, [_add_part] completes, and when it returns it
    has memoized the part itself under its name (not [None]).  A part
    without dependencies is the simplest case. *)
Theorem optional_dependencies_never_block
    (target : Platforms.Architecture) (fuel i : nat) (name : string)
    (part : nat) (openssl : option nat) (pv : list (string * nat))
    (s : Sysroot.state) (self : Sysroot.Component)
    (memo : list (string * option nat)) (p : Parts.Part) :
  Sysroot.components s !! i = Some self ->
  Sysroot._parts self = Some memo ->
  Dict.mem name memo = false ->
  Dict.mem name pv = true ->
  Sysroot.store s !! part = Some p ->
  forallb (Deps.never_blocks openssl) (Parts.deps p) = true ->
  Session.todo pv memo + Session.pending (Sysroot.components s) < fuel ->
  Session.completes s
    (Sysroot._add_part target fuel i name part openssl pv)
    (fun _ s' => Deps.memo_at s' i name (Some part)).
Proof.
  intros Hi Hm Hmem Hpv Hp Hdeps Hfuel.
  eapply completes_and.
  { eapply (proj2 (resolver_completes target fuel)); eassumption. }
  intros [] s' H. destruct fuel as [|fuel]; [lia|].
  rewrite add_part_S in H.
  destruct (add_part_body_done _ _ _ _ _ _ _ _ _ _ _ _ Hi Hm Hmem Hp H)
    as (r & s1 & s2 & Hloop & Hmemo).
  assert (E : fst r = Some part).
  { eapply (for_each_done
              (fun (acc : option nat * list string) (_ : Sysroot.state) =>
                 fst acc = Some part));
      [| |exact Hloop]; [|reflexivity].
    intros dep acc s0 r0 s0' Hin Hacc Hd. rewrite <- Hacc.
    eapply check_dep_never_blocks; [|exact Hd].
    rewrite forallb_forall in Hdeps. apply Hdeps. exact Hin. }
  rewrite E in Hmemo. exact Hmemo.
Qed.

Lemma optional_dependencies_never_block_witness :
  exists s',
    Sysroot._add_part Platforms.Linux_x86_64 4 0 "A:partX" 1 None
      [("A:partX", 1)] Scenario2.optional_in_progress
    = Sysroot.Done tt s' /\
    Deps.memo_at s' 0 "A:partX" (Some 1).
Proof.
  eexists. split; [reflexivity|].
  exact (optional_dependencies_never_block Platforms.Linux_x86_64 4 0
           "A:partX" 1 None [("A:partX", 1)]
           Scenario2.optional_in_progress
           (Sysroot.mkComponent "A" Scenario.v1
              [("partX", Sysroot.Single 0)] (Some []))
           [] _ eq_refl eq_refl eq_refl eq_refl eq_refl eq_refl
           ltac:(simpl; lia)).
Defined.

(** Property X19.
    A part with a required dependency on a part of its own provider that
    the provider does not provide is unavailable, whatever its other
    dependencies are: with a budget beyond the depth of recursion still
    ahead, [_add_part] completes, and when it returns it has memoized
    [None] under the name of the part. *)
Theorem missing_local_dependency_blocks
    (target : Platforms.Architecture) (fuel i : nat) (name : string)
    (part : nat) (openssl : option nat) (pv : list (string * nat))
    (s : Sysroot.state) (self : Sysroot.Component)
    (memo : list (string * option nat)) (p : Parts.Part)
    (pre post : list string) (u : string) :
  Sysroot.components s !! i = Some self ->
  Sysroot._parts self = Some memo ->
  Dict.mem name memo = false ->
  Dict.mem name pv = true ->
  Sysroot.store s !! part = Some p ->
  Parts.deps p = pre ++ Parts.get_name (Sysroot.cname self) u :: post ->
  Str.contains ":" (Sysroot.cname self) = false ->
  Str.startswith "?" u = false ->
  Str.startswith "!" u = false ->
  Dict.get (Parts.get_name (Sysroot.cname self) u) pv = None ->
  Session.todo pv memo + Session.pending (Sysroot.components s) < fuel ->
  Session.completes s
    (Sysroot._add_part target fuel i name part openssl pv)
    (fun _ s' => Deps.memo_at s' i name None).
Proof.
  intros Hi Hm Hmem Hpv Hp Hdeps Hc H1 H2 Hmiss Hfuel.
  eapply completes_and.
  { eapply (proj2 (resolver_completes target fuel)); eassumption. }
  intros [] s' H. destruct fuel as [|fuel]; [lia|].
  rewrite add_part_S in H.
  destruct (add_part_body_done _ _ _ _ _ _ _ _ _ _ _ _ Hi Hm Hmem Hp H)
    as (r & s1 & s2 & Hloop & Hmemo).
  rewrite Hdeps in Hloop.
  rewrite (loop_with_missing _ _ _ _ _ _ _ _ _ Hc H1 H2 Hmiss _ _ _ _ Hloop)
    in Hmemo.
  exact Hmemo.
Qed.

Lemma missing_local_dependency_blocks_witness :
  exists s',
    Sysroot._add_part Platforms.Linux_x86_64 4 0 "A:partX" 1 None
      [("A:partX", 1)] Scenario2.required_in_progress
    = Sysroot.Done tt s' /\
    Deps.memo_at s' 0 "A:partX" None.
Proof.
  eexists. split; [reflexivity|].
  exact (missing_local_dependency_blocks Platforms.Linux_x86_64 4 0
           "A:partX" 1 None [("A:partX", 1)]
           Scenario2.required_in_progress
           (Sysroot.mkComponent "A" Scenario.v1
              [("partX", Sysroot.Single 0)] (Some []))
           [] _ ["B:?partZ"] [] "ghost"
           eq_refl eq_refl eq_refl eq_refl eq_refl eq_refl eq_refl eq_refl
           eq_refl eq_refl ltac:(simpl; lia)).
Defined.

(** ** The memo of a provider *)

Section MemoReturnFacts.

Import Parts Sysroot Session.

Variable target : Platforms.Architecture.

(** What the first reading of [parts] leaves behind. *)
Lemma parts_body_done
    (add_part : nat -> string -> loc -> option nat -> Dict.t loc -> M unit)
    (i : nat) (s : state) (self : Component) (d : Dict.t (option loc))
    (s' : state) :
  components s !! i = Some self -> _parts self = None ->
  parts_body target add_part i s = Done d s' ->
  (exists self', components s' !! i = Some self' /\ _parts self' = Some d) /\
  Forall (fun np => is_available (snd np) = true) d.
Proof.
  intros Hi Hm H. unfold parts_body in H.
  apply bind_done in H as (self0 & s0 & H0 & H).
  unfold component in H0. rewrite Hi in H0. injection H0 as <- <-.
  rewrite Hm in H.
  apply bind_done in H as (? & s1 & _ & H).
  apply bind_done in H as (openssl & s2 & _ & H).
  apply bind_done in H as (pv & s3 & _ & H).
  apply bind_done in H as (? & s4 & _ & H).
  apply bind_done in H as (memo & s5 & H5 & H).
  unfold self_parts in H5.
  destruct (components s4 !! i) as [c4|] eqn:E4; [|discriminate].
  destruct (_parts c4); [|discriminate]. injection H5 as <- <-.
  apply bind_done in H as (? & s6 & H6 & H).
  unfold set_parts in H6. rewrite E4 in H6. injection H6 as <-.
  apply ret_done in H as [<- <-]. split.
  - subst s6. eexists. simpl.
    split; [apply list_lookup_insert_eq; eapply lookup_lt_Some; eauto|].
    reflexivity.
  - apply List.Forall_forall. intros np Hin.
    apply List.filter_In in Hin as [_ Hin]. exact Hin.
Qed.

(** A memoized table is returned as it is. *)
Lemma parts_memoized
    (add_part : nat -> string -> loc -> option nat -> Dict.t loc -> M unit)
    (i : nat) (s : state) (self : Component) (d : Dict.t (option loc)) :
  components s !! i = Some self -> _parts self = Some d ->
  parts_body target add_part i s = Done d s.
Proof.
  intros Hi Hm. unfold parts_body, bind, component.
  rewrite Hi, Hm. reflexivity.
Qed.

End MemoReturnFacts.

(** Property X20.
    The [parts] property is computed once.  With a budget beyond the
    depth of recursion the providers allow, the first reading by a
    provider that has no memo yet completes; when it returns a table, every
    entry of the table is an available part (no [None] is left), the table
    is the provider's memo, and every later reading returns the same table
    without changing anything. *)
Theorem parts_are_computed_once
    (target : Platforms.Architecture) (fuel i : nat) (s : Sysroot.state)
    (self : Sysroot.Component) :
  Sysroot.components s !! i = Some self ->
  Sysroot._parts self = None ->
  Session.pending (Sysroot.components s) < fuel ->
  Session.completes s (Sysroot.parts target fuel i)
    (fun d s' =>
       Forall (fun np => Sysroot.is_available (snd np) = true) d /\
       (exists self',
          Sysroot.components s' !! i = Some self' /\
          Sysroot._parts self' = Some d) /\
       forall fuel', Sysroot.parts target (S fuel') i s' = Sysroot.Done d s').
Proof.
  intros Hi Hm Hfuel.
  eapply completes_and.
  { apply (proj1 (resolver_completes target fuel)). exact Hfuel. }
  intros d s' H. destruct fuel as [|fuel]; [lia|].
  rewrite parts_S in H.
  destruct (parts_body_done target _ _ _ _ _ _ Hi Hm H)
    as [(self' & Hi' & Hm') Hav].
  split; [exact Hav|]. split; [eauto|].
  intros fuel'. rewrite parts_S.
  exact (parts_memoized target _ _ _ _ _ Hi' Hm').
Qed.

Lemma parts_are_computed_once_witness :
  exists d s',
    Sysroot.parts Platforms.Linux_x86_64 7 0 (Scenario.session "B:?partZ")
    = Sysroot.Done d s' /\
    Forall (fun np => Sysroot.is_available (snd np) = true) d /\
    (exists self',
       Sysroot.components s' !! 0 = Some self' /\
       Sysroot._parts self' = Some d) /\
    forall fuel',
      Sysroot.parts Platforms.Linux_x86_64 (S fuel') 0 s'
      = Sysroot.Done d s'.
Proof.
  eexists _, _. split; [cbv; reflexivity|].
  exact (parts_are_computed_once Platforms.Linux_x86_64 7 0
           (Scenario.session "B:?partZ")
           (Sysroot.mkComponent "A" Scenario.v1
              [("partX", Sysroot.Single 0)] None)
           eq_refl eq_refl ltac:(simpl; lia)).
Defined.

(** ** The build set *)

Section BuildSetFacts.

Import Parts Platforms Sysroot Builder.

Variable target : Architecture.
Variable android_api : Z.
Variable available_parts : Dict.t (option loc).

Lemma grows_refl (parts : Dict.t loc) :
  Build.grows available_parts parts parts.
Proof. split; auto. Qed.

Lemma grows_trans (p0 p1 p2 : Dict.t loc) :
  Build.grows available_parts p0 p1 -> Build.grows available_parts p1 p2 ->
  Build.grows available_parts p0 p2.
Proof.
  intros [A1 B1] [A2 B2]. split.
  - intros k l H. apply A2, A1, H.
  - intros k l H. destruct (B2 k l H) as [H'|H']; [apply B1, H'|auto].
Qed.

Lemma grows_set (p0 p1 : Dict.t loc) (name : string) (l : loc) :
  Build.grows available_parts p0 p1 ->
  Dict.mem name p0 = false ->
  Dict.get name available_parts = Some (Some l) ->
  Build.grows available_parts p0 (Dict.set name l p1).
Proof.
  intros [A B] Hmem Hav. split.
  - intros k l0 H. destruct (String.eqb_spec name k) as [<-|Hne].
    + unfold Dict.mem in Hmem. rewrite H in Hmem. discriminate Hmem.
    + rewrite dict_get_set_ne by exact Hne. apply A, H.
  - intros k l0 H. destruct (String.eqb_spec name k) as [<-|Hne].
    + rewrite dict_get_set_eq in H. injection H as <-. auto.
    + rewrite dict_get_set_ne in H by exact Hne. apply B, H.
Qed.

(** The loops over the dependencies. *)
Lemma deps_loop_grows (fuel : nat) (p0 : Dict.t loc) (deps : list string) :
  (forall part_name parts s parts' s',
     _add_project_part target android_api fuel part_name parts
       available_parts s = Done parts' s' ->
     Build.grows available_parts parts parts') ->
  forall parts s parts' s',
    Build.grows available_parts p0 parts ->
    for_each deps
      (fun dep parts =>
         bind (_add_project_part target android_api fuel dep parts
                 available_parts)
           (fun parts => ret (Next, parts)))
      parts s = Done parts' s' ->
    Build.grows available_parts p0 parts'.
Proof.
  intros IH parts s parts' s' Hg H.
  eapply (for_each_done
            (fun (acc : Dict.t loc) (_ : state) =>
               Build.grows available_parts p0 acc));
    [| |exact H]; [|exact Hg].
  intros dep acc s0 r s0' _ Hacc Hd. simpl.
  apply bind_done in Hd as (parts1 & s1 & H1 & Hd).
  apply ret_done in Hd as [<- <-]. simpl.
  eapply grows_trans; [exact Hacc|]. exact (IH _ _ _ _ _ H1).
Qed.

Lemma add_project_part_grows (fuel : nat) :
  forall part_name parts s parts' s',
    _add_project_part target android_api fuel part_name parts
      available_parts s = Done parts' s' ->
    Build.grows available_parts parts parts'.
Proof.
  induction fuel as [|fuel IH]; intros part_name parts s parts' s' H;
    [discriminate H|].
  cbn [_add_project_part] in H.
  destruct (Dict.mem part_name parts) eqn:Hmem.
  { apply ret_done in H as [<- <-]. apply grows_refl. }
  apply bind_done in H as (r & s1 & Hr & H).
  assert (Hp : match r with
               | Some parts1 => Build.grows available_parts parts parts1
               | None => True
               end).
  { destruct (Str.contains "." part_name).
    - apply bind_done in Hr as (u & s2 & _ & Hr).
      apply bind_done in Hr as (n & s3 & _ & Hr).
      apply bind_done in Hr as (parent & s4 & _ & Hr).
      destruct parent as [parent_name|].
      + apply bind_done in Hr as (parts1 & s5 & H5 & Hr).
        apply ret_done in Hr as [<- <-]. exact (IH _ _ _ _ _ H5).
      + apply ret_done in Hr as [<- <-]. exact I.
    - apply ret_done in Hr as [<- <-]. apply grows_refl. }
  destruct r as [parts1|];
    [|apply ret_done in H as [<- <-]; apply grows_refl].
  destruct (Dict.get part_name available_parts) as [[l|]|] eqn:Hav;
    [|apply ret_done in H as [<- <-]; exact Hp..].
  apply bind_done in H as (part & s2 & _ & H).
  destruct (_ && _).
  { apply ret_done in H as [<- <-]. exact Hp. }
  apply bind_done in H as (parts2 & s3 & H3 & H).
  eapply (deps_loop_grows fuel parts); [exact IH| |exact H].
  eapply (deps_loop_grows fuel parts); [exact IH| |exact H3].
  apply grows_set; assumption.
Qed.

End BuildSetFacts.

(** Property X21.
    Whatever [_add_project_part] returns, it has only added to the build
    set: every entry that was in the set is still there with the same
    part, and every entry that was not is an available part of the
    sysroot under its own name.  So a part that is not available is never
    built, and an entry already made is never replaced. *)
Theorem build_set_only_gains_available_parts
    (target : Platforms.Architecture) (android_api : Z) (fuel : nat)
    (part_name : string) (parts : list (string * nat))
    (available_parts : list (string * option nat))
    (s : Sysroot.state) (parts' : list (string * nat))
    (s' : Sysroot.state) :
  Builder._add_project_part target android_api fuel part_name parts
    available_parts s = Sysroot.Done parts' s' ->
  (forall k l, Dict.get k parts = Some l -> Dict.get k parts' = Some l) /\
  (forall k l, Dict.get k parts' = Some l ->
     Dict.get k parts = Some l \/
     Dict.get k available_parts = Some (Some l)).
Proof. apply add_project_part_grows. Qed.

Lemma build_set_only_gains_available_parts_witness :
  exists parts' s',
    Builder._add_project_part Platforms.Linux_x86_64 21 5 "Python:X" []
      Scenario2.resolved_parts Scenario2.resolved_store
    = Sysroot.Done parts' s' /\
    (forall k l, Dict.get k [] = Some l -> Dict.get k parts' = Some l) /\
    (forall k l, Dict.get k parts' = Some l ->
       Dict.get k [] = Some l \/
       Dict.get k Scenario2.resolved_parts = Some (Some l)).
Proof.
  eexists _, _. split; [cbv; reflexivity|].
  exact (build_set_only_gains_available_parts Platforms.Linux_x86_64 21 5
           "Python:X" [] Scenario2.resolved_parts Scenario2.resolved_store
           _ _ eq_refl).
Defined.

Section RequestFacts.

Import Parts Platforms Sysroot Builder.

Variable target : Architecture.
Variable android_api : Z.

(** The Android API test of [_add_project_part]. *)
Local Abbreviation too_new part :=
  (String.eqb (platform_name (arch_platform target)) "android"
   && match min_android_api part with
      | Some m => (m >? android_api)%Z
      | None => false
      end).

Lemma request_unavailable (fuel : nat) (part_name : string)
    (parts : Dict.t loc) (available_parts : Dict.t (option loc))
    (s : state) :
  Dict.mem part_name parts = false ->
  Str.contains "." part_name = false ->
  Dict.get part_name available_parts = None \/
  Dict.get part_name available_parts = Some None ->
  _add_project_part target android_api (S fuel) part_name parts
    available_parts s = Done parts s.
Proof.
  intros Hmem Hdot Hav. cbn [_add_project_part].
  rewrite Hmem, Hdot. unfold bind, ret.
  destruct Hav as [-> | ->]; reflexivity.
Qed.

Lemma request_too_new (fuel : nat) (part_name : string)
    (parts : Dict.t loc) (available_parts : Dict.t (option loc))
    (s : state) (l : loc) (part : Part) :
  Dict.mem part_name parts = false ->
  Str.contains "." part_name = false ->
  Dict.get part_name available_parts = Some (Some l) ->
  store s !! l = Some part ->
  too_new part = true ->
  _add_project_part target android_api (S fuel) part_name parts
    available_parts s = Done parts s.
Proof.
  intros Hmem Hdot Hav Hl Hnew. cbn [_add_project_part].
  rewrite Hmem, Hdot. unfold bind at 1, ret at 1. rewrite Hav.
  unfold bind at 1. rewrite (read_done _ _ _ Hl).
  rewrite Hnew. reflexivity.
Qed.

Lemma request_added (fuel : nat) (part_name : string)
    (parts : Dict.t loc) (available_parts : Dict.t (option loc))
    (s : state) (l : loc) (part : Part) (parts' : Dict.t loc)
    (s' : state) :
  Dict.mem part_name parts = false ->
  Str.contains "." part_name = false ->
  Dict.get part_name available_parts = Some (Some l) ->
  store s !! l = Some part ->
  too_new part = false ->
  _add_project_part target android_api (S fuel) part_name parts
    available_parts s = Done parts' s' ->
  Dict.get part_name parts' = Some l.
Proof.
  intros Hmem Hdot Hav Hl Hnew H. cbn [_add_project_part] in H.
  rewrite Hmem, Hdot in H. unfold bind at 1, ret at 1 in H.
  rewrite Hav in H. unfold bind at 1 in H. rewrite (read_done _ _ _ Hl) in H.
  rewrite Hnew in H.
  apply bind_done in H as (parts2 & s3 & H3 & H).
  assert (G : Build.grows available_parts (Dict.set part_name l parts)
                parts').
  { eapply (deps_loop_grows target android_api available_parts fuel);
      [apply add_project_part_grows| |exact H].
    eapply (deps_loop_grows target android_api available_parts fuel);
      [apply add_project_part_grows|apply grows_refl|exact H3]. }
  apply (proj1 G). apply dict_get_set_eq.
Qed.

End RequestFacts.

(** Property X22.
    A requested name without a dot that is not yet in the build set: when
    the sysroot does not provide it, or provides it as unavailable, the
    request is ignored without an error; when the target is Android and
    the part needs a newer API level than the target's, it is ignored as
    well; otherwise, whenever the call returns, the part is in the build
    set under the requested name. *)
Theorem requested_part_is_added_when_buildable
    (target : Platforms.Architecture) (android_api : Z) (fuel : nat)
    (part_name : string) (parts : list (string * nat))
    (available_parts : list (string * option nat)) (s : Sysroot.state) :
  Dict.mem part_name parts = false ->
  Str.contains "." part_name = false ->
  let run :=
    Builder._add_project_part target android_api (S fuel) part_name parts
      available_parts s in
  let too_new (part : Parts.Part) :=
    String.eqb
      (Platforms.platform_name (Platforms.arch_platform target)) "android"
    && match Parts.min_android_api part with
       | Some m => (m >? android_api)%Z
       | None => false
       end in
  (Dict.get part_name available_parts = None \/
   Dict.get part_name available_parts = Some None ->
   run = Sysroot.Done parts s) /\
  (forall l part,
     Dict.get part_name available_parts = Some (Some l) ->
     Sysroot.store s !! l = Some part ->
     too_new part = true ->
     run = Sysroot.Done parts s) /\
  (forall l part parts' s',
     Dict.get part_name available_parts = Some (Some l) ->
     Sysroot.store s !! l = Some part ->
     too_new part = false ->
     run = Sysroot.Done parts' s' ->
     Dict.get part_name parts' = Some l).
Proof.
  intros Hmem Hdot run too_new. split; [|split].
  - apply request_unavailable; assumption.
  - intros l part. apply request_too_new; assumption.
  - intros l part parts' s'. apply request_added; assumption.
Qed.

Lemma requested_part_is_added_when_buildable_witness :
  Builder._add_project_part Platforms.Android_arm_64 21 5 "Python:N" []
    Scenario2.resolved_parts Scenario2.resolved_store
  = Sysroot.Done [] Scenario2.resolved_store /\
  exists parts' s',
    Builder._add_project_part Platforms.Linux_x86_64 21 5 "Python:N" []
      Scenario2.resolved_parts Scenario2.resolved_store
    = Sysroot.Done parts' s' /\
    Dict.get "Python:N" parts' = Some 2.
Proof.
  split.
  - exact (proj1 (proj2
      (requested_part_is_added_when_buildable Platforms.Android_arm_64 21 4
         "Python:N" [] Scenario2.resolved_parts Scenario2.resolved_store
         eq_refl eq_refl)) 2 _ eq_refl eq_refl eq_refl).
  - eexists _, _. split; [cbv; reflexivity|].
    exact (proj2 (proj2
      (requested_part_is_added_when_buildable Platforms.Linux_x86_64 21 4
         "Python:N" [] Scenario2.resolved_parts Scenario2.resolved_store
         eq_refl eq_refl)) 2 _ _ _ eq_refl eq_refl eq_refl eq_refl).
Defined.

(** ** The entry point of the application *)

Section EntryPointFacts.

Lemma split_count (c : ascii) (s : string) :
  length (Str.split c s) = S (Build.count c s).
Proof.
  induction s as [|a s IH]; [reflexivity|]. simpl.
  destruct (Ascii.eqb a c); simpl.
  - rewrite IH. reflexivity.
  - pose proof (split_nonempty c s) as Hne.
    destruct (Str.split c s); [contradiction|]. simpl in *. exact IH.
Qed.

End EntryPointFacts.

(** Property X23.
    [build] accepts the script and the entry point of a project exactly
    when one of them is given and the other is empty, and a given entry
    point has exactly one colon; every other combination raises
    [UserException].  Only the colon is counted: the entry point [":"],
    with an empty module name and an empty callable, is accepted. *)
Theorem entry_point_needs_exactly_one_colon
    (application_script application_entry_point : string) :
  (Build.check_entry_point application_script application_entry_point
     = Ok tt \/
   Build.check_entry_point application_script application_entry_point
     = Raise UserException) /\
  (Build.check_entry_point application_script application_entry_point
     = Ok tt <->
   (application_script <> "" /\ application_entry_point = "") \/
   (application_script = "" /\
    Build.count ":" application_entry_point = 1)) /\
  Build.check_entry_point "" ":" = Ok tt.
Proof.
  unfold Build.check_entry_point. rewrite split_count.
  destruct (String.eqb_spec application_script "") as [Es|Es];
    destruct (String.eqb_spec application_entry_point "") as [Ee|Ee];
    cbn [negb].
  - split; [auto|]. split; [|reflexivity]. split; [discriminate|].
    intros [[H _]|[_ H]]; [contradiction|]. rewrite Ee in H.
    discriminate H.
  - destruct (Nat.eqb_spec (S (Build.count ":" application_entry_point)) 2)
      as [E|E]; cbn [negb].
    + split; [auto|]. split; [|reflexivity]. split; [|reflexivity].
      intros _. right. split; [exact Es|lia].
    + split; [auto|]. split; [|reflexivity]. split; [discriminate|].
      intros [[H _]|[_ H]]; [contradiction|lia].
  - split; [auto|]. split; [|reflexivity]. split; [|reflexivity].
    intros _. left. auto.
  - split; [auto|]. split; [|reflexivity]. split; [discriminate|].
    intros [[_ H]|[H _]]; contradiction.
Qed.

(** ** The bootstrap script *)

Section BootstrapFacts.

Import VersionNumber VersionNumberIO.

Local Abbreviation cmp := VersionNumberIO.compare.

Variable python_version : t.

Lemma cmp_refl (v : t) : cmp v v = Eq.
Proof. apply cmp_eq_iff. reflexivity. Qed.

Lemma cmp_le_lt (a b c : t) :
  cmp a b <> Gt -> cmp b c = Lt -> cmp a c = Lt.
Proof.
  intros Hab Hbc. destruct (cmp a b) eqn:E.
  - apply cmp_eq_iff in E. subst b. exact Hbc.
  - eapply cmp_lt_trans; eassumption.
  - contradiction.
Qed.

Lemma bootstrap_version_outcomes (fn : string) :
  Build.bootstrap_version fn = Raise UserException \/
  exists v, Build.bootstrap_version fn = Ok v.
Proof. apply parse_outcomes. Qed.

(** What the loop has found among the files [seen]. *)
Local Abbreviation found seen best :=
  (match best with
   | Some (fn, v) =>
       In fn seen /\ Build.bootstrap_version fn = Ok v /\
       cmp v python_version <> Gt /\
       forall fn' w,
         In fn' seen -> Build.bootstrap_version fn' = Ok w ->
         cmp w python_version <> Gt -> cmp w v <> Gt
   | None =>
       forall fn' w,
         In fn' seen -> Build.bootstrap_version fn' = Ok w ->
         cmp w python_version = Gt
   end).

Lemma consider_found (seen : list string) (best : option (string * t))
    (fn : string) :
  found seen best ->
  exists best',
    Build.consider python_version best fn = Ok best' /\
    found (seen ++ [fn]) best'.
Proof.
  intros Hinv. unfold Build.consider.
  destruct (bootstrap_version_outcomes fn) as [E|[w E]]; rewrite E.
  { exists best. split; [reflexivity|].
    destruct best as [[f0 v0]|].
    - destruct Hinv as (H1 & H2 & H3 & H4).
      split; [apply in_or_app; auto|]. split; [exact H2|].
      split; [exact H3|]. intros fn' w' Hin Hv.
      apply in_app_or in Hin as [Hin|[<-|[]]]; [eauto|congruence].
    - intros fn' w' Hin Hv.
      apply in_app_or in Hin as [Hin|[<-|[]]]; [eauto|congruence]. }
  destruct (operators_between_versions w python_version)
    as (_ & _ & _ & -> & _). cbn [rbind].
  destruct (cmp w python_version) eqn:Ew; cbn [is_gt].
  3:{ exists best. split; [reflexivity|].
      destruct best as [[f0 v0]|].
      - destruct Hinv as (H1 & H2 & H3 & H4).
        split; [apply in_or_app; auto|]. split; [exact H2|].
        split; [exact H3|]. intros fn' w' Hin Hv Hc.
        apply in_app_or in Hin as [Hin|[<-|[]]]; [eauto|].
        rewrite E in Hv. injection Hv as <-. contradiction.
      - intros fn' w' Hin Hv.
        apply in_app_or in Hin as [Hin|[<-|[]]]; [eauto|].
        rewrite E in Hv. injection Hv as <-. exact Ew. }
  all: destruct best as [[f0 v0]|]; cbn [rbind].
  all: try (destruct (operators_between_versions v0 w)
              as (_ & -> & _); cbn [rbind];
            destruct (cmp v0 w) eqn:E0; cbn [is_lt]).
  all: eexists; (split; [reflexivity|]).
  all: try destruct Hinv as (H1 & H2 & H3 & H4).
  all: try (split; [apply in_or_app; simpl; auto|]).
  all: try (split; [first [exact E|exact H2]|]).
  all: try (split; [first [rewrite Ew; discriminate|exact H3]|]).
  all: intros fn' w' Hin Hv Hc.
  all: apply in_app_or in Hin as [Hin|[<-|[]]].
  all: try (rewrite E in Hv; injection Hv as <-).
  all: try (rewrite cmp_refl; discriminate).
  all: try (rewrite (Hinv _ _ Hin Hv) in Hc; contradiction).
  all: try (exact (H4 _ _ Hin Hv Hc)).
  all: try (rewrite (cmp_le_lt _ _ _ (H4 _ _ Hin Hv Hc) E0); discriminate).
  all: try (rewrite (cmp_antisym v0 w), E0; discriminate).
Qed.

Lemma find_bootstrap_found (files seen : list string)
    (best : option (string * t)) :
  found seen best ->
  exists best',
    Build.find_bootstrap python_version files best = Ok best' /\
    found (seen ++ files) best'.
Proof.
  revert seen best. induction files as [|fn files IH]; intros seen best H.
  - exists best. rewrite app_nil_r. split; [reflexivity|exact H].
  - destruct (consider_found seen best fn H) as (b1 & E1 & H1).
    destruct (IH _ _ H1) as (b2 & E2 & H2).
    exists b2. simpl. rewrite E1. cbn [rbind]. split; [exact E2|].
    rewrite <- app_assoc in H2. exact H2.
Qed.

End BootstrapFacts.

(** Property X24.
    The bootstrap script chosen for a version of Python.  The loop of
    [_freeze_bootstrap] never raises, whatever the names of the files are:
    a file whose name does not end in a version number is passed over.  It
    finds nothing exactly when every file that has a version is for a
    later version than Python's.  Otherwise it finds a file of the
    directory whose version is not after Python's and is the greatest such
    version: no other file with a version that is not after Python's has
    a greater one. *)
Theorem bootstrap_is_latest_not_after_python
    (python_version : VersionNumber.t) (files : list string) :
  exists best,
    Build.find_bootstrap python_version files None = Ok best /\
    match best with
    | Some (fn, v) =>
        In fn files /\ Build.bootstrap_version fn = Ok v /\
        VersionNumber.op_le v (VersionNumber.OVersion python_version)
          = Ok true /\
        forall fn' w,
          In fn' files -> Build.bootstrap_version fn' = Ok w ->
          VersionNumber.op_le w (VersionNumber.OVersion python_version)
            = Ok true ->
          VersionNumber.op_le w (VersionNumber.OVersion v) = Ok true
    | None =>
        forall fn' w,
          In fn' files -> Build.bootstrap_version fn' = Ok w ->
          VersionNumber.op_gt w (VersionNumber.OVersion python_version)
            = Ok true
    end.
Proof.
  destruct (find_bootstrap_found python_version files [] None)
    as (best & E & H).
  { intros fn' w []. }
  exists best. split; [exact E|]. simpl in H.
  destruct best as [[fn v]|].
  - destruct H as (H1 & H2 & H3 & H4).
    split; [exact H1|]. split; [exact H2|]. split.
    + destruct (operators_between_versions v python_version)
        as (_ & _ & -> & _).
      destruct (VersionNumberIO.compare v python_version);
        [reflexivity|reflexivity|contradiction].
    + intros fn' w Hin Hv Hle.
      destruct (operators_between_versions w python_version)
        as (_ & _ & Ew & _).
      destruct (operators_between_versions w v) as (_ & _ & -> & _).
      rewrite Ew in Hle.
      assert (Hc : VersionNumberIO.compare w python_version <> Gt).
      { intros G. rewrite G in Hle. discriminate Hle. }
      pose proof (H4 _ _ Hin Hv Hc) as Hwv.
      destruct (VersionNumberIO.compare w v);
        [reflexivity|reflexivity|contradiction].
  - intros fn' w Hin Hv.
    destruct (operators_between_versions w python_version)
      as (_ & _ & _ & -> & _).
    rewrite (H _ _ Hin Hv). reflexivity.
Qed.

(** ** Bundled shared libraries *)

Section SharedLibsFacts.

Variable isabs : string -> bool.
Variable join : string -> string -> string.
Variable realpath : string -> string.
Variable isfile : string -> bool.
Variables sysroot_dir target_lib_dir : string.

Local Abbreviation resolve value :=
  (if negb (isabs (Build.drop 2 value))
   then join sysroot_dir (Build.drop 2 value)
   else Build.drop 2 value).

Local Abbreviation lib_name value :=
  ("lib" ++ Build.drop 2 value ++ ".so")%string.

Lemma prefix_exclusive (value : string) :
  Py.startswith "-L" value = true -> Py.startswith "-l" value = false.
Proof.
  destruct value as [|a [|b value]]; cbn [Py.startswith];
    try discriminate.
  - rewrite !andb_false_r. discriminate.
  - destruct (Ascii.eqb_spec "-" a) as [<-|]; [|discriminate].
    destruct (Ascii.eqb_spec "L" b) as [<-|]; [|discriminate].
    reflexivity.
Qed.

Lemma last_default {A} (l : list A) (x d d' : A) :
  List.last (x :: l) d = List.last (x :: l) d'.
Proof.
  revert x. induction l as [|y l IH]; intros x; [reflexivity|].
  change (List.last (y :: l) d = List.last (y :: l) d'). apply IH.
Qed.

(** The first loop: the directory is that of the last [-L] flag, the
    libraries are those of the [-l] flags in order. *)
Lemma scan_values (libs : list string) (lib_dir : string)
    (lib_so : list string) :
  fold_left (Build.scan_value isabs join sysroot_dir) libs (lib_dir, lib_so)
  = (List.last
       (map (fun v => resolve v) (List.filter (Py.startswith "-L") libs))
       lib_dir,
     lib_so
     ++ map (fun v => lib_name v) (List.filter (Py.startswith "-l") libs)).
Proof.
  revert lib_dir lib_so. induction libs as [|value libs IH];
    intros lib_dir lib_so.
  - simpl. rewrite app_nil_r. reflexivity.
  - cbn [fold_left List.filter]. unfold Build.scan_value at 2.
    destruct (Py.startswith "-L" value) eqn:EL.
    + rewrite (prefix_exclusive _ EL). cbn [fst snd]. rewrite IH.
      f_equal. cbn [map].
      destruct (map _ (List.filter (Py.startswith "-L") libs)) eqn:Em;
        [reflexivity|].
      match goal with
      | |- _ = List.last (?x :: ?y :: ?l) ?d =>
          change (List.last (x :: y :: l) d) with (List.last (y :: l) d)
      end.
      apply last_default.
    + destruct (Py.startswith "-l" value) eqn:El.
      * cbn [fst snd]. rewrite IH. cbn [map]. rewrite <- app_assoc.
        reflexivity.
      * rewrite IH. reflexivity.
Qed.

Lemma forallb_of_map {A B} (f : A -> B) (g : B -> bool) (l : list A) :
  forallb g (map f l) = forallb (fun x => g (f x)) l.
Proof. induction l as [|x l IH]; simpl; [|rewrite IH]; reflexivity. Qed.

(** The second loop adds the path of every library, or fails at the
    first one that is not a file. *)
Lemma bundle_all (lib_dir : string) (lib_so : list string)
    (bundled : gset string) :
  Build.bundle join realpath isfile lib_dir lib_so bundled
  = if forallb (fun lib => isfile (realpath (join lib_dir lib))) lib_so
    then Ok (bundled
             ∪ list_to_set
                 (map (fun lib => realpath (join lib_dir lib)) lib_so))
    else Raise UserException.
Proof.
  revert bundled. induction lib_so as [|lib lib_so IH]; intros bundled.
  - simpl. rewrite (right_id_L ∅ (∪)). reflexivity.
  - simpl. destruct (isfile (realpath (join lib_dir lib))); cbn [negb andb];
      [|reflexivity].
    rewrite IH. destruct (forallb _ lib_so); [|reflexivity].
    rewrite (assoc_L (∪)). reflexivity.
Qed.

End SharedLibsFacts.

(** Property X25.
    The shared libraries bundled for a component library.  Flags other
    than [-L] and [-l] are ignored.  Every [-lNAME] flag names the file
    [libNAME.so] in one directory: the directory of the last [-L] flag of
    the whole list, also for the [-l] flags that come before it (relative
    to the sysroot directory unless absolute), or the library directory of
    the sysroot when there is no [-L] flag.  When all these files exist
    their real paths are added to the set and nothing else is; when one
    does not exist the call raises [UserException]; with an empty
    directory nothing is bundled.  A part without libraries for the
    target ([libs] is [None]) raises [TypeError]. *)
Theorem bundled_libraries_use_the_last_directory
    (isabs : string -> bool) (join : string -> string -> string)
    (realpath : string -> string) (isfile : string -> bool)
    (sysroot_dir target_lib_dir : string) (libs : list string)
    (bundled : gset string) :
  let lib_dir :=
    List.last
      (map (fun v => if negb (isabs (Build.drop 2 v))
                     then join sysroot_dir (Build.drop 2 v)
                     else Build.drop 2 v)
         (List.filter (Py.startswith "-L") libs))
      target_lib_dir in
  let paths :=
    map (fun v =>
           realpath (join lib_dir ("lib" ++ Build.drop 2 v ++ ".so")%string))
      (List.filter (Py.startswith "-l") libs) in
  Build._add_bundled_shared_libs isabs join realpath isfile sysroot_dir
    target_lib_dir (Some libs) bundled
  = (if String.eqb lib_dir "" then Ok bundled
     else if forallb isfile paths then Ok (bundled ∪ list_to_set paths)
     else Raise UserException) /\
  Build._add_bundled_shared_libs isabs join realpath isfile sysroot_dir
    target_lib_dir None bundled
  = Raise TypeError.
Proof.
  intros lib_dir paths. split; [|reflexivity].
  unfold Build._add_bundled_shared_libs, Build.scan.
  rewrite scan_values. cbn [fst snd app]. fold lib_dir.
  destruct (String.eqb lib_dir ""); cbn [negb]; [reflexivity|].
  rewrite bundle_all. unfold paths.
  rewrite !List.map_map, !forallb_of_map. reflexivity.
Qed.

(** ** Looking components up *)

Section LookupFacts.

Import Sysroot.

Lemma index_of_first (name : string) (cs : list Component) :
  match index_of name cs with
  | Some j =>
      (exists c, cs !! j = Some c /\ cname c = name) /\
      forall k c, k < j -> cs !! k = Some c -> cname c <> name
  | None => Forall (fun c => cname c <> name) cs
  end.
Proof.
  induction cs as [|c cs IH]; simpl; [constructor|].
  destruct (String.eqb_spec (cname c) name) as [E|E].
  - split; [exists c; auto|]. intros k c' Hk. lia.
  - destruct (index_of name cs) as [j|].
    + destruct IH as [(c0 & H1 & H2) H3]. split; [exists c0; auto|].
      intros [|k] c' Hk Hc'; simpl in Hc'.
      * injection Hc' as <-. exact E.
      * apply (H3 k c'); [lia|exact Hc'].
    + constructor; assumption.
Qed.

Lemma components_from_names_ok (cs : list Component)
    (names : list string) (js : list nat) :
  Lookup._components_from_names cs names = Ok js <->
  Forall2 (fun name j => index_of name cs = Some j) names js.
Proof.
  revert js. induction names as [|n names IH]; intros js; simpl.
  - split; [intros [= <-]; constructor|]. intros H. inversion H.
    reflexivity.
  - destruct (index_of n cs) as [j|] eqn:E.
    + destruct (Lookup._components_from_names cs names) as [r|e] eqn:Er;
        cbn [rbind].
      * split.
        -- intros [= <-]. constructor; [exact E|]. apply IH. reflexivity.
        -- intros H. inversion H as [|? j' ? r' Hj Hr]; subst.
           rewrite E in Hj. injection Hj as <-.
           apply IH in Hr. injection Hr as <-. reflexivity.
      * split; [discriminate|]. intros H.
        inversion H as [|? j' ? r' Hj Hr]; subst.
        apply IH in Hr. discriminate Hr.
    + split; [discriminate|]. intros H.
      inversion H as [|? j' ? r' Hj Hr]; subst. rewrite E in Hj.
      discriminate Hj.
Qed.

Lemma components_from_names_outcomes (cs : list Component)
    (names : list string) :
  Lookup._components_from_names cs names = Raise UserException \/
  exists js, Lookup._components_from_names cs names = Ok js.
Proof.
  induction names as [|n names IH]; simpl; [right; eauto|].
  destruct (index_of n cs); [|left; reflexivity].
  destruct IH as [->|[js ->]]; [left; reflexivity|right; eauto].
Qed.

End LookupFacts.

(** Property X26.
    Looking a component up by name.  [get_component] returns the first
    component of the sysroot with the name; when there is none it returns
    [None], or raises [UserException] if the component is required.
    [_components_from_names] returns, for each requested name in order,
    the first component with that name, and raises [UserException] as
    soon as one name is unknown. *)
Theorem component_lookup_finds_the_first
    (cs : list Sysroot.Component) (name : string) (names : list string) :
  match Lookup.get_component cs name false with
  | Ok (Some j) =>
      Lookup.get_component cs name true = Ok (Some j) /\
      (exists c, cs !! j = Some c /\ Sysroot.cname c = name) /\
      forall k c, k < j -> cs !! k = Some c -> Sysroot.cname c <> name
  | Ok None =>
      Lookup.get_component cs name true = Raise UserException /\
      Forall (fun c => Sysroot.cname c <> name) cs
  | Raise _ => False
  end /\
  (forall js,
     Lookup._components_from_names cs names = Ok js <->
     Forall2 (fun name j => Sysroot.index_of name cs = Some j) names js) /\
  (Lookup._components_from_names cs names = Raise UserException \/
   exists js, Lookup._components_from_names cs names = Ok js).
Proof.
  split; [|split].
  - unfold Lookup.get_component. pose proof (index_of_first name cs) as H.
    destruct (Sysroot.index_of name cs) as [j|].
    + destruct H as [H1 H2]. auto.
    + auto.
  - intros js. apply components_from_names_ok.
  - apply components_from_names_outcomes.
Qed.

(** ** Installing components *)

Section InstallFacts.

Import Install.

Lemma same_refl (s : state) : same_components s s.
Proof.
  unfold same_components. induction (components s); constructor; auto.
Qed.

Lemma same_trans (s1 s2 s3 : state) :
  same_components s1 s2 -> same_components s2 s3 -> same_components s1 s3.
Proof.
  unfold same_components. generalize (components s1) (components s2)
    (components s3).
  intros l1 l2 l3 H. revert l3.
  induction H as [|c1 c2 l1 l2 (A & B & C) _ IH]; intros l3 H3;
    inversion H3 as [|? c3 ? l3' (A' & B' & C') H3']; subst; constructor.
  - repeat split; congruence.
  - apply IH. exact H3'.
Qed.

Lemma same_lookup (s s' : state) (i : nat) (c : component) :
  same_components s s' -> components s !! i = Some c ->
  exists c', components s' !! i = Some c' /\ name c' = name c /\
    version c' = version c /\ preinstalls c' = preinstalls c.
Proof.
  unfold same_components. intros H Hi.
  destruct (Forall2_lookup_l _ _ _ _ _ H Hi) as (c' & Hc' & Hs). eauto.
Qed.

Lemma same_lookup_r (s s' : state) (i : nat) (c' : component) :
  same_components s s' -> components s' !! i = Some c' ->
  exists c, components s !! i = Some c /\ name c' = name c /\
    version c' = version c /\ preinstalls c' = preinstalls c.
Proof.
  unfold same_components. intros H Hi.
  destruct (Forall2_lookup_r _ _ _ _ _ H Hi) as (c & Hc & Hs). eauto.
Qed.

Lemma same_index_of (s s' : state) (p : string) :
  same_components s s' ->
  index_of p (components s') = index_of p (components s).
Proof.
  unfold same_components.
  induction 1 as [|c c' l l' (A & _) _ IH]; [reflexivity|].
  simpl. rewrite A, IH. reflexivity.
Qed.

Lemma index_of_name (p : string) (cs : list component) (j : nat) :
  index_of p cs = Some j -> exists c, cs !! j = Some c /\ name c = p.
Proof.
  revert j. induction cs as [|c cs IH]; intros j; simpl; [discriminate|].
  destruct (String.eqb_spec (name c) p) as [E|_].
  - intros [= <-]. eauto.
  - destruct (index_of p cs) as [k|]; [|discriminate].
    intros [= <-]. exact (IH k eq_refl).
Qed.

Lemma set_status_same (i : nat) (st : status) (s : state) :
  same_components s (set_status i st s).
Proof.
  unfold set_status. destruct (components s !! i) as [c|] eqn:E;
    [|apply same_refl].
  unfold same_components. simpl.
  rewrite <- (list_insert_id (components s) i c E) at 1.
  apply Forall2_insert; [|simpl; auto].
  generalize (components s). intros l. induction l; constructor; auto.
Qed.

Lemma follows_refl (s : state) : follows s s.
Proof.
  split; [apply same_refl|]. exists [].
  split; [rewrite app_nil_r; reflexivity|]. split.
  - intros k. split; [auto|]. intros [H|(j & c & [] & _)]. exact H.
  - intros before i after self p j E. destruct before; discriminate E.
Qed.

Lemma follows_trans (s1 s2 s3 : state) :
  follows s1 s2 -> follows s2 s3 -> follows s1 s3.
Proof.
  intros (S12 & n1 & L1 & M1 & O1) (S23 & n2 & L2 & M2 & O2).
  split; [eapply same_trans; eassumption|].
  exists (n1 ++ n2). split; [rewrite L2, L1, app_assoc; reflexivity|].
  split.
  - intros k. rewrite M2, M1. split.
    + intros [[H|(j & c & Hj & Hc & Hn)]|(j & c & Hj & Hc & Hn)].
      * auto.
      * right. exists j, c. split; [apply in_or_app; auto|auto].
      * destruct (same_lookup_r _ _ _ _ S12 Hc) as (c0 & Hc0 & E & _).
        right. exists j, c0. split; [apply in_or_app; auto|].
        split; [exact Hc0|congruence].
    + intros [H|(j & c & Hj & Hc & Hn)]; [auto|].
      apply in_app_or in Hj as [Hj|Hj].
      * left. right. eauto.
      * destruct (same_lookup _ _ _ _ S12 Hc) as (c' & Hc' & E & _).
        right. exists j, c'. split; [exact Hj|].
        split; [exact Hc'|congruence].
  - intros before i after self p j E Hi Hp Hj.
    apply app_eq_app in E as [l [[E1 E2]|[E1 E2]]].
    + destruct l as [|x l].
      * simpl in E2. rewrite app_nil_r in E1. subst before.
        destruct (same_lookup _ _ _ _ S12 Hi) as (self' & Hi' & _ & _ & Ep).
        rewrite <- Ep in Hp. rewrite <- (same_index_of _ _ p S12) in Hj.
        destruct (O2 [] i after self' p j (eq_sym E2) Hi' Hp Hj)
          as [H|(j' & c' & [] & _)].
        apply M1 in H as [H|(j' & c' & Hj' & Hc' & Hn)]; [auto|].
        right. eauto.
      * injection E2 as <- E2. subst n1.
        exact (O1 before i l self p j eq_refl Hi Hp Hj).
    + subst before.
      destruct (same_lookup _ _ _ _ S12 Hi) as (self' & Hi' & _ & _ & Ep).
      rewrite <- Ep in Hp. rewrite <- (same_index_of _ _ p S12) in Hj.
      destruct (O2 l i after self' p j E2 Hi' Hp Hj)
        as [H|(j' & c' & Hj' & Hc' & Hn)].
      * apply M1 in H as [H|(j' & c' & Hj' & Hc' & Hn)]; [auto|].
        right. exists j', c'. split; [apply in_or_app; auto|auto].
      * destruct (same_lookup_r _ _ _ _ S12 Hc') as (c0 & Hc0 & E & _).
        right. exists j', c0. split; [apply in_or_app; auto|].
        split; [exact Hc0|congruence].
Qed.

Lemma follows_manifest (s s' : state) (k : string) :
  follows s s' -> Dict.mem k (manifest s) = true ->
  Dict.mem k (manifest s') = true.
Proof. intros (_ & n & _ & M & _) H. apply M. auto. Qed.

Lemma set_status_lookup (i : nat) (st : status) (s : state) (j : nat)
    (c : component) :
  components (set_status i st s) !! j = Some c ->
  exists c0, components s !! j = Some c0 /\ name c = name c0 /\
    (_install_status c = _install_status c0 \/
     (j = i /\ _install_status c = st)).
Proof.
  unfold set_status. destruct (components s !! i) as [ci|] eqn:E.
  - simpl. destruct (Nat.eq_dec i j) as [->|Hne].
    + rewrite list_lookup_insert_eq by (eapply lookup_lt_Some; eauto).
      intros [= <-]. exists ci. simpl. auto.
    + rewrite list_lookup_insert_ne by exact Hne. intros H.
      exists c. auto.
  - intros H. exists c. auto.
Qed.

Lemma set_status_manifest (i : nat) (st : status) (s : state) :
  manifest (set_status i st s) = manifest s.
Proof. unfold set_status. destruct (components s !! i); reflexivity. Qed.

Lemma set_status_consistent (i : nat) (st : status) (s : state) :
  (st = _IS_INSTALLED ->
   forall c, components s !! i = Some c ->
     Dict.mem (name c) (manifest s) = true) ->
  consistent s -> consistent (set_status i st s).
Proof.
  intros Hst Hc j c Hj Hs.
  destruct (set_status_lookup _ _ _ _ _ Hj) as (c0 & Hc0 & En & Es).
  rewrite set_status_manifest, En. destruct Es as [Es|[-> Es]].
  - apply (Hc j c0 Hc0). congruence.
  - apply Hst; [congruence|exact Hc0].
Qed.

Lemma set_status_follows (i : nat) (st : status) (s : state) :
  follows s (set_status i st s).
Proof.
  split; [apply set_status_same|]. exists []. split.
  { unfold set_status. destruct (components s !! i); simpl;
      rewrite app_nil_r; reflexivity. }
  split.
  - intros k. rewrite set_status_manifest. split; [auto|].
    intros [H|(j & c & [] & _)]. exact H.
  - intros before j after self p j' E. destruct before; discriminate E.
Qed.

Section Recursion.

Variable install_fails : string -> bool.
Variable ensure : nat -> state -> outcome.

Hypothesis ensure_follows :
  forall i s s',
    consistent s -> ensure i s = Done s' ->
    consistent s' /\ follows s s' /\
    forall c, components s !! i = Some c ->
      Dict.mem (name c) (manifest s') = true.

Lemma preinstall_follows (ps : list string) (s s' : state) :
  consistent s -> preinstall ensure ps s = Done s' ->
  consistent s' /\ follows s s' /\
  forall p j, In p ps -> index_of p (components s) = Some j ->
    Dict.mem p (manifest s') = true.
Proof.
  revert s. induction ps as [|p ps IH]; intros s Hc H.
  - injection H as <-. split; [exact Hc|].
    split; [apply follows_refl|]. intros p j [].
  - simpl in H. destruct (index_of p (components s)) as [j|] eqn:Ej.
    + destruct (ensure j s) as [s1| |] eqn:E1; try discriminate H.
      destruct (ensure_follows _ _ _ Hc E1) as (C1 & F1 & M1).
      destruct (IH _ C1 H) as (C2 & F2 & M2).
      split; [exact C2|].
      split; [eapply follows_trans; eassumption|].
      intros p0 j0 [<-|Hin] Hj0.
      * destruct (index_of_name _ _ _ Ej) as (c & Hc' & <-).
        eapply follows_manifest; [exact F2|]. exact (M1 c Hc').
      * apply (M2 p0 j0 Hin).
        rewrite (same_index_of _ _ _ (proj1 F1)). exact Hj0.
    + destruct (IH _ Hc H) as (C2 & F2 & M2). split; [exact C2|].
      split; [exact F2|].
      intros p0 j0 [<-|Hin] Hj0; [congruence|].
      exact (M2 p0 j0 Hin Hj0).
Qed.

Lemma ensure_installed_body_follows (i : nat) (s s' : state) :
  consistent s ->
  ensure_installed_body install_fails true ensure i s = Done s' ->
  consistent s' /\ follows s s' /\
  forall c, components s !! i = Some c ->
    Dict.mem (name c) (manifest s') = true.
Proof.
  intros Hcons. unfold ensure_installed_body.
  destruct (components s !! i) as [self|] eqn:Hi; [|discriminate].
  destruct (Dict.mem (name self) (manifest s)) eqn:Hmem.
  { intros [= <-]. split; [|split].
    - apply set_status_consistent; [|exact Hcons].
      intros _ c Hc. congruence.
    - apply set_status_follows.
    - intros c [= <-]. rewrite set_status_manifest. exact Hmem. }
  destruct (_install_status self) eqn:Hst; try discriminate.
  - set (s1 := set_status i _IS_IN_PROGRESS s).
    assert (F1 : follows s s1) by apply set_status_follows.
    assert (C1 : consistent s1)
      by (apply set_status_consistent; [discriminate|exact Hcons]).
    destruct (preinstall ensure (preinstalls self) s1) as [s2| |] eqn:E2;
      try discriminate.
    destruct (preinstall_follows _ _ _ C1 E2) as (C2 & F2 & M2).
    destruct (install_fails (name self)); [discriminate|].
    intros [= <-].
    destruct (same_lookup _ _ _ _ (proj1 F1) Hi) as (c1 & Hc1 & N1 & V1 & P1).
    destruct (same_lookup _ _ _ _ (proj1 F2) Hc1)
      as (c2 & Hc2 & N2 & V2 & P2).
    set (s3 := mkState (components s2) (manifest s2) (installs s2 ++ [i])).
    assert (E3 : set_status i _IS_INSTALLED s3
                 = mkState
                     (<[i := mkComponent (name c2) (version c2)
                               (preinstalls c2) _IS_INSTALLED]>
                        (components s2))
                     (manifest s2) (installs s2 ++ [i])).
    { unfold set_status, s3. simpl. rewrite Hc2. reflexivity. }
    rewrite E3. cbn [components manifest installs].
    set (s4 := mkState _ _ _).
    assert (C4 : consistent s4).
    { intros j c Hj Hs. unfold s4 in Hj |- *. simpl in Hj |- *.
      rewrite dict_mem_set.
      destruct (Nat.eq_dec i j) as [<-|Hne].
      + rewrite list_lookup_insert_eq in Hj
          by (eapply lookup_lt_Some; eauto).
        injection Hj as <-. simpl. rewrite N2, N1, String.eqb_refl.
        reflexivity.
      + rewrite list_lookup_insert_ne in Hj by exact Hne.
        rewrite (C2 j c Hj Hs). apply orb_true_r. }
    assert (F4 : follows s2 s4).
    { split.
      - unfold same_components, s4. simpl.
        rewrite <- (list_insert_id (components s2) i c2 Hc2) at 1.
        apply Forall2_insert; [|simpl; auto].
        generalize (components s2). intros l.
        induction l; constructor; auto.
      - exists [i]. split; [reflexivity|]. split.
        + intros k. unfold s4. simpl. rewrite dict_mem_set. split.
          * intros H. apply orb_true_iff in H as [H|H]; [|auto].
            apply String.eqb_eq in H. right. exists i, c2.
            split; [simpl; auto|]. split; [exact Hc2|congruence].
          * intros [H|(j & c & [<-|[]] & Hc & Hn)];
              [rewrite H; apply orb_true_r|].
            rewrite Hc2 in Hc. injection Hc as <-.
            rewrite <- Hn, N2, N1, String.eqb_refl. reflexivity.
        + intros before j after self0 p j0 E Hj Hp Hj0.
          destruct before as [|x before];
            [|destruct before; discriminate E].
          injection E as <- _. rewrite Hc2 in Hj. injection Hj as <-.
          left. rewrite P2, P1 in Hp.
          apply (M2 p j0 Hp).
          rewrite <- (same_index_of _ _ _ (proj1 F2)). exact Hj0. }
    split; [exact C4|]. split.
    + eapply follows_trans; [exact F1|].
      eapply follows_trans; [exact F2|exact F4].
    + intros c [= <-]. unfold s4. simpl. rewrite dict_mem_set.
      rewrite String.eqb_refl. reflexivity.
  - intros [= <-]. split; [exact Hcons|]. split; [apply follows_refl|].
    intros c [= <-]. apply (Hcons i self Hi Hst).
Qed.

End Recursion.

Lemma ensure_installed_follows (install_fails : string -> bool)
    (fuel : nat) :
  forall i s s',
    consistent s ->
    ensure_installed install_fails true fuel i s = Done s' ->
    consistent s' /\ follows s s' /\
    forall c, components s !! i = Some c ->
      Dict.mem (name c) (manifest s') = true.
Proof.
  induction fuel as [|fuel IH]; intros i s s' Hc H; [discriminate H|].
  simpl in H.
  exact (ensure_installed_body_follows install_fails _ IH i s s' Hc H).
Qed.

Lemma install_components_follows (install_fails : string -> bool)
    (fuel : nat) (todo : list nat) :
  forall s s',
    consistent s ->
    install_components install_fails true fuel todo s = Done s' ->
    consistent s' /\ follows s s' /\
    forall i c, In i todo -> components s !! i = Some c ->
      Dict.mem (name c) (manifest s') = true.
Proof.
  induction todo as [|i todo IH]; intros s s' Hc H.
  - injection H as <-. split; [exact Hc|].
    split; [apply follows_refl|]. intros i c [].
  - simpl in H.
    destruct (ensure_installed install_fails true fuel i s) as [s1| |]
      eqn:E1; try discriminate H.
    destruct (ensure_installed_follows _ _ _ _ _ Hc E1) as (C1 & F1 & M1).
    destruct (IH _ _ C1 H) as (C2 & F2 & M2).
    split; [exact C2|]. split; [eapply follows_trans; eassumption|].
    intros j c [<-|Hin] Hj.
    + eapply follows_manifest; [exact F2|]. exact (M1 c Hj).
    + destruct (same_lookup _ _ _ _ (proj1 F1) Hj) as (c' & Hc' & <- & _).
      exact (M2 j c' Hin Hc').
Qed.

End InstallFacts.

Section InstallCompletion.

Import Install.

Variable install_fails : string -> bool.
Variable all_components : bool.

Lemma count_insert (cs : list component) (i : nat) (c c' : component) :
  cs !! i = Some c ->
  length (List.filter not_installed (<[i := c']> cs))
  + (if not_installed c then 1 else 0)
  = length (List.filter not_installed cs)
    + (if not_installed c' then 1 else 0).
Proof.
  revert i. induction cs as [|c0 cs IH]; intros [|i] H; simpl in *;
    try discriminate.
  - injection H as ->. destruct (not_installed c), (not_installed c');
      simpl; lia.
  - specialize (IH i H). destruct (not_installed c0); simpl; lia.
Qed.

Lemma pending_set_status (i : nat) (st : status) (s : state)
    (c : component) :
  components s !! i = Some c ->
  pending (set_status i st s) + (if not_installed c then 1 else 0)
  = pending s
    + (match st with _IS_NOT_INSTALLED => 1 | _ => 0 end).
Proof.
  intros H. unfold pending, set_status. rewrite H. simpl.
  rewrite (count_insert _ _ _ _ H). unfold not_installed at 3. simpl.
  destruct st; reflexivity.
Qed.

Lemma pending_set_status_le (i : nat) (st : status) (s : state) :
  st <> _IS_NOT_INSTALLED -> pending (set_status i st s) <= pending s.
Proof.
  intros Hst. destruct (components s !! i) as [c|] eqn:E.
  - pose proof (pending_set_status i st s c E) as H.
    destruct st; [contradiction| |]; destruct (not_installed c); lia.
  - unfold set_status. rewrite E. lia.
Qed.

Section Step.

Variable ensure : nat -> state -> outcome.
Variable fuel : nat.

Hypothesis ensure_completes :
  forall i s,
    pending s < fuel ->
    completes (ensure i s) (fun s' => pending s' <= pending s).

Lemma preinstall_completes (ps : list string) (s : state) :
  pending s < fuel ->
  completes (preinstall ensure ps s) (fun s' => pending s' <= pending s).
Proof.
  revert s. induction ps as [|p ps IH]; intros s H; simpl; [lia|].
  destruct (index_of p (components s)) as [j|]; [|apply IH; exact H].
  pose proof (ensure_completes j s H) as Hj.
  destruct (ensure j s) as [s1| |]; simpl in Hj |- *; [|exact I|exact Hj].
  assert (H1 : pending s1 < fuel) by lia.
  specialize (IH s1 H1).
  destruct (preinstall ensure ps s1); simpl in IH |- *;
    [lia|exact I|exact IH].
Qed.

Lemma ensure_installed_body_completes (i : nat) (s : state) :
  pending s < S fuel ->
  completes (ensure_installed_body install_fails all_components ensure i s)
    (fun s' => pending s' <= pending s).
Proof.
  intros H. unfold ensure_installed_body.
  destruct (components s !! i) as [self|] eqn:Hi; [|exact I].
  destruct (Dict.mem (name self) (manifest s)).
  { simpl. apply pending_set_status_le. discriminate. }
  destruct (_install_status self) eqn:Hst; [|exact I|simpl; lia].
  pose proof (pending_set_status i _IS_IN_PROGRESS s self Hi) as H1.
  unfold not_installed in H1. rewrite Hst in H1.
  set (s1 := set_status i _IS_IN_PROGRESS s) in *.
  assert (Hloop : completes
            (if all_components then preinstall ensure (preinstalls self) s1
             else Done s1)
            (fun s' => pending s' <= pending s1)).
  { destruct all_components; [|simpl; lia].
    apply preinstall_completes. lia. }
  destruct (if all_components then _ else _) as [s2| |];
    simpl in Hloop |- *; [|exact I|exact Hloop].
  destruct (install_fails (name self)); [exact I|]. simpl.
  pose proof (pending_set_status_le i _IS_INSTALLED
                (mkState (components s2) (manifest s2) (installs s2 ++ [i]))
                ltac:(discriminate)) as H2.
  unfold pending in *. simpl in *. lia.
Qed.

End Step.

Lemma ensure_installed_completes (fuel : nat) :
  forall i s,
    pending s < fuel ->
    completes (ensure_installed install_fails all_components fuel i s)
      (fun s' => pending s' <= pending s).
Proof.
  induction fuel as [|fuel IH]; intros i s H; [lia|].
  simpl.
  exact (ensure_installed_body_completes
           (ensure_installed install_fails all_components fuel) fuel IH
           i s H).
Qed.

Lemma install_components_completes (fuel : nat) (todo : list nat) :
  forall s,
    pending s < fuel ->
    completes
      (install_components install_fails all_components fuel todo s)
      (fun s' => pending s' <= pending s).
Proof.
  induction todo as [|i todo IH]; intros s H; simpl; [lia|].
  pose proof (ensure_installed_completes fuel i s H) as Hi.
  destruct (ensure_installed install_fails all_components fuel i s)
    as [s1| |]; simpl in Hi |- *; [|exact I|exact Hi].
  assert (H1 : pending s1 < fuel) by lia. specialize (IH s1 H1).
  destruct (install_components _ _ _ _ s1); simpl in IH |- *;
    [lia|exact I|exact IH].
Qed.

End InstallCompletion.

(** Property X27.
    When all components are installed, they are installed in the right
    order.  Starting with no component marked as installed that is not in
    the manifest, and with a budget above the number of components that
    are not installed, the loop of [install_components] completes (it
    returns or raises).  When it returns, the calls of [install()] it made
    come after the earlier ones, and in the order of these calls every
    component was installed only when each of its preinstalls that is a
    component of the sysroot was in the manifest already or had been
    installed before it.  The manifest has gained exactly the names of
    the components installed, and every component that was to be
    installed is in it. *)
Theorem preinstalls_are_installed_first
    (install_fails : string -> bool) (fuel : nat) (todo : list nat)
    (s : Install.state) :
  Install.consistent s ->
  Install.pending s < fuel ->
  Install.completes
    (Install.install_components install_fails true fuel todo s)
    (fun s' =>
       exists new,
         Install.installs s' = Install.installs s ++ new /\
         (forall before i after self p j,
            new = before ++ i :: after ->
            Install.components s !! i = Some self ->
            In p (Install.preinstalls self) ->
            Install.index_of p (Install.components s) = Some j ->
            Dict.mem p (Install.manifest s) = true \/
            exists j' c',
              In j' before /\ Install.components s !! j' = Some c' /\
              Install.name c' = p) /\
         (forall k,
            Dict.mem k (Install.manifest s') = true <->
            Dict.mem k (Install.manifest s) = true \/
            exists j c,
              In j new /\ Install.components s !! j = Some c /\
              Install.name c = k) /\
         (forall i c,
            In i todo -> Install.components s !! i = Some c ->
            Dict.mem (Install.name c) (Install.manifest s') = true)).
Proof.
  intros Hc Hfuel.
  pose proof (install_components_completes install_fails true fuel todo
                s Hfuel) as Hdone.
  pose proof (install_components_follows install_fails fuel todo s) as H.
  destruct (Install.install_components install_fails true fuel todo s)
    as [s'| |]; simpl in Hdone |- *; [|exact I|exact Hdone].
  destruct (H s' Hc eq_refl) as (_ & (_ & new & L & M & O) & T).
  exists new. auto.
Qed.

Lemma preinstalls_are_installed_first_witness :
  exists s',
    Install.install_components (fun _ => false) true 4 [0; 1; 2]
      Scenario3.desktop = Install.Done s' /\
    Install.installs s' = [2; 1; 0] /\
    Dict.keys (Install.manifest s') = ["zlib"; "Qt"; "Python"] /\
    exists new,
      Install.installs s' = Install.installs Scenario3.desktop ++ new /\
      Install.in_order Scenario3.desktop new.
Proof.
  eexists. split; [reflexivity|]. split; [reflexivity|].
  split; [reflexivity|].
  destruct (preinstalls_are_installed_first (fun _ => false) 4 [0; 1; 2]
              Scenario3.desktop
              ltac:(intros [|[|[|i]]] c H E; simpl in H;
                    try discriminate H; injection H as <-; discriminate E)
              ltac:(unfold Install.pending; simpl; lia))
    as (new & L & O & _).
  exists new. split; [exact L|exact O].
Defined.

Section CircularFacts.

Import Install.

Lemma set_status_at (i : nat) (st : status) (s : state) (c : component) :
  components s !! i = Some c ->
  components (set_status i st s) !! i
  = Some (mkComponent (name c) (version c) (preinstalls c) st).
Proof.
  intros H. unfold set_status. rewrite H. simpl.
  apply list_lookup_insert_eq. eapply lookup_lt_Some; eauto.
Qed.

Lemma set_status_other (i j : nat) (st : status) (s : state) :
  i <> j -> components (set_status i st s) !! j = components s !! j.
Proof.
  intros H. unfold set_status. destruct (components s !! i); [|reflexivity].
  simpl. apply list_lookup_insert_ne. exact H.
Qed.

Lemma set_status_index_of (i : nat) (st : status) (s : state) (p : string) :
  index_of p (components (set_status i st s)) = index_of p (components s).
Proof. apply same_index_of, set_status_same. Qed.

Lemma set_status_installs (i : nat) (st : status) (s : state) :
  installs (set_status i st s) = installs s.
Proof. unfold set_status. destruct (components s !! i); reflexivity. Qed.

Lemma ensure_installed_S (install_fails : string -> bool) (fuel : nat)
    (all_components : bool) (i : nat) (s : state) :
  ensure_installed install_fails all_components (S fuel) i s
  = ensure_installed_body install_fails all_components
      (ensure_installed install_fails all_components fuel) i s.
Proof. reflexivity. Qed.

(** A component that is being installed and is reached again. *)
Lemma ensure_in_progress (install_fails : string -> bool) (fuel i : nat)
    (s : state) (c : component) :
  components s !! i = Some c ->
  Dict.mem (name c) (manifest s) = false ->
  _install_status c = _IS_IN_PROGRESS ->
  ensure_installed install_fails true (S fuel) i s = Raised UserException s.
Proof.
  intros Hi Hm Hs. simpl. unfold ensure_installed_body.
  rewrite Hi, Hm, Hs. reflexivity.
Qed.

End CircularFacts.

(** Property X28.
    A circular dependency between the preinstalls is detected.  When
    component A is to be installed first after B, and B first after A (or
    A first after itself), neither being installed yet, [ensure_installed]
    of A raises [UserException] before [install()] of any component is
    called. *)
Theorem circular_preinstalls_are_rejected
    (install_fails : string -> bool) (fuel a b : nat) (s : Install.state)
    (A B : Install.component) (restA restB : list string) :
  Install.components s !! a = Some A ->
  Install.components s !! b = Some B ->
  Install.index_of (Install.name A) (Install.components s) = Some a ->
  Install.index_of (Install.name B) (Install.components s) = Some b ->
  Install._install_status A = Install._IS_NOT_INSTALLED ->
  Install._install_status B = Install._IS_NOT_INSTALLED ->
  Dict.mem (Install.name A) (Install.manifest s) = false ->
  Dict.mem (Install.name B) (Install.manifest s) = false ->
  Install.preinstalls A = Install.name B :: restA ->
  Install.preinstalls B = Install.name A :: restB ->
  exists s',
    Install.ensure_installed install_fails true (3 + fuel) a s
      = Install.Raised UserException s' /\
    Install.installs s' = Install.installs s.
Proof.
  intros Ha Hb Ia Ib Sa Sb Ma Mb Pa Pb.
  set (s1 := Install.set_status a Install._IS_IN_PROGRESS s).
  rewrite (ensure_installed_S install_fails (2 + fuel)).
  change (2 + fuel) with (S (1 + fuel)).
  unfold Install.ensure_installed_body at 1.
  rewrite Ha, Ma, Sa. fold s1. rewrite Pa. cbn [Install.preinstall].
  unfold s1 at 1. rewrite set_status_index_of, Ib.
  destruct (Nat.eq_dec a b) as [<-|Hab].
  - assert (Hi : Install.components s1 !! a
                 = Some (Install.mkComponent (Install.name A)
                           (Install.version A) (Install.preinstalls A)
                           Install._IS_IN_PROGRESS))
      by (apply set_status_at; exact Ha).
    rewrite (ensure_in_progress install_fails (1 + fuel) a s1 _ Hi);
      [| unfold s1; rewrite set_status_manifest; exact Ma | reflexivity].
    exists s1. split; [reflexivity|]. apply set_status_installs.
  - assert (Hi : Install.components s1 !! b = Some B)
      by (unfold s1; rewrite set_status_other by exact Hab; exact Hb).
    rewrite (ensure_installed_S install_fails (1 + fuel)).
    change (1 + fuel) with (S fuel).
    unfold Install.ensure_installed_body at 1.
    rewrite Hi. unfold s1 at 1. rewrite set_status_manifest, Mb, Sb.
    set (s2 := Install.set_status b Install._IS_IN_PROGRESS s1).
    rewrite Pb. cbn [Install.preinstall].
    unfold s2 at 1. rewrite set_status_index_of. unfold s1 at 1.
    rewrite set_status_index_of, Ia.
    assert (Hi2 : Install.components s2 !! a
                  = Some (Install.mkComponent (Install.name A)
                            (Install.version A) (Install.preinstalls A)
                            Install._IS_IN_PROGRESS)).
    { unfold s2. rewrite set_status_other by (intros E; apply Hab; auto).
      apply set_status_at. exact Ha. }
    rewrite (ensure_in_progress install_fails fuel a s2 _ Hi2);
      [| unfold s2, s1; rewrite !set_status_manifest; exact Ma
       | reflexivity].
    exists s2. split; [reflexivity|].
    unfold s2, s1. rewrite !set_status_installs. reflexivity.
Qed.

Lemma circular_preinstalls_are_rejected_witness :
  exists s',
    Install.ensure_installed (fun _ => false) true 3 0 Scenario3.circular
      = Install.Raised UserException s' /\
    Install.installs s' = Install.installs Scenario3.circular.
Proof.
  exact (circular_preinstalls_are_rejected (fun _ => false) 0 0 1
           Scenario3.circular
           (Install.mkComponent "A" (VersionNumber.mk 1 0 0 "") ["B"]
              Install._IS_NOT_INSTALLED)
           (Install.mkComponent "B" (VersionNumber.mk 1 0 0 "") ["A"]
              Install._IS_NOT_INSTALLED)
           [] [] eq_refl eq_refl eq_refl eq_refl eq_refl eq_refl eq_refl
           eq_refl eq_refl eq_refl).
Defined.

(** ** The components of a target *)

Section SpecificationFacts.

Import Specification.

Lemma get_del_same {V} (k : string) (d : Dict.t V) :
  unique_keys d = true -> Dict.get k (del k d) = None.
Proof.
  induction d as [|[k' v] d IH]; [reflexivity|]. simpl.
  intros H. apply andb_true_iff in H as [H1 H2].
  destruct (String.eqb_spec k' k) as [->|Hne].
  - apply negb_true_iff in H1. unfold Dict.mem in H1.
    destruct (Dict.get k d); [discriminate H1|reflexivity].
  - simpl. destruct (String.eqb_spec k' k); [contradiction|]. auto.
Qed.

Lemma get_del_other {V} (k k' : string) (d : Dict.t V) :
  k <> k' -> Dict.get k' (del k d) = Dict.get k' d.
Proof.
  intros Hne. induction d as [|[k0 v] d IH]; [reflexivity|]. simpl.
  destruct (String.eqb_spec k0 k) as [->|H0].
  - destruct (String.eqb_spec k k'); [contradiction|reflexivity].
  - simpl. destruct (String.eqb k0 k'); [reflexivity|exact IH].
Qed.

Lemma mem_del {V} (k k' : string) (d : Dict.t V) :
  Dict.mem k' (del k d) = true -> Dict.mem k' d = true.
Proof.
  unfold Dict.mem. induction d as [|[k0 v] d IH]; [discriminate|]. simpl.
  destruct (String.eqb_spec k0 k) as [->|H0].
  - intros H. destruct (String.eqb k k'); [reflexivity|exact H].
  - simpl. destruct (String.eqb k0 k'); [reflexivity|exact IH].
Qed.

Lemma unique_del {V} (k : string) (d : Dict.t V) :
  unique_keys d = true -> unique_keys (del k d) = true.
Proof.
  induction d as [|[k0 v] d IH]; [reflexivity|]. simpl.
  intros H. apply andb_true_iff in H as [H1 H2].
  destruct (String.eqb k0 k); [exact H2|]. simpl.
  rewrite (IH H2), andb_true_r. apply negb_true_iff.
  apply negb_true_iff in H1.
  destruct (Dict.mem k0 (del k d)) eqn:E; [|reflexivity].
  apply mem_del in E. congruence.
Qed.

Lemma plain_del (k : string) (d : Dict.t toml) :
  plain d = true -> plain (del k d) = true.
Proof.
  unfold plain. induction d as [|[k0 v] d IH]; [reflexivity|]. simpl.
  intros H. apply andb_true_iff in H as [H1 H2].
  destruct (String.eqb k0 k); [exact H2|]. simpl. rewrite H1. auto.
Qed.

Lemma set_new {V} (k : string) (v : V) (d : Dict.t V) :
  Dict.mem k d = false -> Dict.set k v d = d ++ [(k, v)].
Proof.
  unfold Dict.mem. induction d as [|[k0 v0] d IH]; [reflexivity|]. simpl.
  destruct (String.eqb k0 k); [discriminate|]. intros H.
  rewrite (IH H). reflexivity.
Qed.

Lemma mem_app {V} (k : string) (d d' : Dict.t V) :
  Dict.mem k (d ++ d') = Dict.mem k d || Dict.mem k d'.
Proof.
  unfold Dict.mem. induction d as [|[k0 v0] d IH]; [reflexivity|]. simpl.
  destruct (String.eqb k0 k); [reflexivity|exact IH].
Qed.

(** The options that are not tables are the default configuration, in
    their order. *)
Lemma configs_plain (target : Platforms.Architecture)
    (items d0 : Dict.t toml) (t : option (Dict.t toml)) :
  plain items = true -> unique_keys items = true ->
  (forall k, Dict.mem k items = true -> Dict.mem k d0 = false) ->
  configs target items (d0, t) = Ok (d0 ++ items, t).
Proof.
  revert d0. induction items as [|[k v] items IH]; intros d0 Hp Hu Hd.
  - simpl. rewrite app_nil_r. reflexivity.
  - unfold plain in Hp. simpl in Hp, Hu.
    apply andb_true_iff in Hp as [Hp1 Hp2].
    apply andb_true_iff in Hu as [Hu1 Hu2].
    apply negb_true_iff in Hu1.
    assert (Hk : Dict.mem k d0 = false).
    { apply Hd. unfold Dict.mem. simpl. rewrite String.eqb_refl.
      reflexivity. }
    assert (E : configs target ((k, v) :: items) (d0, t)
                = configs target items (Dict.set k v d0, t)).
    { simpl. destruct v; try reflexivity. discriminate Hp1. }
    rewrite E, (set_new _ _ _ Hk), (IH _ Hp2 Hu2).
    + rewrite <- app_assoc. reflexivity.
    + intros k' Hk'. rewrite mem_app. rewrite Hd.
      * unfold Dict.mem. simpl.
        destruct (String.eqb_spec k k') as [->|_]; [congruence|reflexivity].
      * unfold Dict.mem in *. simpl.
        destruct (String.eqb k k'); [reflexivity|exact Hk'].
Qed.

(** Whether a predicate is accepted does not depend on the target. *)
Lemma is_targeted_accepted (a b : Platforms.Architecture) (s : string)
    (x : bool) :
  Platforms.is_targeted a (Platforms.TStr s) = Ok x ->
  exists y, Platforms.is_targeted b (Platforms.TStr s) = Ok y.
Proof.
  unfold Platforms.is_targeted.
  destruct (Platforms.truthy (Platforms.TStr s)); [|eauto].
  destruct (Nat.eqb (length (Str.split "|" s)) 1); [|eauto].
  destruct (Str.startswith "!" _).
  { destruct (Platforms.platform _); [eauto|discriminate]. }
  destruct (Str.contains "-" _).
  { destruct (Platforms.architecture _); [eauto|discriminate]. }
  destruct (Platforms.platform _); [eauto|discriminate].
Qed.

Lemma configs_accepted (a b : Platforms.Architecture)
    (items : Dict.t toml) :
  forall acc r,
    configs a items acc = Ok r ->
    forall acc', exists r', configs b items acc' = Ok r'.
Proof.
  induction items as [|[k v] items IH]; intros acc r H acc'.
  - eexists. reflexivity.
  - simpl in H |- *.
    destruct v; try (cbn [rbind] in H |- *; exact (IH _ _ H _)).
    destruct (Platforms.is_targeted a (Platforms.TStr k)) as [x|e] eqn:E;
      [|discriminate H].
    destruct (is_targeted_accepted a b k x E) as [y ->].
    cbn [rbind] in H |- *. exact (IH _ _ H _).
Qed.

End SpecificationFacts.

Section SelectionOfComponents.

Import Specification.

Lemma mem_strings (x : string) (names : list string) :
  mem x (map TString names) = Str.mem x names.
Proof.
  unfold mem, Str.mem. induction names as [|n names IH]; [reflexivity|].
  simpl. rewrite IH. reflexivity.
Qed.

Lemma is_targeted_names (target : Platforms.Architecture)
    (names : list string) :
  is_targeted target (TArray (map TString names))
  = Ok (Nat.eqb (length names) 0
        || Str.mem (Platforms.platform_name (Platforms.arch_platform target))
             names).
Proof.
  destruct names as [|n names]; [reflexivity|].
  unfold is_targeted. rewrite <- mem_strings. reflexivity.
Qed.

Lemma configs_of_plain (target : Platforms.Architecture)
    (value : Dict.t toml) :
  plain value = true -> unique_keys value = true ->
  configs target value ([], None) = Ok (value, None).
Proof.
  intros Hp Hu. rewrite (configs_plain target value [] None Hp Hu);
    [reflexivity|]. reflexivity.
Qed.

Lemma component_for_kept (target target' : Platforms.Architecture)
    (value cfg value' : Dict.t toml) :
  unique_keys value = true ->
  component_for target value = Ok (Some cfg, value') ->
  unique_keys value' = true /\
  Dict.get "disabled_targets" value' = None /\
  Dict.get "enabled_targets" value' = None /\
  exists cfg', component_for target' value' = Ok (Some cfg', value').
Proof.
  intros Hu H. unfold component_for in H.
  assert (H1 : exists value1,
            unique_keys value1 = true /\
            Dict.get "disabled_targets" value1 = None /\
            (let r :=
               match Dict.get "enabled_targets" value1 with
               | Some enabled_targets =>
                   rbind (is_targeted target enabled_targets) (fun covered =>
                     Ok (if negb covered then None
                         else Some (del "enabled_targets" value1)))
               | None => Ok (Some value1)
               end in
             rbind r (fun r =>
               match r with
               | None => Ok (None, value1)
               | Some value =>
                   rbind (configs target value ([], None)) (fun c =>
                     Ok (Some match snd c with
                              | Some target_config =>
                                  Dict.update (fst c) target_config
                              | None => fst c
                              end, value))
               end)) = Ok (Some cfg, value')).
  { destruct (Dict.get "disabled_targets" value) as [d|] eqn:Ed.
    - destruct (is_targeted target d) as [[|]|]; cbn [rbind] in H;
        try discriminate H.
      exists (del "disabled_targets" value).
      split; [apply unique_del; exact Hu|].
      split; [apply get_del_same; exact Hu|exact H].
    - cbn [rbind] in H. exists value. auto. }
  clear H. destruct H1 as (value1 & Hu1 & Hd1 & H). cbv zeta in H.
  assert (H2 : exists c,
            unique_keys value' = true /\
            Dict.get "disabled_targets" value' = None /\
            Dict.get "enabled_targets" value' = None /\
            configs target value' ([], None) = Ok c).
  { destruct (Dict.get "enabled_targets" value1) as [e|] eqn:Ee.
    - destruct (is_targeted target e) as [[|]|]; cbn [rbind negb] in H;
        try discriminate H.
      destruct (configs target (del "enabled_targets" value1) ([], None))
        as [c|] eqn:Ec; cbn [rbind] in H; [|discriminate H].
      injection H as _ <-. exists c.
      split; [apply unique_del; exact Hu1|].
      split; [rewrite get_del_other by discriminate; exact Hd1|].
      split; [apply get_del_same; exact Hu1|exact Ec].
    - cbn [rbind] in H.
      destruct (configs target value1 ([], None)) as [c|] eqn:Ec;
        cbn [rbind] in H; [|discriminate H].
      injection H as _ <-. exists c. auto. }
  destruct H2 as (c & Hu' & Hd' & He' & Hc).
  split; [exact Hu'|]. split; [exact Hd'|]. split; [exact He'|].
  unfold component_for. rewrite Hd'. cbn [rbind]. rewrite He'. cbn [rbind].
  destruct (configs_accepted target target' value' _ _ Hc ([], None))
    as [c' ->].
  cbn [rbind]. eexists. reflexivity.
Qed.

End SelectionOfComponents.

(** Property X29.
    Lists of platform names enable and disable a component.  For a
    component whose options are distinct and are not tables: with a
    [disabled_targets] list the component is passed over on the platforms
    of the list and created, with its other options as configuration, on
    the others; with an [enabled_targets] list it is created on the
    platforms of the list only; without either it is always created.  An
    empty list covers every target: [disabled_targets = []] disables the
    component everywhere and [enabled_targets = []] restricts nothing.  The
    list that was tested is removed from the options of a component that
    is created. *)
Theorem target_lists_select_components
    (target : Platforms.Architecture)
    (value : list (string * Specification.toml)) (names : list string) :
  Specification.unique_keys value = true ->
  Specification.plain value = true ->
  let listed :=
    Nat.eqb (length names) 0
    || Str.mem (Platforms.platform_name (Platforms.arch_platform target))
         names in
  let targets := Specification.TArray (map Specification.TString names) in
  (Dict.get "disabled_targets" value = Some targets ->
   Dict.get "enabled_targets" value = None ->
   Specification.component_for target value
   = if listed then Ok (None, value)
     else Ok (Some (Specification.del "disabled_targets" value),
              Specification.del "disabled_targets" value)) /\
  (Dict.get "disabled_targets" value = None ->
   Dict.get "enabled_targets" value = Some targets ->
   Specification.component_for target value
   = if listed
     then Ok (Some (Specification.del "enabled_targets" value),
              Specification.del "enabled_targets" value)
     else Ok (None, value)) /\
  (Dict.get "disabled_targets" value = None ->
   Dict.get "enabled_targets" value = None ->
   Specification.component_for target value = Ok (Some value, value)).
Proof.
  intros Hu Hp listed targets. split; [|split].
  - intros Hd He. unfold Specification.component_for. rewrite Hd.
    unfold targets. rewrite is_targeted_names. fold listed. cbn [rbind].
    destruct listed; cbn [rbind]; [reflexivity|].
    rewrite get_del_other by discriminate. rewrite He. cbn [rbind].
    rewrite configs_of_plain by (apply plain_del || apply unique_del;
                                 assumption).
    reflexivity.
  - intros Hd He. unfold Specification.component_for. rewrite Hd.
    cbn [rbind]. rewrite He. unfold targets. rewrite is_targeted_names.
    fold listed. cbn [rbind]. destruct listed; cbn [rbind negb];
      [|reflexivity].
    rewrite configs_of_plain by (apply plain_del || apply unique_del;
                                 assumption).
    reflexivity.
  - intros Hd He. unfold Specification.component_for. rewrite Hd.
    cbn [rbind]. rewrite He. cbn [rbind].
    rewrite configs_of_plain by assumption. reflexivity.
Qed.

Lemma target_lists_select_components_witness :
  Specification.component_for Platforms.Linux_x86_64
    [("version", Specification.TString "1.2.11");
     ("disabled_targets", Specification.TArray [])]
  = Ok (None,
        [("version", Specification.TString "1.2.11");
         ("disabled_targets", Specification.TArray [])]).
Proof.
  exact (proj1 (target_lists_select_components Platforms.Linux_x86_64
                  [("version", Specification.TString "1.2.11");
                   ("disabled_targets", Specification.TArray [])]
                  [] eq_refl eq_refl) eq_refl eq_refl).
Defined.

Section ForgottenLists.

Import Specification.

Lemma created_length (target : Platforms.Architecture)
    (spec : Dict.t (Dict.t toml)) (comps : list (string * Dict.t toml))
    (spec' : Dict.t (Dict.t toml)) :
  create_components_for_target target spec = Ok (comps, spec') ->
  length comps <= length spec.
Proof.
  revert comps spec'. induction spec as [|[n v] spec IH];
    intros comps spec' H.
  - injection H as <- <-. simpl. lia.
  - simpl in H. destruct (component_for target v) as [r|]; [|discriminate].
    cbn [rbind] in H.
    destruct (create_components_for_target target spec) as [[cs sp]|];
      [|discriminate].
    cbn [rbind fst snd] in H. injection H as <- <-.
    specialize (IH _ _ eq_refl). destruct (fst r); simpl; lia.
Qed.

Lemma created_again (target target' : Platforms.Architecture)
    (spec : Dict.t (Dict.t toml)) :
  forall comps spec',
    forallb (fun nv => unique_keys (snd nv)) spec = true ->
    create_components_for_target target spec = Ok (comps, spec') ->
    length comps = length spec ->
    exists comps',
      create_components_for_target target' spec' = Ok (comps', spec') /\
      map fst comps' = map fst comps.
Proof.
  induction spec as [|[n v] spec IH]; intros comps spec' Hu H Hlen.
  - injection H as <- <-. exists []. split; reflexivity.
  - simpl in Hu. apply andb_true_iff in Hu as [Hu1 Hu2]. simpl in H.
    destruct (component_for target v) as [[c v']|] eqn:Ev; [|discriminate].
    cbn [rbind] in H.
    destruct (create_components_for_target target spec) as [[cs sp]|]
      eqn:Es; [|discriminate].
    cbn [rbind fst snd] in H. injection H as <- <-.
    pose proof (created_length _ _ _ _ Es) as Hle.
    destruct c as [cfg|]; simpl in Hlen; [|lia].
    destruct (IH _ _ Hu2 eq_refl ltac:(lia)) as (cs' & Es' & Em).
    destruct (component_for_kept target target' v cfg v' Hu1 Ev)
      as (_ & _ & _ & cfg' & Ev').
    exists ((n, cfg') :: cs'). simpl. rewrite Ev'. cbn [rbind].
    rewrite Es'. cbn [rbind fst snd]. split; [reflexivity|].
    simpl. rewrite Em. reflexivity.
Qed.

End ForgottenLists.

(** Property X30.
    Creating the components of a target changes the specification.  The
    options of a component that is created no longer have
    [disabled_targets] and [enabled_targets], so a later call creates the
    component for every target, also for one the lists excluded.  When a
    call has created every component of the specification, a later call
    for any target creates components of the same names in the same
    order. *)
Theorem created_components_forget_their_target_lists
    (target target' : Platforms.Architecture)
    (value cfg value' : list (string * Specification.toml))
    (spec spec' : list (string * list (string * Specification.toml)))
    (comps : list (string * list (string * Specification.toml))) :
  (Specification.unique_keys value = true ->
   Specification.component_for target value = Ok (Some cfg, value') ->
   Dict.get "disabled_targets" value' = None /\
   Dict.get "enabled_targets" value' = None /\
   exists cfg',
     Specification.component_for target' value' = Ok (Some cfg', value')) /\
  (forallb (fun nv => Specification.unique_keys (snd nv)) spec = true ->
   Specification.create_components_for_target target spec
     = Ok (comps, spec') ->
   length comps = length spec ->
   exists comps',
     Specification.create_components_for_target target' spec'
       = Ok (comps', spec') /\
     map fst comps' = map fst comps).
Proof.
  split.
  - intros Hu H.
    destruct (component_for_kept target target' value cfg value' Hu H)
      as (_ & Hd & He & Hc). auto.
  - apply created_again.
Qed.

Lemma created_components_forget_their_target_lists_witness :
  Specification.component_for Platforms.Linux_x86_64
    [("version", Specification.TString "1.1.1");
     ("disabled_targets",
      Specification.TArray [Specification.TString "win"])]
  = Ok (Some [("version", Specification.TString "1.1.1")],
        [("version", Specification.TString "1.1.1")]) /\
  exists cfg',
    Specification.component_for Platforms.Windows_x86_64
      [("version", Specification.TString "1.1.1")]
    = Ok (Some cfg', [("version", Specification.TString "1.1.1")]).
Proof.
  split; [reflexivity|].
  exact (proj2 (proj2 (proj1
    (created_components_forget_their_target_lists Platforms.Linux_x86_64
       Platforms.Windows_x86_64
       [("version", Specification.TString "1.1.1");
        ("disabled_targets",
         Specification.TArray [Specification.TString "win"])]
       [("version", Specification.TString "1.1.1")]
       [("version", Specification.TString "1.1.1")] [] [] [])
    eq_refl eq_refl))).
Defined.
